(** * QtEvoBot: the robot session and the connection controller

    A shallow embedding of [src/robotservice.cpp] (class
    [RobotService::Private]) and of the derived state of
    [src/controller.cpp] (class [Controller::Private]), followed by the
    properties of the command protocol.

    Conventions of the embedding:
    - a C++ [int] is a [Z]; where the source's arithmetic can leave the
      32-bit range the wrap-around is written with [to_int];
    - a C++ [char] (and a byte of a [QByteArray]) is its 8-bit pattern,
      a [Z] in [0, 256); [to_char] is the conversion from [int];
      whether plain [char] is signed is a property of the platform and
      only matters where two [char]s are ordered ([char_value]);
    - pointers to Qt objects are [option]s, [None] being [nullptr];
    - signals emitted and calls made on the Bluetooth stack are collected
      as a list of [Effect]s by a small state-and-output monad. *)

From Stdlib Require Import ZArith List String Ascii Bool Lia.
Import ListNotations.
Local Open Scope string_scope.
Local Open Scope list_scope.
Local Open Scope Z_scope.

(** ** C++ scalars *)

Class Platform := { char_is_signed : bool }.

Definition int_max : Z := 2147483647.
Definition int_min : Z := -2147483648.

Definition to_int (z : Z) : Z := (z + 2147483648) mod 4294967296 - 2147483648.

Definition to_char (z : Z) : Z := z mod 256.

Definition char_value `{Platform} (b : Z) : Z :=
  if char_is_signed && (128 <=? b) then b - 256 else b.

(** Plain [char] is signed on x86 and unsigned on ARM. *)
Definition signed_char : Platform := {| char_is_signed := true |}.
Definition unsigned_char : Platform := {| char_is_signed := false |}.

(** [qMin], [qMax] and [qBound] of Qt 5's qglobal.h, at type [int]. *)
Definition qMin (a b : Z) : Z := if a <? b then a else b.
Definition qMax (a b : Z) : Z := if a <? b then b else a.
Definition qBound (min val max : Z) : Z := qMax min (qMin max val).

(** The same at type [char]: [qBound<char>(min, val, max)] first converts
    its three arguments to [char], then orders them as [char]s. *)
Definition qMin_char `{Platform} (a b : Z) : Z :=
  if char_value a <? char_value b then a else b.
Definition qMax_char `{Platform} (a b : Z) : Z :=
  if char_value a <? char_value b then b else a.
Definition qBound_char `{Platform} (min val max : Z) : Z :=
  qMax_char (to_char min) (qMin_char (to_char max) (to_char val)).

(** ** Byte arrays *)

Definition byte_at (m : list Z) (i : Z) : Z := nth (Z.to_nat i) m 0.

Fixpoint update_nth (n : nat) (v : Z) (m : list Z) : list Z :=
  match m, n with
  | [], _ => []
  | _ :: r, O => v :: r
  | x :: r, S k => x :: update_nth k v r
  end.

Definition set_byte_at (m : list Z) (i : Z) (v : Z) : list Z :=
  update_nth (Z.to_nat i) v m.

Fixpoint bytes_eqb (a b : list Z) : bool :=
  match a, b with
  | [], [] => true
  | x :: a', y :: b' => (x =? y) && bytes_eqb a' b'
  | _, _ => false
  end.

(** ** Text of a notification *)

Definition is_digit (c : ascii) : bool :=
  (48 <=? Z.of_N (N_of_ascii c)) && (Z.of_N (N_of_ascii c) <=? 57).

Definition digit_value (c : ascii) : Z := Z.of_N (N_of_ascii c) - 48.

(** [QString::fromLatin1(const QByteArray &)] of Qt 5 stops at the first
    NUL byte of the array. *)
Fixpoint fromLatin1 (value : string) : string :=
  match value with
  | EmptyString => EmptyString
  | String c r => if Ascii.eqb c zero then EmptyString else String c (fromLatin1 r)
  end.

(** The longest run of decimal digits at the head of a text, and the rest. *)
Fixpoint span_digits (s : string) : string * string :=
  match s with
  | EmptyString => (EmptyString, EmptyString)
  | String c r =>
      if is_digit c
      then let '(ds, rest) := span_digits r in (String c ds, rest)
      else (EmptyString, s)
  end.

(** A match of [V(\d+)<suffix>] that starts at the head of [s]: the digits
    captured by group 1. The group is followed by a letter, so only the
    longest run of digits can match. *)
Definition match_here (suffix s : string) : option string :=
  match s with
  | String c r =>
      if Ascii.eqb c "V"%char
      then let '(ds, rest) := span_digits r in
           match ds with
           | EmptyString => None
           | String _ _ => if String.prefix suffix rest then Some ds else None
           end
      else None
  | EmptyString => None
  end.

(** [QRegularExpression(R"(V(\d+)<suffix>)").match(text)]: the leftmost
    match anywhere in the text. *)
Fixpoint regex_match (suffix text : string) : option string :=
  match match_here suffix text with
  | Some ds => Some ds
  | None =>
      match text with
      | EmptyString => None
      | String _ r => regex_match suffix r
      end
  end.


Fixpoint decimal_value (acc : Z) (s : string) : Z :=
  match s with
  | EmptyString => acc
  | String c r => decimal_value (10 * acc + digit_value c) r
  end.

(** [QStringRef::toInt()] on a run of digits: the number they denote, or 0
    when the conversion fails because it does not fit an [int]. *)
Definition toInt (digits : string) : Z :=
  let v := decimal_value 0 digits in
  if v <=? int_max then v else 0.

(** The clamp of the specification: [x] limited to [lo .. hi]. *)
Definition clamp (x lo hi : Z) : Z := Z.max lo (Z.min x hi).

(** ** The robot session: [RobotService::Private] *)

Module RobotService.

Inductive State := DisconnectedState | ConnectingState | ConnectedState.

Definition State_eqb (a b : State) : bool :=
  match a, b with
  | DisconnectedState, DisconnectedState
  | ConnectingState, ConnectingState
  | ConnectedState, ConnectedState => true
  | _, _ => false
  end.

(** [QLowEnergyService::ServiceState] *)
Inductive ServiceState :=
| InvalidService | DiscoveryRequired | DiscoveringServices | ServiceDiscovered | LocalService.

(** A characteristic handle: default-constructed (invalid), or a
    characteristic of the service object [owner]. *)
Inductive Characteristic :=
| InvalidCharacteristic
| Char (owner : nat) (handle : nat) (uuid : Z) (value : string) (descriptors : list Z).

Definition isValid (c : Characteristic) : bool :=
  match c with InvalidCharacteristic => false | Char _ _ _ _ _ => true end.

Definition uuid_of (c : Characteristic) : Z :=
  match c with InvalidCharacteristic => 0 | Char _ _ u _ _ => u end.

Definition value_of (c : Characteristic) : string :=
  match c with InvalidCharacteristic => EmptyString | Char _ _ _ v _ => v end.

Definition descriptor_isValid (c : Characteristic) (uuid : Z) : bool :=
  match c with
  | InvalidCharacteristic => false
  | Char _ _ _ _ ds => existsb (Z.eqb uuid) ds
  end.

(** [QLowEnergyCharacteristic::operator==]: same service object and same
    handle; two invalid characteristics are equal. *)
Definition Characteristic_eqb (a b : Characteristic) : bool :=
  match a, b with
  | InvalidCharacteristic, InvalidCharacteristic => true
  | Char o h _ _ _, Char o' h' _ _ _ => Nat.eqb o o' && Nat.eqb h h'
  | _, _ => false
  end.

(** A [QLowEnergyService] object: its identity, the state it is created
    in, and the characteristics it exposes once discovered. *)
Record Service := {
  service_object : nat;
  serviceUuid : Z;
  service_state : ServiceState;
  service_characteristics : list Characteristic
}.

Definition characteristic (s : Service) (uuid : Z) : Characteristic :=
  match find (fun c => uuid_of c =? uuid) (service_characteristics s) with
  | Some c => c
  | None => InvalidCharacteristic
  end.

(** Pointer equality [service == m_member]. *)
Definition same_service (s : Service) (m : option Service) : bool :=
  match m with
  | Some s' => Nat.eqb (service_object s) (service_object s')
  | None => false
  end.

(** A [QLowEnergyController]: [createServiceObject] yields [nullptr]
    for a service the peripheral does not have. *)
Record Central := { createServiceObject : Z -> option Service }.

Definition s_serviceUuid : Z := 0xfff3.
Definition s_notifyUuid : Z := 0xfff4.
Definition s_writeUuid : Z := 0xfff5.
Definition DeviceInformation : Z := 0x180a.
Definition FirmwareRevisionString : Z := 0x2a26.
Definition ClientCharacteristicConfiguration : Z := 0x2902.

(** "X\x11\x40\x40\x00\x00" *)
Definition s_pauseMessage : list Z := [0x58; 0x11; 0x40; 0x40; 0x00; 0x00].
Definition s_transmitterInterval : Z := 100.

Record MessageFragment := { offset : Z; value : Z }.

Definition no_fragment : MessageFragment := {| offset := -1; value := 0 |}.

(** [MessageFragment::operator bool] *)
Definition fragment_valid (f : MessageFragment) : bool :=
  (0 <=? offset f) && (offset f <? 6).

Record Private := {
  m_oldState : State;
  m_deviceInformation : option Service;
  m_robotControl : option Service;
  m_writeCharacteristic : Characteristic;
  m_firmwareRevision : Z;
  m_currentSound : Z;
  m_pendingMessageCount : Z;
  m_message : list Z;
  m_audioLoop : bool;
  m_emitter : bool
}.

Definition initial : Private := {|
  m_oldState := DisconnectedState;
  m_deviceInformation := None;
  m_robotControl := None;
  m_writeCharacteristic := InvalidCharacteristic;
  m_firmwareRevision := -1;
  m_currentSound := 0;
  m_pendingMessageCount := 0;
  m_message := s_pauseMessage;
  m_audioLoop := false;
  m_emitter := false
|}.

Definition with_oldState (v : State) (d : Private) : Private :=
  {| m_oldState := v; m_deviceInformation := m_deviceInformation d;
     m_robotControl := m_robotControl d; m_writeCharacteristic := m_writeCharacteristic d;
     m_firmwareRevision := m_firmwareRevision d; m_currentSound := m_currentSound d;
     m_pendingMessageCount := m_pendingMessageCount d; m_message := m_message d;
     m_audioLoop := m_audioLoop d; m_emitter := m_emitter d |}.

Definition with_services (di rc : option Service) (d : Private) : Private :=
  {| m_oldState := m_oldState d; m_deviceInformation := di;
     m_robotControl := rc; m_writeCharacteristic := m_writeCharacteristic d;
     m_firmwareRevision := m_firmwareRevision d; m_currentSound := m_currentSound d;
     m_pendingMessageCount := m_pendingMessageCount d; m_message := m_message d;
     m_audioLoop := m_audioLoop d; m_emitter := m_emitter d |}.

Definition with_writeCharacteristic (v : Characteristic) (d : Private) : Private :=
  {| m_oldState := m_oldState d; m_deviceInformation := m_deviceInformation d;
     m_robotControl := m_robotControl d; m_writeCharacteristic := v;
     m_firmwareRevision := m_firmwareRevision d; m_currentSound := m_currentSound d;
     m_pendingMessageCount := m_pendingMessageCount d; m_message := m_message d;
     m_audioLoop := m_audioLoop d; m_emitter := m_emitter d |}.

Definition with_firmwareRevision (v : Z) (d : Private) : Private :=
  {| m_oldState := m_oldState d; m_deviceInformation := m_deviceInformation d;
     m_robotControl := m_robotControl d; m_writeCharacteristic := m_writeCharacteristic d;
     m_firmwareRevision := v; m_currentSound := m_currentSound d;
     m_pendingMessageCount := m_pendingMessageCount d; m_message := m_message d;
     m_audioLoop := m_audioLoop d; m_emitter := m_emitter d |}.

Definition with_currentSound (v : Z) (d : Private) : Private :=
  {| m_oldState := m_oldState d; m_deviceInformation := m_deviceInformation d;
     m_robotControl := m_robotControl d; m_writeCharacteristic := m_writeCharacteristic d;
     m_firmwareRevision := m_firmwareRevision d; m_currentSound := v;
     m_pendingMessageCount := m_pendingMessageCount d; m_message := m_message d;
     m_audioLoop := m_audioLoop d; m_emitter := m_emitter d |}.

Definition with_pendingMessageCount (v : Z) (d : Private) : Private :=
  {| m_oldState := m_oldState d; m_deviceInformation := m_deviceInformation d;
     m_robotControl := m_robotControl d; m_writeCharacteristic := m_writeCharacteristic d;
     m_firmwareRevision := m_firmwareRevision d; m_currentSound := m_currentSound d;
     m_pendingMessageCount := v; m_message := m_message d;
     m_audioLoop := m_audioLoop d; m_emitter := m_emitter d |}.

Definition with_message (v : list Z) (d : Private) : Private :=
  {| m_oldState := m_oldState d; m_deviceInformation := m_deviceInformation d;
     m_robotControl := m_robotControl d; m_writeCharacteristic := m_writeCharacteristic d;
     m_firmwareRevision := m_firmwareRevision d; m_currentSound := m_currentSound d;
     m_pendingMessageCount := m_pendingMessageCount d; m_message := v;
     m_audioLoop := m_audioLoop d; m_emitter := m_emitter d |}.

Definition with_audioLoop (v : bool) (d : Private) : Private :=
  {| m_oldState := m_oldState d; m_deviceInformation := m_deviceInformation d;
     m_robotControl := m_robotControl d; m_writeCharacteristic := m_writeCharacteristic d;
     m_firmwareRevision := m_firmwareRevision d; m_currentSound := m_currentSound d;
     m_pendingMessageCount := m_pendingMessageCount d; m_message := m_message d;
     m_audioLoop := v; m_emitter := m_emitter d |}.

Definition with_emitter (v : bool) (d : Private) : Private :=
  {| m_oldState := m_oldState d; m_deviceInformation := m_deviceInformation d;
     m_robotControl := m_robotControl d; m_writeCharacteristic := m_writeCharacteristic d;
     m_firmwareRevision := m_firmwareRevision d; m_currentSound := m_currentSound d;
     m_pendingMessageCount := m_pendingMessageCount d; m_message := m_message d;
     m_audioLoop := m_audioLoop d; m_emitter := v |}.

(** What a handler makes visible outside the object: the signals of
    [RobotService] and the requests to the Bluetooth stack and the timer. *)
Inductive Effect :=
| currentMessageChanged (message : list Z)
| currentSoundChanged (currentSound : Z)
| stateChanged (newState oldState : State)
| writeCharacteristic (service : nat) (c : Characteristic) (message : list Z)
| writeDescriptor (service : nat) (c : Characteristic) (descriptor : Z) (hex : string)
| discoverDetails (service : nat)
| emitterStart (interval : Z).

(** *** The monad of the member functions *)

Definition M (A : Type) : Type := Private -> A * Private * list Effect.

Definition ret {A} (a : A) : M A := fun d => (a, d, []).

Definition bind {A B} (m : M A) (k : A -> M B) : M B :=
  fun d =>
    let '(a, d1, o1) := m d in
    let '(b, d2, o2) := k a d1 in
    (b, d2, o1 ++ o2).

Definition get : M Private := fun d => (d, d, []).
Definition modify (f : Private -> Private) : M unit := fun d => (tt, f d, []).
Definition emit (e : Effect) : M unit := fun d => (tt, d, [e]).

Notation "x <- m ;; k" := (bind m (fun x => k))
  (at level 61, m at next level, right associativity).
Notation "m ;; k" := (bind m (fun _ => k))
  (at level 61, right associativity).

Definition result {A} (r : A * Private * list Effect) : A := fst (fst r).
Definition after {A} (r : A * Private * list Effect) : Private := snd (fst r).
Definition emitted {A} (r : A * Private * list Effect) : list Effect := snd r.

Section Session.
Context `{Platform}.

Definition state (d : Private) : State :=
  if isValid (m_writeCharacteristic d) then ConnectedState
  else match m_robotControl d, m_deviceInformation d with
       | Some _, Some _ => ConnectingState
       | _, _ => DisconnectedState
       end.

Definition fragmentForAction (d : Private) (action : ascii) (index : Z)
  : MessageFragment :=
  if Ascii.eqb action "F"%char
       then {| offset := 1; value := to_char (char_value (qBound_char 0 index 3) + 1) |}
  else if Ascii.eqb action "B"%char
       then {| offset := 1; value := to_char (char_value (qBound_char 0 index 3) + 5) |}
  else if Ascii.eqb action "L"%char
       then {| offset := 1; value := to_char (char_value (qBound_char 0 index 3) + 9) |}
  else if Ascii.eqb action "R"%char
       then {| offset := 1; value := to_char (char_value (qBound_char 0 index 3) + 13) |}
  else if Ascii.eqb action "O"%char then {| offset := 2; value := 0x3c |}
  else if Ascii.eqb action "C"%char then {| offset := 2; value := 0x3d |}
  else if Ascii.eqb action "U"%char then {| offset := 3; value := 0x3e |}
  else if Ascii.eqb action "D"%char then {| offset := 3; value := 0x3f |}
  else if Ascii.eqb action "M"%char || Ascii.eqb action "V"%char
       then {| offset := 4; value := to_char (to_int (qMax 0 index + 21)) |}
  else if Ascii.eqb action "E"%char
       then {| offset := 5;
               value := to_char (if index =? 0 then 0x3b
                                 else qBound 1 index 63
                                      + (if m_firmwareRevision d =? 1 then 0x35 else 0x47)) |}
  else no_fragment.

Definition transmitMessage : M unit :=
  d <- get ;;
  match m_robotControl d with
  | Some rc =>
      modify (with_pendingMessageCount (to_int (m_pendingMessageCount d + 1))) ;;
      emit (writeCharacteristic (service_object rc) (m_writeCharacteristic d) (m_message d))
  | None => ret tt
  end.

(** [setCurrentMessage(int offset, char value)] *)
Definition setCurrentMessage (offset : Z) (value : Z) : M unit :=
  d <- get ;;
  if (0 <=? offset) && (offset <? Z.of_nat (List.length (m_message d)))
     && negb (byte_at (m_message d) offset =? value)
  then
    modify (with_message (set_byte_at (m_message d) offset value)) ;;
    emit (currentMessageChanged (set_byte_at (m_message d) offset value)) ;;
    transmitMessage
  else ret tt.

(** [setCurrentMessage(const QByteArray &message)] *)
Definition setCurrentMessage_bytes (message : list Z) : M unit :=
  d <- get ;;
  if negb (bytes_eqb message (m_message d))
     && Nat.eqb (List.length message) (List.length (m_message d))
  then
    modify (with_message message) ;;
    emit (currentMessageChanged message) ;;
    transmitMessage
  else ret tt.

(** [RobotService::setCurrentMessage(const QList<int> &)] *)
Definition setCurrentMessage_list (message : list Z) : M unit :=
  setCurrentMessage_bytes (map to_char message).

Definition checkState : M unit :=
  d <- get ;;
  let newState := state d in
  if negb (State_eqb newState (m_oldState d))
  then emit (stateChanged newState (m_oldState d)) ;;
       modify (with_oldState newState)
  else ret tt.

Definition startAction (action : ascii) (index : Z) : M bool :=
  if Ascii.eqb action "S"%char then
    setCurrentMessage_bytes s_pauseMessage ;;
    ret true
  else
    d <- get ;;
    let fragment := fragmentForAction d action index in
    if fragment_valid fragment then
      (if offset fragment =? 4
       then modify (with_audioLoop (Ascii.eqb action "M"%char))
       else ret tt) ;;
      setCurrentMessage (offset fragment) (value fragment) ;;
      ret true
    else ret false.

Definition stopAction (action : ascii) (index : Z) : M bool :=
  d <- get ;;
  let fragment := fragmentForAction d action index in
  if fragment_valid fragment then
    if value fragment =? byte_at (m_message d) (offset fragment) then
      setCurrentMessage (offset fragment) (byte_at s_pauseMessage (offset fragment)) ;;
      ret true
    else ret false
  else ret false.

Definition playSound (index : Z) : M bool := startAction "V"%char index.
Definition playLoop (index : Z) : M bool := startAction "M"%char index.

Definition onEmitterTimeout : M unit :=
  d <- get ;;
  if m_pendingMessageCount d =? 0 then transmitMessage else ret tt.

Definition onCharacteristicWritten (info : Characteristic) (value : string) : M unit :=
  d <- get ;;
  if Characteristic_eqb info (m_writeCharacteristic d) then
    modify (with_pendingMessageCount (to_int (m_pendingMessageCount d - 1))) ;;
    setCurrentMessage 5 0
  else ret tt.

Definition onCharacteristicChanged (info : Characteristic) (value : string) : M unit :=
  if uuid_of info =? s_notifyUuid then
    let text := fromLatin1 value in
    match regex_match "Play" text with
    | Some digits =>
        modify (with_currentSound (toInt digits)) ;;
        d <- get ;;
        (if negb (m_audioLoop d)
         then stopAction "V"%char (m_currentSound d) ;; ret tt
         else ret tt) ;;
        d' <- get ;;
        emit (currentSoundChanged (m_currentSound d'))
    | None =>
        match regex_match "End" text with
        | Some digits =>
            modify (with_currentSound (toInt digits)) ;;
            d <- get ;;
            (if m_audioLoop d
             then startAction "M"%char (m_currentSound d) ;; ret tt
             else
               modify (with_currentSound (to_int (- m_currentSound d))) ;;
               d' <- get ;;
               stopAction "V"%char (to_int (- m_currentSound d')) ;; ret tt) ;;
            d'' <- get ;;
            emit (currentSoundChanged (m_currentSound d''))
        | None => ret tt
        end
    end
  else ret tt.

Definition readFirmwareVersion : M bool :=
  d <- get ;;
  match m_deviceInformation d with
  | Some di =>
      let revisionCharacteristic := characteristic di FirmwareRevisionString in
      if isValid revisionCharacteristic then
        if String.eqb (value_of revisionCharacteristic) "Ver2.0" then
          modify (with_firmwareRevision 2) ;; ret true
        else if String.eqb (value_of revisionCharacteristic) "Ver1.0" then
          modify (with_firmwareRevision 1) ;; ret true
        else ret false
      else ret false
  | None => ret false
  end.

Definition startNotification : M bool :=
  d <- get ;;
  match m_robotControl d with
  | Some rc =>
      let c := characteristic rc s_notifyUuid in
      if isValid c && descriptor_isValid c ClientCharacteristicConfiguration then
        emit (writeDescriptor (service_object rc) c ClientCharacteristicConfiguration "0100") ;;
        ret true
      else ret false
  | None => ret false
  end.

Definition startTransmission : M bool :=
  d <- get ;;
  match m_robotControl d with
  | Some rc =>
      modify (with_writeCharacteristic (characteristic rc s_writeUuid)) ;;
      if isValid (characteristic rc s_writeUuid) then
        checkState ;;
        modify (with_emitter true) ;;
        emit (emitterStart s_transmitterInterval) ;;
        onEmitterTimeout ;;
        ret true
      else ret false
  | None => ret false
  end.

Definition onServiceStateChanged (service : Service) (newState : ServiceState) : M unit :=
  match newState with
  | DiscoveryRequired => emit (discoverDetails (service_object service))
  | ServiceDiscovered =>
      d <- get ;;
      if same_service service (m_deviceInformation d) then
        readFirmwareVersion ;; ret tt
      else if same_service service (m_robotControl d) then
        ok <- startNotification ;;
        if ok then startTransmission ;; ret tt else ret tt
      else ret tt
  | _ => ret tt
  end.

(** [createService] dereferences the pointer [createServiceObject]
    returned; [None] stands for that dereference of [nullptr]. *)
Definition createService (central : Central) (serviceUuid : Z)
  : Private -> option (Service * Private * list Effect) :=
  fun d =>
    match createServiceObject central serviceUuid with
    | Some service =>
        let '(_, d1, o1) := onServiceStateChanged service (service_state service) d in
        Some (service, d1, o1)
    | None => None
    end.

Definition attach (central : Central) : Private -> option (bool * Private * list Effect) :=
  fun d =>
    if State_eqb (state d) ConnectedState then Some (false, d, [])
    else
      match createService central DeviceInformation d with
      | Some (deviceInformation, d1, o1) =>
          match createService central s_serviceUuid d1 with
          | Some (robotControl, d2, o2) =>
              let '(_, d3, o3) :=
                (modify (with_services (Some deviceInformation) (Some robotControl)) ;;
                 checkState) d2 in
              Some (true, d3, o1 ++ o2 ++ o3)
          | None => None
          end
      | None => None
      end.

(** *** Events: the calls that reach the object from outside *)

Inductive Event :=
| EvAttach (central : Central)
| EvServiceStateChanged (service : Service) (newState : ServiceState)
| EvCharacteristicChanged (info : Characteristic) (value : string)
| EvCharacteristicWritten (info : Characteristic) (value : string)
| EvEmitterTimeout
| EvSetCurrentMessage (message : list Z)
| EvStartAction (action : ascii) (index : Z)
| EvStopAction (action : ascii) (index : Z)
| EvPlaySound (index : Z)
| EvPlayLoop (index : Z).

Definition forget {A} (r : A * Private * list Effect) : Private * list Effect :=
  (after r, emitted r).

(** One event handled. [None]: the event cannot occur in this state (the
    timer only fires while it runs) or the handler dereferences
    [nullptr]. *)
Definition step (d : Private) (e : Event) : option (Private * list Effect) :=
  match e with
  | EvAttach central =>
      match attach central d with
      | Some r => Some (forget r)
      | None => None
      end
  | EvServiceStateChanged service newState =>
      Some (forget (onServiceStateChanged service newState d))
  | EvCharacteristicChanged info value =>
      Some (forget (onCharacteristicChanged info value d))
  | EvCharacteristicWritten info value =>
      Some (forget (onCharacteristicWritten info value d))
  | EvEmitterTimeout =>
      if m_emitter d then Some (forget (onEmitterTimeout d)) else None
  | EvSetCurrentMessage message => Some (forget (setCurrentMessage_list message d))
  | EvStartAction action index => Some (forget (startAction action index d))
  | EvStopAction action index => Some (forget (stopAction action index d))
  | EvPlaySound index => Some (forget (playSound index d))
  | EvPlayLoop index => Some (forget (playLoop index d))
  end.

Fixpoint run (d : Private) (events : list Event) : option (Private * list Effect) :=
  match events with
  | [] => Some (d, [])
  | e :: rest =>
      match step d e with
      | Some (d1, o1) =>
          match run d1 rest with
          | Some (d2, o2) => Some (d2, o1 ++ o2)
          | None => None
          end
      | None => None
      end
  end.

Definition reachable (d : Private) : Prop :=
  exists events out, run initial events = Some (d, out).

(** The event is an acknowledgment of a write on the write
    characteristic: the one [onCharacteristicWritten] counts. *)
Definition is_write_ack (d : Private) (e : Event) : bool :=
  match e with
  | EvCharacteristicWritten info _ => Characteristic_eqb info (m_writeCharacteristic d)
  | _ => false
  end.

(** No acknowledgment of the sequence arrives while no write is pending. *)
Fixpoint acks_answer_writes (d : Private) (events : list Event) : bool :=
  match events with
  | [] => true
  | e :: rest =>
      (if is_write_ack d e then 0 <? m_pendingMessageCount d else true)
      && match step d e with
         | Some (d1, _) => acks_answer_writes d1 rest
         | None => true
         end
  end.

End Session.

(** *** Vocabulary of the statements *)


(** The messages written to the peripheral among the effects. *)
Fixpoint transmitted (out : list Effect) : list (list Z) :=
  match out with
  | [] => []
  | writeCharacteristic _ _ m :: r => m :: transmitted r
  | _ :: r => transmitted r
  end.

(** The messages announced by [currentMessageChanged] among the effects. *)
Fixpoint message_events (out : list Effect) : list (list Z) :=
  match out with
  | [] => []
  | currentMessageChanged m :: r => m :: message_events r
  | _ :: r => message_events r
  end.

(** The four locomotion symbols and the base of their value band in the
    specification. *)
Definition locomotion_base (action : ascii) : option Z :=
  if Ascii.eqb action "F"%char then Some 1
  else if Ascii.eqb action "B"%char then Some 5
  else if Ascii.eqb action "L"%char then Some 9
  else if Ascii.eqb action "R"%char then Some 13
  else None.

(** What the command path (actions, acknowledgments, notifications, the
    timer) leaves alone: the link to the peripheral and the size of the
    command buffer. *)
Definition same_link (d d' : Private) : Prop :=
  m_oldState d' = m_oldState d
  /\ m_deviceInformation d' = m_deviceInformation d
  /\ m_robotControl d' = m_robotControl d
  /\ m_writeCharacteristic d' = m_writeCharacteristic d
  /\ m_firmwareRevision d' = m_firmwareRevision d
  /\ m_emitter d' = m_emitter d
  /\ List.length (m_message d') = List.length (m_message d).

(** The pending-write counter after a handler that transmits at most
    once. *)
Definition may_transmit (d d' : Private) : Prop :=
  m_pendingMessageCount d' = m_pendingMessageCount d
  \/ m_pendingMessageCount d' = to_int (m_pendingMessageCount d + 1).

(** What the handlers of the link (attach, service discovery) do to the
    rest of the object: they leave the command path alone, never clear a
    handle, only start the timer on a session that has its robot-control
    service, and transmit at most the first message. *)
Definition link_progress (d d' : Private) : Prop :=
  m_message d' = m_message d
  /\ m_audioLoop d' = m_audioLoop d
  /\ m_currentSound d' = m_currentSound d
  /\ (m_deviceInformation d <> None -> m_deviceInformation d' <> None)
  /\ (m_robotControl d <> None -> m_robotControl d' <> None)
  /\ (m_emitter d = true -> m_emitter d' = true)
  /\ (m_emitter d' = true -> m_emitter d = true \/ m_robotControl d' <> None)
  /\ (m_pendingMessageCount d' = m_pendingMessageCount d
      \/ (m_pendingMessageCount d = 0 /\ m_pendingMessageCount d' = 1)).

(** The timer only runs on a session that has its robot-control service,
    and the command buffer has its six bytes. *)
Definition invariant (d : Private) : Prop :=
  (m_emitter d = true -> m_robotControl d <> None)
  /\ List.length (m_message d) = 6%nat.

(** The command buffer has its six bytes. *)
Definition well_formed (d : Private) : Prop := List.length (m_message d) = 6%nat.

(** A peripheral with both services, as the robot exposes them. *)
Definition robot_deviceInformation : Service := {|
  service_object := 1;
  serviceUuid := DeviceInformation;
  service_state := DiscoveryRequired;
  service_characteristics := [Char 1 1 FirmwareRevisionString "Ver1.0" []]
|}.

Definition robot_notify : Characteristic :=
  Char 2 1 s_notifyUuid "" [ClientCharacteristicConfiguration].

Definition robot_write : Characteristic := Char 2 2 s_writeUuid "" [].

Definition robot_robotControl : Service := {|
  service_object := 2;
  serviceUuid := s_serviceUuid;
  service_state := DiscoveryRequired;
  service_characteristics := [robot_notify; robot_write]
|}.

Definition robot_central : Central := {|
  createServiceObject := fun uuid =>
    if uuid =? DeviceInformation then Some robot_deviceInformation
    else if uuid =? s_serviceUuid then Some robot_robotControl
    else None
|}.

(** The events of a clean connection to that peripheral. *)
Definition robot_connects : list Event :=
  [EvAttach robot_central;
   EvServiceStateChanged robot_deviceInformation ServiceDiscovered;
   EvServiceStateChanged robot_robotControl ServiceDiscovered].

(** The peripheral acknowledges a write. *)
Definition robot_acknowledges : Event := EvCharacteristicWritten robot_write "".

(** The session once connected, its first message acknowledged. *)
Definition robot_idle : Private :=
  Eval vm_compute in
    match @run signed_char initial (robot_connects ++ [robot_acknowledges]) with
    | Some (d, _) => d
    | None => initial
    end.

(** The session after [attach], before any service is discovered. *)
Definition robot_attached : Private :=
  Eval vm_compute in
    match @run signed_char initial [EvAttach robot_central] with
    | Some (d, _) => d
    | None => initial
    end.

(** A robot-control service without the write characteristic, and a
    session attached to it. *)
Definition control_without_write : Service := {|
  service_object := 2;
  serviceUuid := s_serviceUuid;
  service_state := DiscoveryRequired;
  service_characteristics := [robot_notify]
|}.

Definition attached_without_write : Private :=
  with_services (Some robot_deviceInformation) (Some control_without_write) initial.

(** *** The rest of the public interface and its vocabulary *)

(** [RobotService::currentMessage()]: the bytes of the buffer copied into
    a list of [int]s; a [char] converts to [int] with its value. *)
Definition currentMessage `{Platform} (d : Private) : list Z :=
  map char_value (m_message d).

(** The symbols [fragmentForAction] has a case for. *)
Definition codec_symbol (action : ascii) : bool :=
  existsb (Ascii.eqb action)
    ["F"; "B"; "L"; "R"; "O"; "C"; "U"; "D"; "M"; "V"; "E"]%char.

(** Every byte of a buffer is a byte. *)
Definition bytes_ok (m : list Z) : Prop := Forall (fun b => 0 <= b < 256) m.

(** The [stateChanged] signals among the effects, as (new, old). *)
Fixpoint state_events (out : list Effect) : list (State * State) :=
  match out with
  | [] => []
  | stateChanged n o :: r => (n, o) :: state_events r
  | _ :: r => state_events r
  end.

(** A run of state announcements that leads from one state to another:
    each reports as old state the state the one before reported as new,
    and none reports a state as changed into itself. *)
Fixpoint announces (from : State) (l : list (State * State)) (to : State) : Prop :=
  match l with
  | [] => from = to
  | (n, o) :: r => o = from /\ n <> o /\ announces n r to
  end.

(** What a call that may change the buffer shows of it: no
    [currentMessageChanged] when the buffer is as before, exactly one,
    carrying the new buffer, when it is not; and the same buffers written
    to the peripheral when the session has its robot-control service,
    none when it has not. *)
Definition change_announced (d : Private) (p : Private * list Effect) : Prop :=
  (message_events (snd p) = [] /\ m_message (fst p) = m_message d
   \/ message_events (snd p) = [m_message (fst p)] /\ m_message (fst p) <> m_message d)
  /\ transmitted (snd p)
     = match m_robotControl d with
       | Some _ => message_events (snd p)
       | None => []
       end.

(** The effects of the command path: signals about the buffer and the
    sound, and writes of the buffer. *)
Definition buffer_effect (e : Effect) : bool :=
  match e with
  | currentMessageChanged _ | currentSoundChanged _ | writeCharacteristic _ _ _ => true
  | _ => false
  end.

(** The state announcements of a call lead from the state last
    announced before it to the state last announced after it. *)
Definition chains {A} (d : Private) (r : A * Private * list Effect) : Prop :=
  announces (m_oldState d) (state_events (emitted r)) (m_oldState (after r)).

(** The loop mode an event sets by starting a sound action, if it is
    one: [playLoop] and 'M' turn it on, [playSound] and 'V' turn it off. *)
Definition sound_start (e : Event) : option bool :=
  match e with
  | EvStartAction action _ =>
      if Ascii.eqb action "M"%char then Some true
      else if Ascii.eqb action "V"%char then Some false
      else None
  | EvPlaySound _ => Some false
  | EvPlayLoop _ => Some true
  | _ => None
  end.

End RobotService.

(** ** The connection controller: the derived state of [Controller::Private] *)

Module Controller.

Inductive State :=
| UninitializedState
| DeviceDiscoveryState
| ServiceDiscoveryState
| ConnectingState
| ConnectedState
| ErrorState.

Inductive Error :=
| NoError
| BluetoothMissingError
| DeviceDiscoveryError
| DeviceError.

Definition Error_eqb (a b : Error) : bool :=
  match a, b with
  | NoError, NoError
  | BluetoothMissingError, BluetoothMissingError
  | DeviceDiscoveryError, DeviceDiscoveryError
  | DeviceError, DeviceError => true
  | _, _ => false
  end.

(** The members [state()] reads; [m_deviceDiscovery] is represented by
    what [isActive()] returns. *)
Record Private := {
  m_error : Error;
  m_deviceDiscovery_isActive : bool;
  m_central : option RobotService.Central;
  m_robotService : RobotService.Private
}.

Definition state (d : Private) : State :=
  if negb (Error_eqb (m_error d) NoError) then ErrorState
  else if RobotService.State_eqb (RobotService.state (m_robotService d))
                                 RobotService.ConnectedState
       then ConnectedState
  else match m_central d with
       | Some _ => ServiceDiscoveryState
       | None =>
           if m_deviceDiscovery_isActive d then DeviceDiscoveryState
           else UninitializedState
       end.

(** The members as their initialisers leave them. *)
Definition initial : Private := {|
  m_error := NoError;
  m_deviceDiscovery_isActive := false;
  m_central := None;
  m_robotService := RobotService.initial
|}.

Definition with_error (e : Error) (d : Private) : Private :=
  {| m_error := e; m_deviceDiscovery_isActive := m_deviceDiscovery_isActive d;
     m_central := m_central d; m_robotService := m_robotService d |}.

(** *** The members [state()] does not read, and the handlers *)

Definition State_eqb (a b : State) : bool :=
  match a, b with
  | UninitializedState, UninitializedState
  | DeviceDiscoveryState, DeviceDiscoveryState
  | ServiceDiscoveryState, ServiceDiscoveryState
  | ConnectingState, ConnectingState
  | ConnectedState, ConnectedState
  | ErrorState, ErrorState => true
  | _, _ => false
  end.

(** [QBluetoothLocalDevice::HostMode] *)
Inductive HostMode :=
| HostPoweredOff | HostConnectable | HostDiscoverable | HostDiscoverableLimitedInquiry.

(** All the members of [Controller::Private]: those [state()] reads, as
    the record [Private] above, and the others. A device address is a
    number. *)
Record Members := {
  read_by_state : Private;
  m_errorString : string;
  m_oldState : State;
  m_knownDevices : list Z
}.

Definition members_initial : Members := {|
  read_by_state := initial;
  m_errorString := "";
  m_oldState := UninitializedState;
  m_knownDevices := []
|}.

Definition with_central (c : option RobotService.Central) (d : Private) : Private :=
  {| m_error := m_error d; m_deviceDiscovery_isActive := m_deviceDiscovery_isActive d;
     m_central := c; m_robotService := m_robotService d |}.

Definition with_isActive (b : bool) (d : Private) : Private :=
  {| m_error := m_error d; m_deviceDiscovery_isActive := b;
     m_central := m_central d; m_robotService := m_robotService d |}.

Definition with_robotService (r : RobotService.Private) (d : Private) : Private :=
  {| m_error := m_error d; m_deviceDiscovery_isActive := m_deviceDiscovery_isActive d;
     m_central := m_central d; m_robotService := r |}.

Definition update_read (f : Private -> Private) (o : Members) : Members :=
  {| read_by_state := f (read_by_state o); m_errorString := m_errorString o;
     m_oldState := m_oldState o; m_knownDevices := m_knownDevices o |}.

Definition with_errorString (v : string) (o : Members) : Members :=
  {| read_by_state := read_by_state o; m_errorString := v;
     m_oldState := m_oldState o; m_knownDevices := m_knownDevices o |}.

Definition with_oldState (v : State) (o : Members) : Members :=
  {| read_by_state := read_by_state o; m_errorString := m_errorString o;
     m_oldState := v; m_knownDevices := m_knownDevices o |}.

Definition with_knownDevices (v : list Z) (o : Members) : Members :=
  {| read_by_state := read_by_state o; m_errorString := m_errorString o;
     m_oldState := m_oldState o; m_knownDevices := v |}.

(** The signals of [Controller], the requests to the adapter, to the
    discovery agent and to the central, and what the robot session owned
    by the controller emits. *)
Inductive Effect :=
| errorOccured (error : Error) (errorString : string)
| stateChanged (newState oldState : State)
| powerOn
| discoveryStart
| discoveryStop
| connectToDevice
| discoverServices
| centralDisconnect
| centralDeleteLater
| robot (e : RobotService.Effect).

Definition C (A : Type) : Type := Members -> A * Members * list Effect.

Definition ret {A} (a : A) : C A := fun o => (a, o, []).

Definition bind {A B} (m : C A) (k : A -> C B) : C B :=
  fun o =>
    let '(a, o1, e1) := m o in
    let '(b, o2, e2) := k a o1 in
    (b, o2, e1 ++ e2).

Definition get : C Members := fun o => (o, o, []).
Definition modify (f : Members -> Members) : C unit := fun o => (tt, f o, []).
Definition emit (e : Effect) : C unit := fun o => (tt, o, [e]).

Notation "x <- m ;; k" := (bind m (fun x => k))
  (at level 61, m at next level, right associativity).
Notation "m ;; k" := (bind m (fun _ => k))
  (at level 61, right associativity).

Definition members_after {A} (r : A * Members * list Effect) : Members := snd (fst r).
Definition effects_of {A} (r : A * Members * list Effect) : list Effect := snd r.

Definition checkState : C unit :=
  o <- get ;;
  let newState := state (read_by_state o) in
  if negb (State_eqb (m_oldState o) newState)
  then emit (stateChanged newState (m_oldState o)) ;;
       modify (with_oldState newState)
  else ret tt.

(** [StateGuard]: [checkState()] runs when the scope is left. *)
Definition guarded {A} (body : C A) : C A :=
  a <- body ;;
  checkState ;;
  ret a.

Definition raiseError (error : Error) (errorString : string) : C unit :=
  guarded
    (modify (update_read (with_error error)) ;;
     modify (with_errorString errorString) ;;
     emit (errorOccured error errorString)).

Definition resetCentral : C unit :=
  guarded
    (o <- get ;;
     match m_central (read_by_state o) with
     | Some _ =>
         modify (update_read (with_central None)) ;;
         emit centralDisconnect ;;
         emit centralDeleteLater
     | None => ret tt
     end).

(** [onDeviceDiscovered]: [central] is the controller [createCentral]
    makes for the device. [stop()] leaves the discovery agent inactive. *)
Definition onDeviceDiscovered (address : Z) (name : string)
    (central : RobotService.Central) : C unit :=
  o <- get ;;
  if existsb (Z.eqb address) (m_knownDevices o) then ret tt
  else
    modify (with_knownDevices (m_knownDevices o ++ [address])) ;;
    if String.eqb name "Evolution-Robot"
       && match m_central (read_by_state o) with Some _ => false | None => true end
    then
      guarded
        (emit discoveryStop ;;
         modify (update_read (with_isActive false)) ;;
         modify (update_read (with_central (Some central))) ;;
         emit connectToDevice)
    else ret tt.

(** [onHostStateChanged]: [start()] leaves the discovery agent active. *)
Definition onHostStateChanged (mode : HostMode) : C unit :=
  guarded
    (match mode with
     | HostPoweredOff => emit powerOn
     | _ =>
         emit discoveryStart ;;
         modify (update_read (with_isActive true))
     end).

(** [errorString] is the text the handler builds from the error of the
    discovery agent. *)
Definition onDeviceDiscoveryError (errorString : string) : C unit :=
  raiseError DeviceDiscoveryError errorString.

Definition onDeviceDiscoveryFinished : C unit := guarded (ret tt).

(** The handlers of the signals of the central dereference [m_central];
    [None] stands for the dereference of [nullptr]. *)
Definition onDeviceConnected (o : Members) : option (Members * list Effect) :=
  match m_central (read_by_state o) with
  | Some _ =>
      let r := guarded (emit discoverServices) o in
      Some (members_after r, effects_of r)
  | None => None
  end.

Definition onDeviceError (errorString : string) (o : Members)
  : option (Members * list Effect) :=
  match m_central (read_by_state o) with
  | Some _ =>
      let r := (raiseError DeviceError errorString ;; resetCentral) o in
      Some (members_after r, effects_of r)
  | None => None
  end.

(** [state()] as it evaluates while the robot session emits
    [stateChanged]: the state of the session is then the new state the
    signal carries. *)
Definition state_when (robotState : RobotService.State) (d : Private) : State :=
  if negb (Error_eqb (m_error d) NoError) then ErrorState
  else if RobotService.State_eqb robotState RobotService.ConnectedState
       then ConnectedState
  else match m_central d with
       | Some _ => ServiceDiscoveryState
       | None =>
           if m_deviceDiscovery_isActive d then DeviceDiscoveryState
           else UninitializedState
       end.

Definition checkState_when (robotState : RobotService.State) : C unit :=
  o <- get ;;
  let newState := state_when robotState (read_by_state o) in
  if negb (State_eqb (m_oldState o) newState)
  then emit (stateChanged newState (m_oldState o)) ;;
       modify (with_oldState newState)
  else ret tt.

(** What the robot session emits reaches the outside as it is; its
    [stateChanged] is connected to [checkState()], which runs while the
    signal is emitted. *)
Fixpoint relay (out : list RobotService.Effect) : C unit :=
  match out with
  | [] => ret tt
  | e :: rest =>
      emit (robot e) ;;
      match e with
      | RobotService.stateChanged newState _ => checkState_when newState
      | _ => ret tt
      end ;;
      relay rest
  end.

Definition onServiceDiscoveryFinished (o : Members) : option (Members * list Effect) :=
  match m_central (read_by_state o) with
  | Some central =>
      match RobotService.attach central (m_robotService (read_by_state o)) with
      | Some (attached, session, out) =>
          let r := guarded
                     (modify (update_read (with_robotService session)) ;;
                      relay out ;;
                      if negb attached then resetCentral else ret tt) o in
          Some (members_after r, effects_of r)
      | None => None
      end
  | None => None
  end.

(** [Private(Controller *q)]: the constructor body, on the members as
    initialised; [adapter] is [m_localDevice.isValid()] and [mode] is
    [m_localDevice.hostMode()]. *)
Definition construct (adapter : bool) (mode : HostMode) : Members * list Effect :=
  let r := (if negb adapter
            then raiseError BluetoothMissingError "No Bluetooth controller available"
            else onHostStateChanged mode) members_initial in
  (members_after r, effects_of r).

(** The signals that reach the controller, and an event of the robot
    session it owns. *)
Inductive Event :=
| EvDeviceDiscovered (address : Z) (name : string) (central : RobotService.Central)
| EvHostStateChanged (mode : HostMode)
| EvDeviceDiscoveryError (errorString : string)
| EvDeviceDiscoveryFinished
| EvDeviceConnected
| EvDeviceError (errorString : string)
| EvServiceDiscoveryFinished
| EvRobot (e : RobotService.Event).

Definition done (r : unit * Members * list Effect) : option (Members * list Effect) :=
  Some (members_after r, effects_of r).

(** One event handled. The discovery agent is not active when it
    reports that it has finished. [None]: the handler dereferences
    [nullptr], or the event of the robot session cannot occur. *)
Definition step `{Platform} (o : Members) (e : Event) : option (Members * list Effect) :=
  match e with
  | EvDeviceDiscovered address name central =>
      done (onDeviceDiscovered address name central o)
  | EvHostStateChanged mode => done (onHostStateChanged mode o)
  | EvDeviceDiscoveryError errorString => done (onDeviceDiscoveryError errorString o)
  | EvDeviceDiscoveryFinished =>
      done (onDeviceDiscoveryFinished (update_read (with_isActive false) o))
  | EvDeviceConnected => onDeviceConnected o
  | EvDeviceError errorString => onDeviceError errorString o
  | EvServiceDiscoveryFinished => onServiceDiscoveryFinished o
  | EvRobot e' =>
      match RobotService.step (m_robotService (read_by_state o)) e' with
      | Some (session, out) =>
          done ((modify (update_read (with_robotService session)) ;; relay out) o)
      | None => None
      end
  end.

Fixpoint run `{Platform} (o : Members) (events : list Event)
  : option (Members * list Effect) :=
  match events with
  | [] => Some (o, [])
  | e :: rest =>
      match step o e with
      | Some (o1, e1) =>
          match run o1 rest with
          | Some (o2, e2) => Some (o2, e1 ++ e2)
          | None => None
          end
      | None => None
      end
  end.

(** The [stateChanged] signals of the controller among the effects. *)
Fixpoint state_events (out : list Effect) : list (State * State) :=
  match out with
  | [] => []
  | stateChanged n o :: r => (n, o) :: state_events r
  | _ :: r => state_events r
  end.

(** The [errorOccured] signals among the effects. *)
Fixpoint error_events (out : list Effect) : list Error :=
  match out with
  | [] => []
  | errorOccured e _ :: r => e :: error_events r
  | _ :: r => error_events r
  end.

(** A chain of state announcements, as for the robot session. *)
Fixpoint announces (from : State) (l : list (State * State)) (to : State) : Prop :=
  match l with
  | [] => from = to
  | (n, o) :: r => o = from /\ n <> o /\ announces n r to
  end.

(** A call keeps [I] and emits only effects that satisfy [Q]. *)
Definition keeps {A} (I : Members -> Prop) (Q : Effect -> Prop) (m : C A) : Prop :=
  forall o, I o -> I (members_after (m o)) /\ Forall Q (effects_of (m o)).

(** The state announcements of a call lead from the state last
    announced before it to the state last announced after it. *)
Definition chains {A} (o : Members) (r : A * Members * list Effect) : Prop :=
  announces (m_oldState o) (state_events (effects_of r)) (m_oldState (members_after r)).

(** An error is recorded and Error is the state last announced. *)
Definition in_error (o : Members) : Prop :=
  m_error (read_by_state o) <> NoError /\ m_oldState o = ErrorState.

Definition not_stateChanged (e : Effect) : Prop :=
  match e with stateChanged _ _ => False | _ => True end.

Definition not_to_Connecting (e : Effect) : Prop :=
  match e with stateChanged n _ => n <> ConnectingState | _ => True end.

(** A peripheral that is the robot, and one that is not. *)
Definition evobot : Event := EvDeviceDiscovered 1 "Evolution-Robot" RobotService.robot_central.
Definition headset : Event := EvDeviceDiscovered 2 "Headset" RobotService.robot_central.

(** The controller of a powered adapter, scanning; the same once it has
    found the robot; and the events of a clean run up to Connected. *)
Definition scanning : Members :=
  Eval vm_compute in fst (construct true HostConnectable).

Definition found : Members :=
  Eval vm_compute in
    match @run signed_char scanning [evobot] with
    | Some (o, _) => o
    | None => scanning
    end.

Definition clean_run : list Event :=
  [evobot; EvDeviceConnected; EvServiceDiscoveryFinished;
   EvRobot (RobotService.EvServiceStateChanged RobotService.robot_deviceInformation
              RobotService.ServiceDiscovered);
   EvRobot (RobotService.EvServiceStateChanged RobotService.robot_robotControl
              RobotService.ServiceDiscovered)].

End Controller.

(** * Properties *)

(** ** Scalars and byte arrays *)

Lemma to_char_range (z : Z) : 0 <= to_char z < 256.
Proof. unfold to_char. apply Z.mod_pos_bound. lia. Qed.

Lemma to_char_small (z : Z) : 0 <= z < 256 -> to_char z = z.
Proof. intros Hz. unfold to_char. apply Z.mod_small. exact Hz. Qed.

Lemma to_int_small (z : Z) : int_min <= z <= int_max -> to_int z = z.
Proof.
  unfold int_min, int_max, to_int. intros Hz.
  rewrite Z.mod_small by lia. lia.
Qed.


Lemma qBound_clamp (x lo hi : Z) : lo <= hi -> qBound lo x hi = clamp x lo hi.
Proof.
  intros Hle. unfold qBound, qMax, qMin, clamp.
  destruct (Z.ltb_spec hi x); destruct (Z.ltb_spec lo hi);
    destruct (Z.ltb_spec lo x); lia.
Qed.


Lemma char_value_qMin_char `{Platform} (a b : Z) :
  char_value (qMin_char a b) = qMin (char_value a) (char_value b).
Proof. unfold qMin_char, qMin. destruct (char_value a <? char_value b); reflexivity. Qed.

Lemma char_value_qMax_char `{Platform} (a b : Z) :
  char_value (qMax_char a b) = qMax (char_value a) (char_value b).
Proof. unfold qMax_char, qMax. destruct (char_value a <? char_value b); reflexivity. Qed.

(** [qBound<char>] bounds the values of its converted arguments. *)
Lemma char_value_qBound_char `{Platform} (lo v hi : Z) :
  char_value (qBound_char lo v hi)
  = qBound (char_value (to_char lo)) (char_value (to_char v)) (char_value (to_char hi)).
Proof.
  unfold qBound_char, qBound.
  rewrite char_value_qMax_char, char_value_qMin_char. reflexivity.
Qed.

Lemma char_value_small `{Platform} (b : Z) : 0 <= b <= 127 -> char_value b = b.
Proof.
  intros Hb. unfold char_value.
  destruct (Z.leb_spec 128 b); [lia|]. rewrite andb_false_r. reflexivity.
Qed.

(** A [char] holds every index of [0 .. 127], whatever its signedness. *)
Lemma char_of_small_index `{Platform} (index : Z) :
  0 <= index <= 127 -> char_value (to_char index) = index.
Proof.
  intros Hi. rewrite to_char_small by lia. apply char_value_small. exact Hi.
Qed.

(** Where [char] is signed it also holds the negative indices down to -128. *)
Lemma char_of_signed_index (index : Z) :
  -128 <= index <= 127 -> @char_value signed_char (to_char index) = index.
Proof.
  intros Hi. destruct (Z.ltb_spec index 0) as [Hneg|Hpos].
  - assert (Hm : to_char index = index + 256).
    { unfold to_char. symmetry. apply (Z.mod_unique_pos index 256 (-1) (index + 256)); lia. }
    rewrite Hm. unfold char_value. simpl.
    destruct (Z.leb_spec 128 (index + 256)); lia.
  - apply char_of_small_index. lia.
Qed.

Lemma qBound_char_small `{Platform} (index : Z) :
  0 <= index <= 127 -> char_value (qBound_char 0 index 3) = clamp index 0 3.
Proof.
  intros Hi. rewrite char_value_qBound_char.
  rewrite !char_of_small_index by lia. apply qBound_clamp. lia.
Qed.

Lemma qBound_char_signed (index : Z) :
  -128 <= index <= 127 ->
  @char_value signed_char (@qBound_char signed_char 0 index 3) = clamp index 0 3.
Proof.
  intros Hi. rewrite char_value_qBound_char.
  rewrite !char_of_signed_index by lia. apply qBound_clamp. lia.
Qed.

Lemma length_update_nth (n : nat) (v : Z) (m : list Z) :
  List.length (update_nth n v m) = List.length m.
Proof.
  revert n. induction m as [|x r IH]; intros [|k]; simpl; auto.
Qed.

Lemma length_set_byte_at (m : list Z) (i v : Z) :
  List.length (set_byte_at m i v) = List.length m.
Proof. apply length_update_nth. Qed.

Lemma nth_update_nth_same (n : nat) (v : Z) (m : list Z) :
  (n < List.length m)%nat -> nth n (update_nth n v m) 0 = v.
Proof.
  revert n. induction m as [|x r IH]; intros [|k] Hn; simpl in *; try lia; auto.
  apply IH. lia.
Qed.

Lemma nth_update_nth_other (n k : nat) (v : Z) (m : list Z) :
  n <> k -> nth k (update_nth n v m) 0 = nth k m 0.
Proof.
  revert n k. induction m as [|x r IH]; intros [|n] [|k] Hne; simpl; auto.
  - contradiction.
Qed.

Lemma byte_at_set_same (m : list Z) (i v : Z) :
  0 <= i < Z.of_nat (List.length m) -> byte_at (set_byte_at m i v) i = v.
Proof.
  intros Hi. unfold byte_at, set_byte_at. apply nth_update_nth_same. lia.
Qed.

Lemma byte_at_set_other (m : list Z) (i j v : Z) :
  0 <= i -> 0 <= j -> i <> j -> byte_at (set_byte_at m i v) j = byte_at m j.
Proof.
  intros Hi Hj Hne. unfold byte_at, set_byte_at. apply nth_update_nth_other. lia.
Qed.

Lemma bytes_eqb_refl (m : list Z) : bytes_eqb m m = true.
Proof. induction m as [|x r IH]; simpl; [reflexivity|]. rewrite Z.eqb_refl. exact IH. Qed.

Lemma bytes_eqb_eq (a b : list Z) : bytes_eqb a b = true -> a = b.
Proof.
  revert b. induction a as [|x a IH]; intros [|y b] Hab; simpl in Hab; try discriminate; auto.
  apply andb_true_iff in Hab. destruct Hab as [Hxy Hr].
  apply Z.eqb_eq in Hxy. subst y. f_equal. apply IH. exact Hr.
Qed.

(** ** The message codec *)

Import RobotService.

Section Codec.
Context {P : Platform}.

Lemma locomotion_fragment (d : Private) (action : ascii) (index base : Z) :
  locomotion_base action = Some base ->
  fragmentForAction d action index
  = {| offset := 1; value := to_char (char_value (qBound_char 0 index 3) + base) |}.
Proof.
  unfold locomotion_base, fragmentForAction. intros Hb.
  destruct (Ascii.eqb action "F"); [injection Hb as <-; reflexivity|].
  destruct (Ascii.eqb action "B"); [injection Hb as <-; reflexivity|].
  destruct (Ascii.eqb action "L"); [injection Hb as <-; reflexivity|].
  destruct (Ascii.eqb action "R"); [injection Hb as <-; reflexivity|].
  discriminate.
Qed.

Lemma locomotion_base_range (action : ascii) (base : Z) :
  locomotion_base action = Some base -> 1 <= base <= 13.
Proof.
  unfold locomotion_base. intros Hb.
  destruct (Ascii.eqb action "F"); [injection Hb as <-; lia|].
  destruct (Ascii.eqb action "B"); [injection Hb as <-; lia|].
  destruct (Ascii.eqb action "L"); [injection Hb as <-; lia|].
  destruct (Ascii.eqb action "R"); [injection Hb as <-; lia|].
  discriminate.
Qed.

Lemma clamp_range (x lo hi : Z) : lo <= hi -> lo <= clamp x lo hi <= hi.
Proof. unfold clamp. lia. Qed.

(** For the indices a [char] holds on every platform the locomotion
    fragment is the clamp of the index plus the base of the direction. *)
Lemma locomotion_fragment_small_index (d : Private) (action : ascii) (index base : Z) :
  locomotion_base action = Some base ->
  0 <= index <= 127 ->
  fragmentForAction d action index = {| offset := 1; value := clamp index 0 3 + base |}.
Proof.
  intros Hb Hi. rewrite (locomotion_fragment d action index base Hb).
  rewrite qBound_char_small by exact Hi.
  pose proof (locomotion_base_range action base Hb).
  pose proof (clamp_range index 0 3 ltac:(lia)).
  rewrite to_char_small by lia. reflexivity.
Qed.

(** The bands of the four directions are [1..4], [5..8], [9..12] and
    [13..16]: two directions never share a value. *)
Lemma locomotion_bands_disjoint (d : Private) (a1 a2 : ascii) (i1 i2 b1 b2 : Z) :
  locomotion_base a1 = Some b1 ->
  locomotion_base a2 = Some b2 ->
  b1 <> b2 ->
  value (fragmentForAction d a1 i1) <> value (fragmentForAction d a2 i2).
Proof.
  intros H1 H2 Hne.
  rewrite (locomotion_fragment d a1 i1 b1 H1), (locomotion_fragment d a2 i2 b2 H2).
  simpl. rewrite !char_value_qBound_char.
  assert (Hc0 : char_value (to_char 0) = 0) by (apply char_of_small_index; lia).
  assert (Hc3 : char_value (to_char 3) = 3) by (apply char_of_small_index; lia).
  rewrite Hc0, Hc3. rewrite !qBound_clamp by lia.
  pose proof (clamp_range (char_value (to_char i1)) 0 3 ltac:(lia)).
  pose proof (clamp_range (char_value (to_char i2)) 0 3 ltac:(lia)).
  pose proof (locomotion_base_range a1 b1 H1).
  pose proof (locomotion_base_range a2 b2 H2).
  rewrite (to_char_small (clamp (char_value (to_char i1)) 0 3 + b1)) by lia.
  rewrite (to_char_small (clamp (char_value (to_char i2)) 0 3 + b2)) by lia.
  assert (Hb : forall a b, locomotion_base a = Some b -> b = 1 \/ b = 5 \/ b = 9 \/ b = 13).
  { intros a b. unfold locomotion_base.
    destruct (Ascii.eqb a "F"); [intros [= <-]; auto|].
    destruct (Ascii.eqb a "B"); [intros [= <-]; auto|].
    destruct (Ascii.eqb a "L"); [intros [= <-]; auto|].
    destruct (Ascii.eqb a "R"); [intros [= <-]; auto 6|].
    discriminate. }
  destruct (Hb a1 b1 H1) as [?|[?|[?|?]]]; destruct (Hb a2 b2 H2) as [?|[?|[?|?]]]; lia.
Qed.

(** C3, at the failing input: an index is converted to [char] before it
    is clamped, so index 256 becomes 0 and the four locomotion fragments
    carry the lowest value of their band (1, 5, 9, 13), where the clamp of
    256 to [0 .. 3] plus the base is 4, 8, 12, 16. *)
Theorem locomotion_index_256_wraps_to_zero (d : Private) :
  fragmentForAction d "F" 256 = {| offset := 1; value := 1 |}
  /\ fragmentForAction d "B" 256 = {| offset := 1; value := 5 |}
  /\ fragmentForAction d "L" 256 = {| offset := 1; value := 9 |}
  /\ fragmentForAction d "R" 256 = {| offset := 1; value := 13 |}
  /\ clamp 256 0 3 + 1 = 4.
Proof.
  destruct P as [[|]]; repeat split; reflexivity.
Qed.

Lemma extension_value_fits (index base : Z) :
  base = 0x35 \/ base = 0x47 -> 0 <= clamp index 1 63 + base < 256.
Proof. unfold clamp. intros [-> | ->]; lia. Qed.

(** C4, amended: the extension action is at offset 5; a nonzero index
    gives clamp(index, 1, 63) + 0x35 on firmware revision 1 and
    clamp(index, 1, 63) + 0x47 on any other revision (2 or unknown);
    index 0 gives the value 0x3b. *)
Theorem extension_fragment (d : Private) (index : Z) :
  offset (fragmentForAction d "E" index) = 5
  /\ (index <> 0 -> m_firmwareRevision d = 1 ->
      value (fragmentForAction d "E" index) = clamp index 1 63 + 0x35)
  /\ (index <> 0 -> m_firmwareRevision d <> 1 ->
      value (fragmentForAction d "E" index) = clamp index 1 63 + 0x47)
  /\ (index = 0 -> value (fragmentForAction d "E" index) = 0x3b).
Proof.
  change (fragmentForAction d "E" index)
    with {| offset := 5;
            value := to_char (if index =? 0 then 0x3b
                              else qBound 1 index 63
                                   + (if m_firmwareRevision d =? 1 then 0x35 else 0x47)) |}.
  simpl offset. simpl value. repeat split.
  - intros Hi Hr. destruct (Z.eqb_spec index 0); [contradiction|].
    rewrite Hr. simpl (1 =? 1). cbv iota. rewrite qBound_clamp by lia.
    apply to_char_small. apply extension_value_fits. auto.
  - intros Hi Hr. destruct (Z.eqb_spec index 0); [contradiction|].
    destruct (Z.eqb_spec (m_firmwareRevision d) 1); [contradiction|].
    rewrite qBound_clamp by lia.
    apply to_char_small. apply extension_value_fits. auto.
  - intros ->. reflexivity.
Qed.

End Codec.

(** C4, as stated, fails at index 0: the value is 0x3b, not 0. *)
Lemma extension_index_0_is_not_0 :
  value (@fragmentForAction signed_char initial "E" 0) = 0x3b
  /\ value (@fragmentForAction unsigned_char initial "E" 0) = 0x3b
  /\ value (@fragmentForAction signed_char initial "E" 0) <> 0.
Proof. repeat split. discriminate. Qed.

(** The extension fragment for index 10 on both revisions, and for index 0. *)
Lemma extension_fragment_witness :
  value (@fragmentForAction signed_char (with_firmwareRevision 1 initial) "E" 10) = 10 + 0x35
  /\ value (@fragmentForAction signed_char initial "E" 10) = 10 + 0x47
  /\ value (@fragmentForAction signed_char initial "E" 0) = 0x3b.
Proof.
  split; [|split].
  - apply (proj1 (proj2 (@extension_fragment signed_char (with_firmwareRevision 1 initial) 10)));
      [discriminate | reflexivity].
  - apply (proj1 (proj2 (proj2 (@extension_fragment signed_char initial 10))));
      discriminate.
  - apply (proj2 (proj2 (proj2 (@extension_fragment signed_char initial 0)))).
    reflexivity.
Defined.

(** ** The member functions, one equation each *)

Section Equations.
Context {P : Platform}.

Lemma bind_eq {A B} (m : M A) (k : A -> M B) (d : Private) :
  bind m k d
  = (result (k (result (m d)) (after (m d))),
     after (k (result (m d)) (after (m d))),
     emitted (m d) ++ emitted (k (result (m d)) (after (m d)))).
Proof.
  unfold bind, result, after, emitted.
  destruct (m d) as [[a d1] o1]. simpl.
  destruct (k a d1) as [[b d2] o2]. reflexivity.
Qed.

Lemma get_bind {B} (k : Private -> M B) (d : Private) : bind get k d = k d d.
Proof. unfold bind, get. destruct (k d d) as [[b d2] o2]. reflexivity. Qed.

Lemma modify_bind {B} (f : Private -> Private) (k : unit -> M B) (d : Private) :
  bind (modify f) k d = k tt (f d).
Proof. unfold bind, modify. destruct (k tt (f d)) as [[b d2] o2]. reflexivity. Qed.

Lemma emit_bind {B} (e : Effect) (k : unit -> M B) (d : Private) :
  bind (emit e) k d = (result (k tt d), after (k tt d), e :: emitted (k tt d)).
Proof. unfold bind, emit. destruct (k tt d) as [[b d2] o2]. reflexivity. Qed.

Lemma ret_bind {A B} (a : A) (k : A -> M B) (d : Private) : bind (ret a) k d = k a d.
Proof. unfold bind, ret. destruct (k a d) as [[b d2] o2]. reflexivity. Qed.

Lemma bind_ret {A B} (m : M A) (b : B) (d : Private) :
  bind m (fun _ => ret b) d = (b, after (m d), emitted (m d)).
Proof.
  unfold bind, ret. destruct (m d) as [[a d1] o1]. simpl.
  rewrite app_nil_r. reflexivity.
Qed.

Lemma result_tuple {A} (a : A) (d : Private) (o : list Effect) : result (a, d, o) = a.
Proof. reflexivity. Qed.

Lemma after_tuple {A} (a : A) (d : Private) (o : list Effect) : after (a, d, o) = d.
Proof. reflexivity. Qed.

Lemma emitted_tuple {A} (a : A) (d : Private) (o : list Effect) : emitted (a, d, o) = o.
Proof. reflexivity. Qed.

Lemma unit_result (r : unit * Private * list Effect) : r = (tt, after r, emitted r).
Proof. destruct r as [[[] d1] o1]. reflexivity. Qed.

Lemma transmitMessage_eq (d : Private) :
  transmitMessage d
  = match m_robotControl d with
    | Some rc =>
        (tt, with_pendingMessageCount (to_int (m_pendingMessageCount d + 1)) d,
         [writeCharacteristic (service_object rc) (m_writeCharacteristic d) (m_message d)])
    | None => (tt, d, [])
    end.
Proof.
  unfold transmitMessage. rewrite get_bind.
  destruct (m_robotControl d); [|reflexivity].
  rewrite modify_bind. reflexivity.
Qed.

Lemma setCurrentMessage_eq (o v : Z) (d : Private) :
  setCurrentMessage o v d
  = if (0 <=? o) && (o <? Z.of_nat (List.length (m_message d)))
       && negb (byte_at (m_message d) o =? v)
    then (tt,
          after (transmitMessage (with_message (set_byte_at (m_message d) o v) d)),
          currentMessageChanged (set_byte_at (m_message d) o v)
          :: emitted (transmitMessage (with_message (set_byte_at (m_message d) o v) d)))
    else (tt, d, []).
Proof.
  unfold setCurrentMessage. rewrite get_bind.
  destruct ((0 <=? o) && (o <? Z.of_nat (List.length (m_message d)))
            && negb (byte_at (m_message d) o =? v)); [|reflexivity].
  rewrite modify_bind, emit_bind.
  destruct (result (transmitMessage _)). reflexivity.
Qed.

Lemma setCurrentMessage_bytes_eq (message : list Z) (d : Private) :
  setCurrentMessage_bytes message d
  = if negb (bytes_eqb message (m_message d))
       && Nat.eqb (List.length message) (List.length (m_message d))
    then (tt,
          after (transmitMessage (with_message message d)),
          currentMessageChanged message
          :: emitted (transmitMessage (with_message message d)))
    else (tt, d, []).
Proof.
  unfold setCurrentMessage_bytes. rewrite get_bind.
  destruct (negb (bytes_eqb message (m_message d))
            && Nat.eqb (List.length message) (List.length (m_message d))); [|reflexivity].
  rewrite modify_bind, emit_bind.
  destruct (result (transmitMessage _)). reflexivity.
Qed.

Lemma startAction_eq (action : ascii) (index : Z) (d : Private) :
  startAction action index d
  = if Ascii.eqb action "S" then
      (true, after (setCurrentMessage_bytes s_pauseMessage d),
       emitted (setCurrentMessage_bytes s_pauseMessage d))
    else
      let f := fragmentForAction d action index in
      if fragment_valid f then
        let d1 := if offset f =? 4 then with_audioLoop (Ascii.eqb action "M") d else d in
        (true, after (setCurrentMessage (offset f) (value f) d1),
         emitted (setCurrentMessage (offset f) (value f) d1))
      else (false, d, []).
Proof.
  unfold startAction. destruct (Ascii.eqb action "S").
  - apply bind_ret.
  - rewrite get_bind. cbv zeta.
    destruct (fragment_valid (fragmentForAction d action index)); [|reflexivity].
    destruct (offset (fragmentForAction d action index) =? 4).
    + rewrite modify_bind. apply bind_ret.
    + rewrite ret_bind. apply bind_ret.
Qed.

Lemma stopAction_eq (action : ascii) (index : Z) (d : Private) :
  stopAction action index d
  = let f := fragmentForAction d action index in
    if fragment_valid f && (value f =? byte_at (m_message d) (offset f)) then
      (true,
       after (setCurrentMessage (offset f) (byte_at s_pauseMessage (offset f)) d),
       emitted (setCurrentMessage (offset f) (byte_at s_pauseMessage (offset f)) d))
    else (false, d, []).
Proof.
  unfold stopAction. rewrite get_bind. cbv zeta.
  destruct (fragment_valid (fragmentForAction d action index)); [|reflexivity].
  destruct (value (fragmentForAction d action index)
            =? byte_at (m_message d) (offset (fragmentForAction d action index)));
    [|reflexivity].
  apply bind_ret.
Qed.

Lemma onEmitterTimeout_eq (d : Private) :
  onEmitterTimeout d
  = if m_pendingMessageCount d =? 0 then transmitMessage d else (tt, d, []).
Proof.
  unfold onEmitterTimeout. rewrite get_bind.
  destruct (m_pendingMessageCount d =? 0); reflexivity.
Qed.

Lemma onCharacteristicWritten_eq (info : Characteristic) (v : string) (d : Private) :
  onCharacteristicWritten info v d
  = if Characteristic_eqb info (m_writeCharacteristic d)
    then setCurrentMessage 5 0
           (with_pendingMessageCount (to_int (m_pendingMessageCount d - 1)) d)
    else (tt, d, []).
Proof.
  unfold onCharacteristicWritten. rewrite get_bind.
  destruct (Characteristic_eqb info (m_writeCharacteristic d)); [|reflexivity].
  rewrite modify_bind. reflexivity.
Qed.

End Equations.

Create Rewrite HintDb tuple.
#[global] Hint Rewrite @result_tuple @after_tuple @emitted_tuple : tuple.

(** ** The command buffer *)

Section CommandBuffer.
Context {P : Platform}.

Lemma same_link_refl (d : Private) : same_link d d.
Proof. unfold same_link. repeat split. Qed.

Lemma same_link_trans (d1 d2 d3 : Private) :
  same_link d1 d2 -> same_link d2 d3 -> same_link d1 d3.
Proof.
  unfold same_link. intros (A1 & A2 & A3 & A4 & A5 & A6 & A7) (B1 & B2 & B3 & B4 & B5 & B6 & B7).
  repeat split; congruence.
Qed.

Lemma fragment_valid_range (f : MessageFragment) :
  fragment_valid f = true -> 0 <= offset f < 6.
Proof.
  unfold fragment_valid. intros Hf. apply andb_true_iff in Hf. destruct Hf as [Hlo Hhi].
  apply Z.leb_le in Hlo. apply Z.ltb_lt in Hhi. lia.
Qed.

Lemma transmitMessage_same_link (d : Private) : same_link d (after (transmitMessage d)).
Proof.
  rewrite transmitMessage_eq. destruct (m_robotControl d) eqn:Hrc;
    unfold same_link; simpl; repeat split; auto.
Qed.

Lemma transmitMessage_message (d : Private) :
  m_message (after (transmitMessage d)) = m_message d.
Proof. rewrite transmitMessage_eq. destruct (m_robotControl d); reflexivity. Qed.

Lemma transmitMessage_keeps (d : Private) :
  m_currentSound (after (transmitMessage d)) = m_currentSound d
  /\ m_audioLoop (after (transmitMessage d)) = m_audioLoop d.
Proof. rewrite transmitMessage_eq. destruct (m_robotControl d); split; reflexivity. Qed.

Lemma setCurrentMessage_message (o v : Z) (d : Private) :
  m_message (after (setCurrentMessage o v d))
  = if (0 <=? o) && (o <? Z.of_nat (List.length (m_message d)))
       && negb (byte_at (m_message d) o =? v)
    then set_byte_at (m_message d) o v
    else m_message d.
Proof.
  rewrite setCurrentMessage_eq.
  destruct ((0 <=? o) && (o <? Z.of_nat (List.length (m_message d)))
            && negb (byte_at (m_message d) o =? v)); [|reflexivity].
  unfold after at 1. simpl. rewrite transmitMessage_message. reflexivity.
Qed.

(** After [setCurrentMessage(offset, value)] with the offset in range the
    byte at the offset is the value, and the other bytes are as before. *)
Lemma setCurrentMessage_byte (o v : Z) (d : Private) :
  0 <= o < Z.of_nat (List.length (m_message d)) ->
  byte_at (m_message (after (setCurrentMessage o v d))) o = v.
Proof.
  intros Ho. rewrite setCurrentMessage_message.
  destruct (Z.leb_spec 0 o); [|lia].
  destruct (Z.ltb_spec o (Z.of_nat (List.length (m_message d)))); [|lia].
  simpl. destruct (Z.eqb_spec (byte_at (m_message d) o) v); simpl.
  - assumption.
  - apply byte_at_set_same. exact Ho.
Qed.

Lemma setCurrentMessage_other_bytes (o v j : Z) (d : Private) :
  0 <= j -> j <> o ->
  byte_at (m_message (after (setCurrentMessage o v d))) j = byte_at (m_message d) j.
Proof.
  intros Hj Hne. rewrite setCurrentMessage_message.
  destruct ((0 <=? o) && (o <? Z.of_nat (List.length (m_message d)))
            && negb (byte_at (m_message d) o =? v)) eqn:Hc; [|reflexivity].
  apply andb_true_iff in Hc. destruct Hc as [Hc _].
  apply andb_true_iff in Hc. destruct Hc as [Hlo _]. apply Z.leb_le in Hlo.
  apply byte_at_set_other; lia.
Qed.

Lemma setCurrentMessage_same_link (o v : Z) (d : Private) :
  same_link d (after (setCurrentMessage o v d)).
Proof.
  rewrite setCurrentMessage_eq.
  destruct ((0 <=? o) && (o <? Z.of_nat (List.length (m_message d)))
            && negb (byte_at (m_message d) o =? v)); [|apply same_link_refl].
  unfold after at 1. simpl.
  eapply same_link_trans; [|apply transmitMessage_same_link].
  unfold same_link. simpl. rewrite length_set_byte_at. repeat split.
Qed.

Lemma setCurrentMessage_keeps (o v : Z) (d : Private) :
  m_currentSound (after (setCurrentMessage o v d)) = m_currentSound d
  /\ m_audioLoop (after (setCurrentMessage o v d)) = m_audioLoop d.
Proof.
  rewrite setCurrentMessage_eq.
  destruct ((0 <=? o) && (o <? Z.of_nat (List.length (m_message d)))
            && negb (byte_at (m_message d) o =? v)); [|split; reflexivity].
  unfold after at 1 3. simpl.
  destruct (transmitMessage_keeps (with_message (set_byte_at (m_message d) o v) d)) as [-> ->].
  split; reflexivity.
Qed.

Lemma setCurrentMessage_bytes_same_link (message : list Z) (d : Private) :
  same_link d (after (setCurrentMessage_bytes message d)).
Proof.
  rewrite setCurrentMessage_bytes_eq.
  destruct (negb (bytes_eqb message (m_message d))) eqn:Hne; simpl; [|apply same_link_refl].
  destruct (Nat.eqb_spec (List.length message) (List.length (m_message d))) as [Hlen|Hlen];
    [|apply same_link_refl].
  unfold after at 1. simpl.
  eapply same_link_trans; [|apply transmitMessage_same_link].
  unfold same_link. simpl. repeat split. exact Hlen.
Qed.

Lemma setCurrentMessage_bytes_keeps (message : list Z) (d : Private) :
  m_currentSound (after (setCurrentMessage_bytes message d)) = m_currentSound d
  /\ m_audioLoop (after (setCurrentMessage_bytes message d)) = m_audioLoop d.
Proof.
  rewrite setCurrentMessage_bytes_eq.
  destruct (negb (bytes_eqb message (m_message d))
            && Nat.eqb (List.length message) (List.length (m_message d)));
    [|split; reflexivity].
  unfold after at 1 3. simpl.
  destruct (transmitMessage_keeps (with_message message d)) as [-> ->].
  split; reflexivity.
Qed.

Lemma startAction_same_link (action : ascii) (index : Z) (d : Private) :
  same_link d (after (startAction action index d)).
Proof.
  rewrite startAction_eq. destruct (Ascii.eqb action "S").
  - unfold after at 1. simpl. apply setCurrentMessage_bytes_same_link.
  - cbv zeta. destruct (fragment_valid (fragmentForAction d action index));
      [|apply same_link_refl].
    unfold after at 1. simpl.
    eapply same_link_trans; [|apply setCurrentMessage_same_link].
    destruct (offset (fragmentForAction d action index) =? 4);
      unfold same_link; simpl; repeat split.
Qed.


Lemma stopAction_same_link (action : ascii) (index : Z) (d : Private) :
  same_link d (after (stopAction action index d)).
Proof.
  rewrite stopAction_eq. cbv zeta.
  destruct (fragment_valid (fragmentForAction d action index)
            && (value (fragmentForAction d action index)
                =? byte_at (m_message d) (offset (fragmentForAction d action index))));
    [|apply same_link_refl].
  unfold after at 1. simpl. apply setCurrentMessage_same_link.
Qed.

Lemma stopAction_keeps (action : ascii) (index : Z) (d : Private) :
  m_currentSound (after (stopAction action index d)) = m_currentSound d
  /\ m_audioLoop (after (stopAction action index d)) = m_audioLoop d.
Proof.
  rewrite stopAction_eq. cbv zeta.
  destruct (fragment_valid (fragmentForAction d action index)
            && (value (fragmentForAction d action index)
                =? byte_at (m_message d) (offset (fragmentForAction d action index))));
    [|split; reflexivity].
  unfold after at 1 3. simpl. apply setCurrentMessage_keeps.
Qed.

(** [startAction] fails exactly on a symbol that is neither 'S' nor a
    symbol of the codec. *)
Lemma startAction_result (action : ascii) (index : Z) (d : Private) :
  result (startAction action index d)
  = Ascii.eqb action "S" || fragment_valid (fragmentForAction d action index).
Proof.
  rewrite startAction_eq. destruct (Ascii.eqb action "S"); [reflexivity|].
  cbv zeta. destruct (fragment_valid (fragmentForAction d action index)); reflexivity.
Qed.

Lemma stopAction_result (action : ascii) (index : Z) (d : Private) :
  result (stopAction action index d)
  = fragment_valid (fragmentForAction d action index)
    && (value (fragmentForAction d action index)
        =? byte_at (m_message d) (offset (fragmentForAction d action index))).
Proof.
  rewrite stopAction_eq. cbv zeta.
  destruct (fragment_valid (fragmentForAction d action index)
            && (value (fragmentForAction d action index)
                =? byte_at (m_message d) (offset (fragmentForAction d action index))));
    reflexivity.
Qed.

(** A started action is in the buffer: the byte at the offset of its
    fragment holds the value of the fragment. *)
Lemma startAction_byte (action : ascii) (index : Z) (d : Private) :
  well_formed d ->
  fragment_valid (fragmentForAction d action index) = true ->
  Ascii.eqb action "S" = false ->
  byte_at (m_message (after (startAction action index d)))
          (offset (fragmentForAction d action index))
  = value (fragmentForAction d action index).
Proof.
  intros Hwf Hf HS. rewrite startAction_eq, HS. cbv zeta. rewrite Hf.
  unfold after at 1. simpl.
  apply setCurrentMessage_byte.
  pose proof (fragment_valid_range _ Hf) as Hr.
  assert (Hlen : List.length
                   (m_message (if offset (fragmentForAction d action index) =? 4
                               then with_audioLoop (Ascii.eqb action "M") d else d)) = 6%nat).
  { destruct (offset (fragmentForAction d action index) =? 4); exact Hwf. }
  rewrite Hlen. lia.
Qed.

(** Stopping writes the byte of the pause message at the offset. *)
Lemma stopAction_byte (action : ascii) (index : Z) (d : Private) :
  well_formed d ->
  result (stopAction action index d) = true ->
  byte_at (m_message (after (stopAction action index d)))
          (offset (fragmentForAction d action index))
  = byte_at s_pauseMessage (offset (fragmentForAction d action index)).
Proof.
  intros Hwf Hr. rewrite stopAction_result in Hr.
  rewrite stopAction_eq. cbv zeta. rewrite Hr.
  apply andb_true_iff in Hr. destruct Hr as [Hf _].
  unfold after at 1. simpl. apply setCurrentMessage_byte.
  pose proof (fragment_valid_range _ Hf) as Hrange.
  unfold well_formed in Hwf. rewrite Hwf. lia.
Qed.

Lemma stopAction_other_bytes (action : ascii) (index j : Z) (d : Private) :
  0 <= j -> j <> offset (fragmentForAction d action index) ->
  byte_at (m_message (after (stopAction action index d))) j = byte_at (m_message d) j.
Proof.
  intros Hj Hne. rewrite stopAction_eq. cbv zeta.
  destruct (fragment_valid (fragmentForAction d action index)
            && (value (fragmentForAction d action index)
                =? byte_at (m_message d) (offset (fragmentForAction d action index))));
    [|reflexivity].
  unfold after at 1. simpl. apply setCurrentMessage_other_bytes; assumption.
Qed.

Lemma well_formed_same_link (d d' : Private) :
  same_link d d' -> well_formed d -> well_formed d'.
Proof. unfold same_link, well_formed. intros (_ & _ & _ & _ & _ & _ & Hlen). congruence. Qed.

(** C5: for a supported action, [stopAction] succeeds if and only if the
    byte at the offset of the fragment holds the value of the fragment;
    on success that byte becomes the byte of the pause message and no
    other byte changes. In particular, after [startAction('F', 2)] byte 1
    is 3, [stopAction('F', 2)] succeeds and restores byte 1 to the pause
    byte, and a second [stopAction('F', 2)] fails and changes nothing. *)
Theorem stopAction_only_stops_active_action (d : Private) (action : ascii) (index : Z) :
  well_formed d ->
  fragment_valid (fragmentForAction d action index) = true ->
  (result (stopAction action index d) = true
   <-> byte_at (m_message d) (offset (fragmentForAction d action index))
       = value (fragmentForAction d action index))
  /\ (result (stopAction action index d) = true ->
      byte_at (m_message (after (stopAction action index d)))
              (offset (fragmentForAction d action index))
      = byte_at s_pauseMessage (offset (fragmentForAction d action index))
      /\ forall j, 0 <= j -> j <> offset (fragmentForAction d action index) ->
           byte_at (m_message (after (stopAction action index d))) j
           = byte_at (m_message d) j)
  /\ (let started := after (startAction "F" 2 d) in
      let stopped := after (stopAction "F" 2 started) in
      result (startAction "F" 2 d) = true
      /\ byte_at (m_message started) 1 = 3
      /\ result (stopAction "F" 2 started) = true
      /\ byte_at (m_message stopped) 1 = byte_at s_pauseMessage 1
      /\ result (stopAction "F" 2 stopped) = false
      /\ after (stopAction "F" 2 stopped) = stopped).
Proof.
  intros Hwf Hf. split; [|split].
  - rewrite stopAction_result, Hf. simpl. rewrite Z.eqb_eq. split; intros; congruence.
  - intros Hr. split.
    + apply stopAction_byte; assumption.
    + intros j Hj Hne. apply stopAction_other_bytes; assumption.
  - cbv zeta.
    assert (HF : forall d0, fragmentForAction d0 "F" 2 = {| offset := 1; value := 3 |}).
    { intros d0. apply (locomotion_fragment_small_index d0 "F" 2 1); [reflexivity|lia]. }
    assert (Hwf1 : well_formed (after (startAction "F" 2 d))).
    { eapply well_formed_same_link; [apply startAction_same_link|exact Hwf]. }
    assert (Hb1 : byte_at (m_message (after (startAction "F" 2 d))) 1 = 3).
    { pose proof (startAction_byte "F" 2 d Hwf) as Hb. rewrite (HF d) in Hb.
      apply Hb; reflexivity. }
    assert (Hr2 : result (stopAction "F" 2 (after (startAction "F" 2 d))) = true).
    { rewrite stopAction_result, HF. simpl offset. simpl value. rewrite Hb1. reflexivity. }
    assert (Hb2 : byte_at (m_message (after (stopAction "F" 2 (after (startAction "F" 2 d))))) 1
                  = byte_at s_pauseMessage 1).
    { pose proof (stopAction_byte "F" 2 _ Hwf1 Hr2) as Hb. rewrite HF in Hb. exact Hb. }
    assert (Hr3 : result (stopAction "F" 2
                            (after (stopAction "F" 2 (after (startAction "F" 2 d))))) = false).
    { rewrite stopAction_result, HF. simpl offset. simpl value. rewrite Hb2. reflexivity. }
    repeat split.
    + rewrite startAction_result, HF. reflexivity.
    + exact Hb1.
    + exact Hr2.
    + exact Hb2.
    + exact Hr3.
    + rewrite stopAction_result in Hr3. rewrite stopAction_eq. cbv zeta. rewrite Hr3.
      reflexivity.
Qed.

(** [startAction('F', 2)] leaves 3 in byte 1 and [startAction('F', 99)]
    leaves 4: the clamp saturates at 3. *)
Lemma startAction_forward_examples (d : Private) :
  well_formed d ->
  byte_at (m_message (after (startAction "F" 2 d))) 1 = 3
  /\ byte_at (m_message (after (startAction "F" 99 d))) 1 = 4.
Proof.
  intros Hwf. split.
  - pose proof (startAction_byte "F" 2 d Hwf) as Hb.
    rewrite (locomotion_fragment_small_index d "F" 2 1 eq_refl ltac:(lia)) in Hb.
    apply Hb; reflexivity.
  - pose proof (startAction_byte "F" 99 d Hwf) as Hb.
    rewrite (locomotion_fragment_small_index d "F" 99 1 eq_refl ltac:(lia)) in Hb.
    apply Hb; reflexivity.
Qed.

(** C10: a [startAction] or [stopAction] that returns failure leaves
    the whole object, and so the command buffer, as it was, emits no
    signal and issues no write. *)
Theorem failed_action_is_atomic (d : Private) (action : ascii) (index : Z)
    (r : bool * Private * list Effect) :
  r = startAction action index d \/ r = stopAction action index d ->
  result r = false ->
  after r = d
  /\ m_message (after r) = m_message d
  /\ emitted r = []
  /\ message_events (emitted r) = []
  /\ transmitted (emitted r) = [].
Proof.
  intros [-> | ->] Hr.
  - rewrite startAction_result in Hr. apply orb_false_iff in Hr. destruct Hr as [HS Hf].
    rewrite startAction_eq, HS. cbv zeta. rewrite Hf. repeat split.
  - rewrite stopAction_result in Hr. rewrite stopAction_eq. cbv zeta. rewrite Hr.
    repeat split.
Qed.

End CommandBuffer.

(** Stopping the forward action that was just started. *)
Lemma stopAction_only_stops_active_action_witness :
  result (@stopAction signed_char "F" 2 (after (@startAction signed_char "F" 2 initial))) = true
  <-> byte_at (m_message (after (@startAction signed_char "F" 2 initial))) 1 = 3.
Proof.
  apply (proj1 (@stopAction_only_stops_active_action signed_char
                  (after (@startAction signed_char "F" 2 initial)) "F" 2
                  ltac:(reflexivity) ltac:(reflexivity))).
Defined.

(** Stopping an action that is not active, and starting an unknown one. *)
Lemma failed_action_is_atomic_witness :
  after (@stopAction signed_char "F" 2 initial) = initial
  /\ after (@startAction signed_char "Z" 0 initial) = initial.
Proof.
  split.
  - apply (@failed_action_is_atomic signed_char initial "F" 2 _ (or_intror eq_refl)).
    reflexivity.
  - apply (@failed_action_is_atomic signed_char initial "Z" 0 _ (or_introl eq_refl)).
    reflexivity.
Defined.

(** ** Notifications *)

Section Notifications.
Context {P : Platform}.
















(** The handler of a notification, branch by branch. *)
Lemma onCharacteristicChanged_eq (info : Characteristic) (payload : string) (d : Private) :
  onCharacteristicChanged info payload d
  = if uuid_of info =? s_notifyUuid then
      match regex_match "Play" (fromLatin1 payload) with
      | Some digits =>
          let d1 := with_currentSound (toInt digits) d in
          if negb (m_audioLoop d) then
            (tt, after (stopAction "V" (toInt digits) d1),
             emitted (stopAction "V" (toInt digits) d1)
             ++ [currentSoundChanged (m_currentSound (after (stopAction "V" (toInt digits) d1)))])
          else (tt, d1, [currentSoundChanged (toInt digits)])
      | None =>
          match regex_match "End" (fromLatin1 payload) with
          | Some digits =>
              let d1 := with_currentSound (toInt digits) d in
              if m_audioLoop d then
                (tt, after (startAction "M" (toInt digits) d1),
                 emitted (startAction "M" (toInt digits) d1)
                 ++ [currentSoundChanged
                       (m_currentSound (after (startAction "M" (toInt digits) d1)))])
              else
                let d2 := with_currentSound (to_int (- toInt digits)) d in
                (tt, after (stopAction "V" (to_int (- to_int (- toInt digits))) d2),
                 emitted (stopAction "V" (to_int (- to_int (- toInt digits))) d2)
                 ++ [currentSoundChanged
                       (m_currentSound
                          (after (stopAction "V" (to_int (- to_int (- toInt digits))) d2)))])
          | None => (tt, d, [])
          end
      end
    else (tt, d, []).
Proof.
  unfold onCharacteristicChanged.
  destruct (uuid_of info =? s_notifyUuid); [|reflexivity].
  destruct (regex_match "Play" (fromLatin1 payload)) as [digits|].
  - rewrite modify_bind, get_bind. simpl m_audioLoop. cbv zeta.
    destruct (m_audioLoop d); simpl negb; cbv iota.
    + rewrite ret_bind, get_bind. reflexivity.
    + rewrite bind_eq. rewrite bind_ret. unfold result at 1, after at 1, emitted at 2.
      simpl fst. simpl snd. rewrite get_bind. unfold emit, result, after, emitted. simpl.
      reflexivity.
  - destruct (regex_match "End" (fromLatin1 payload)) as [digits|]; [|reflexivity].
    rewrite modify_bind, get_bind. simpl m_audioLoop. cbv zeta.
    destruct (m_audioLoop d); cbv iota.
    + rewrite bind_eq. rewrite bind_ret. unfold result at 1, after at 1, emitted at 2.
      simpl fst. simpl snd. rewrite get_bind. unfold emit, result, after, emitted. simpl.
      reflexivity.
    + rewrite bind_eq. rewrite modify_bind. cbv beta. rewrite !get_bind. cbv beta.
      rewrite !bind_ret. unfold emit.
      cbn [result after emitted fst snd m_currentSound with_currentSound].
      reflexivity.
Qed.

End Notifications.

Section SoundLifecycle.
Context {P : Platform}.



End SoundLifecycle.





(** ** The controller *)

(** C9: the derived state of the controller is one of Uninitialized,
    DeviceDiscovery, ServiceDiscovery, Connected and Error, never
    Connecting, and it is Error whenever an error is recorded, whatever
    the session, the central and the discovery are. *)
Theorem Controller_state_never_connecting (d : Controller.Private) :
  (Controller.state d = Controller.UninitializedState
   \/ Controller.state d = Controller.DeviceDiscoveryState
   \/ Controller.state d = Controller.ServiceDiscoveryState
   \/ Controller.state d = Controller.ConnectedState
   \/ Controller.state d = Controller.ErrorState)
  /\ Controller.state d <> Controller.ConnectingState
  /\ (Controller.m_error d <> Controller.NoError ->
      Controller.state d = Controller.ErrorState).
Proof.
  unfold Controller.state.
  destruct (Controller.m_error d) eqn:He; simpl;
    try (split; [auto 6 | split; [discriminate | reflexivity]]).
  destruct (State_eqb (state (Controller.m_robotService d)) ConnectedState).
  - split; [auto 6 | split; [discriminate | congruence]].
  - destruct (Controller.m_central d).
    + split; [auto 6 | split; [discriminate | congruence]].
    + destruct (Controller.m_deviceDiscovery_isActive d);
        (split; [auto 6 | split; [discriminate | congruence]]).
Qed.

(** A controller with a device error. *)
Lemma Controller_state_never_connecting_witness :
  Controller.state (Controller.with_error Controller.DeviceError Controller.initial)
  = Controller.ErrorState.
Proof.
  apply (proj2 (proj2 (Controller_state_never_connecting
                         (Controller.with_error Controller.DeviceError Controller.initial)))).
  discriminate.
Defined.

(** ** The link: attach and service discovery *)

Section Link.
Context {P : Platform}.

Lemma link_progress_refl (d : Private) : link_progress d d.
Proof. unfold link_progress. repeat split; auto. Qed.

Lemma link_progress_trans (d1 d2 d3 : Private) :
  link_progress d1 d2 -> link_progress d2 d3 -> link_progress d1 d3.
Proof.
  unfold link_progress.
  intros (A1 & A2 & A3 & A4 & A5 & A6 & A7 & A8) (B1 & B2 & B3 & B4 & B5 & B6 & B7 & B8).
  repeat split; try congruence; auto.
  - intros He3. destruct (B7 He3) as [He2|Hrc]; [|auto].
    destruct (A7 He2) as [He1|Hrc]; auto.
  - destruct A8 as [A8|[A8 A8']]; destruct B8 as [B8|[B8 B8']]; try lia.
Qed.

Lemma checkState_eq (d : Private) :
  checkState d
  = if negb (State_eqb (state d) (m_oldState d))
    then (tt, with_oldState (state d) d, [stateChanged (state d) (m_oldState d)])
    else (tt, d, []).
Proof.
  unfold checkState. rewrite get_bind. cbv zeta.
  destruct (negb (State_eqb (state d) (m_oldState d))); [|reflexivity].
  rewrite emit_bind. reflexivity.
Qed.

Lemma checkState_progress (d : Private) : link_progress d (after (checkState d)).
Proof.
  rewrite checkState_eq. destruct (negb (State_eqb (state d) (m_oldState d)));
    autorewrite with tuple; [|apply link_progress_refl].
  unfold link_progress. simpl. repeat split; auto.
Qed.

Lemma readFirmwareVersion_progress (d : Private) :
  link_progress d (after (readFirmwareVersion d)).
Proof.
  unfold readFirmwareVersion. rewrite get_bind.
  destruct (m_deviceInformation d) as [di|] eqn:Hdi; [|apply link_progress_refl].
  destruct (isValid (characteristic di FirmwareRevisionString)); [|apply link_progress_refl].
  destruct (String.eqb (value_of (characteristic di FirmwareRevisionString)) "Ver2.0").
  { rewrite modify_bind. unfold ret, link_progress. simpl. rewrite Hdi.
    repeat split; auto. }
  destruct (String.eqb (value_of (characteristic di FirmwareRevisionString)) "Ver1.0").
  { rewrite modify_bind. unfold ret, link_progress. simpl. rewrite Hdi.
    repeat split; auto. }
  apply link_progress_refl.
Qed.

Lemma startNotification_after (d : Private) : after (startNotification d) = d.
Proof.
  unfold startNotification. rewrite get_bind.
  destruct (m_robotControl d) as [rc|]; [|reflexivity].
  destruct (isValid (characteristic rc s_notifyUuid)
            && descriptor_isValid (characteristic rc s_notifyUuid)
                 ClientCharacteristicConfiguration); [|reflexivity].
  rewrite emit_bind. reflexivity.
Qed.

Lemma onEmitterTimeout_progress (d : Private) :
  link_progress d (after (onEmitterTimeout d)).
Proof.
  rewrite onEmitterTimeout_eq.
  destruct (Z.eqb_spec (m_pendingMessageCount d) 0) as [Hc|Hc]; [|apply link_progress_refl].
  rewrite transmitMessage_eq. destruct (m_robotControl d) eqn:Hrc;
    autorewrite with tuple; [|apply link_progress_refl].
  unfold link_progress. simpl. rewrite Hrc, Hc. repeat split; auto.
Qed.

Lemma startTransmission_progress (d : Private) :
  link_progress d (after (startTransmission d)).
Proof.
  unfold startTransmission. rewrite get_bind.
  destruct (m_robotControl d) as [rc|] eqn:Hrc; [|apply link_progress_refl].
  rewrite modify_bind.
  assert (H1 : link_progress d (with_writeCharacteristic (characteristic rc s_writeUuid) d)).
  { unfold link_progress. simpl. repeat split; auto. }
  destruct (isValid (characteristic rc s_writeUuid)); [|exact H1].
  rewrite bind_eq. autorewrite with tuple.
  rewrite modify_bind, emit_bind. autorewrite with tuple.
  rewrite bind_ret. autorewrite with tuple.
  eapply link_progress_trans; [exact H1|].
  eapply link_progress_trans; [apply checkState_progress|].
  set (d2 := after (checkState (with_writeCharacteristic (characteristic rc s_writeUuid) d))).
  assert (Hrc2 : m_robotControl d2 = Some rc).
  { subst d2. rewrite checkState_eq.
    destruct (negb (State_eqb _ _)); autorewrite with tuple; simpl; exact Hrc. }
  eapply link_progress_trans; [|apply onEmitterTimeout_progress].
  unfold link_progress. simpl. rewrite Hrc2. repeat split; auto.
  intros _. right. discriminate.
Qed.

Lemma onServiceStateChanged_progress (service : Service) (newState : ServiceState)
    (d : Private) :
  link_progress d (after (onServiceStateChanged service newState d)).
Proof.
  unfold onServiceStateChanged.
  destruct newState; try apply link_progress_refl.
  rewrite get_bind.
  destruct (same_service service (m_deviceInformation d)).
  { rewrite bind_ret. autorewrite with tuple. apply readFirmwareVersion_progress. }
  destruct (same_service service (m_robotControl d)); [|apply link_progress_refl].
  rewrite bind_eq. autorewrite with tuple. rewrite startNotification_after.
  destruct (result (startNotification d)); [|apply link_progress_refl].
  rewrite bind_ret. autorewrite with tuple. apply startTransmission_progress.
Qed.

Lemma attach_progress (central : Central) (d d' : Private) (ok : bool) (out : list Effect) :
  attach central d = Some (ok, d', out) -> link_progress d d'.
Proof.
  unfold attach.
  destruct (State_eqb (state d) ConnectedState).
  { intros [= _ <- _]. apply link_progress_refl. }
  unfold createService.
  destruct (createServiceObject central DeviceInformation) as [di|]; [|discriminate].
  pose proof (onServiceStateChanged_progress di (service_state di) d) as H1.
  destruct (onServiceStateChanged di (service_state di) d) as [[[] d1] o1].
  autorewrite with tuple in H1.
  destruct (createServiceObject central s_serviceUuid) as [rc|]; [|discriminate].
  pose proof (onServiceStateChanged_progress rc (service_state rc) d1) as H2.
  destruct (onServiceStateChanged rc (service_state rc) d1) as [[[] d2] o2].
  autorewrite with tuple in H2.
  rewrite modify_bind.
  pose proof (checkState_progress (with_services (Some di) (Some rc) d2)) as H3.
  destruct (checkState (with_services (Some di) (Some rc) d2)) as [[[] d3] o3].
  autorewrite with tuple in H3.
  intros [= _ <- _].
  eapply link_progress_trans; [exact H1|].
  eapply link_progress_trans; [exact H2|].
  eapply link_progress_trans; [|exact H3].
  unfold link_progress. simpl. repeat split; auto; try discriminate.
Qed.

End Link.

(** ** The pending-write counter *)

Section PendingWrites.
Context {P : Platform}.

Lemma transmitMessage_may_transmit (d : Private) :
  may_transmit d (after (transmitMessage d)).
Proof.
  rewrite transmitMessage_eq. unfold may_transmit.
  destruct (m_robotControl d); autorewrite with tuple; simpl; auto.
Qed.

Lemma setCurrentMessage_may_transmit (o v : Z) (d : Private) :
  may_transmit d (after (setCurrentMessage o v d)).
Proof.
  rewrite setCurrentMessage_eq.
  destruct ((0 <=? o) && (o <? Z.of_nat (List.length (m_message d)))
            && negb (byte_at (m_message d) o =? v));
    autorewrite with tuple; [|left; reflexivity].
  exact (transmitMessage_may_transmit (with_message (set_byte_at (m_message d) o v) d)).
Qed.

Lemma setCurrentMessage_bytes_may_transmit (message : list Z) (d : Private) :
  may_transmit d (after (setCurrentMessage_bytes message d)).
Proof.
  rewrite setCurrentMessage_bytes_eq.
  destruct (negb (bytes_eqb message (m_message d))
            && Nat.eqb (List.length message) (List.length (m_message d)));
    autorewrite with tuple; [|left; reflexivity].
  exact (transmitMessage_may_transmit (with_message message d)).
Qed.

Lemma startAction_may_transmit (action : ascii) (index : Z) (d : Private) :
  may_transmit d (after (startAction action index d)).
Proof.
  rewrite startAction_eq. destruct (Ascii.eqb action "S"); autorewrite with tuple.
  - apply setCurrentMessage_bytes_may_transmit.
  - cbv zeta. destruct (fragment_valid (fragmentForAction d action index));
      autorewrite with tuple; [|left; reflexivity].
    destruct (offset (fragmentForAction d action index) =? 4).
    + exact (setCurrentMessage_may_transmit _ _ (with_audioLoop (Ascii.eqb action "M") d)).
    + apply setCurrentMessage_may_transmit.
Qed.

Lemma stopAction_may_transmit (action : ascii) (index : Z) (d : Private) :
  may_transmit d (after (stopAction action index d)).
Proof.
  rewrite stopAction_eq. cbv zeta.
  destruct (fragment_valid (fragmentForAction d action index)
            && (value (fragmentForAction d action index)
                =? byte_at (m_message d) (offset (fragmentForAction d action index))));
    autorewrite with tuple; [|left; reflexivity].
  apply setCurrentMessage_may_transmit.
Qed.

Lemma onEmitterTimeout_same_link (d : Private) : same_link d (after (onEmitterTimeout d)).
Proof.
  rewrite onEmitterTimeout_eq. destruct (m_pendingMessageCount d =? 0);
    [apply transmitMessage_same_link|apply same_link_refl].
Qed.

Lemma onEmitterTimeout_may_transmit (d : Private) :
  may_transmit d (after (onEmitterTimeout d)).
Proof.
  rewrite onEmitterTimeout_eq. destruct (m_pendingMessageCount d =? 0);
    [apply transmitMessage_may_transmit|left; reflexivity].
Qed.

Lemma onCharacteristicChanged_same_link (info : Characteristic) (payload : string)
    (d : Private) :
  same_link d (after (onCharacteristicChanged info payload d)).
Proof.
  rewrite onCharacteristicChanged_eq.
  destruct (uuid_of info =? s_notifyUuid); [|apply same_link_refl].
  destruct (regex_match "Play" (fromLatin1 payload)) as [digits|].
  - cbv zeta. destruct (negb (m_audioLoop d)); autorewrite with tuple.
    + exact (stopAction_same_link _ _ (with_currentSound (toInt digits) d)).
    + unfold same_link. simpl. repeat split.
  - destruct (regex_match "End" (fromLatin1 payload)) as [digits|]; [|apply same_link_refl].
    cbv zeta. destruct (m_audioLoop d); autorewrite with tuple.
    + exact (startAction_same_link _ _ (with_currentSound (toInt digits) d)).
    + exact (stopAction_same_link _ _ (with_currentSound (to_int (- toInt digits)) d)).
Qed.

Lemma onCharacteristicChanged_may_transmit (info : Characteristic) (payload : string)
    (d : Private) :
  may_transmit d (after (onCharacteristicChanged info payload d)).
Proof.
  rewrite onCharacteristicChanged_eq.
  destruct (uuid_of info =? s_notifyUuid); [|left; reflexivity].
  destruct (regex_match "Play" (fromLatin1 payload)) as [digits|].
  - cbv zeta. destruct (negb (m_audioLoop d)); autorewrite with tuple.
    + exact (stopAction_may_transmit _ _ (with_currentSound (toInt digits) d)).
    + left. reflexivity.
  - destruct (regex_match "End" (fromLatin1 payload)) as [digits|]; [|left; reflexivity].
    cbv zeta. destruct (m_audioLoop d); autorewrite with tuple.
    + exact (startAction_may_transmit _ _ (with_currentSound (toInt digits) d)).
    + exact (stopAction_may_transmit _ _ (with_currentSound (to_int (- toInt digits)) d)).
Qed.

Lemma onCharacteristicWritten_same_link (info : Characteristic) (v : string) (d : Private) :
  same_link d (after (onCharacteristicWritten info v d)).
Proof.
  rewrite onCharacteristicWritten_eq.
  destruct (Characteristic_eqb info (m_writeCharacteristic d)); [|apply same_link_refl].
  exact (setCurrentMessage_same_link 5 0
           (with_pendingMessageCount (to_int (m_pendingMessageCount d - 1)) d)).
Qed.

(** An acknowledgment on the write characteristic takes one from the
    counter, whatever the counter is, before byte 5 is cleared (which
    transmits when the byte was set); any other written characteristic
    is ignored. *)
Lemma onCharacteristicWritten_count (info : Characteristic) (v : string) (d : Private) :
  if Characteristic_eqb info (m_writeCharacteristic d)
  then may_transmit (with_pendingMessageCount (to_int (m_pendingMessageCount d - 1)) d)
                    (after (onCharacteristicWritten info v d))
  else after (onCharacteristicWritten info v d) = d.
Proof.
  rewrite onCharacteristicWritten_eq.
  destruct (Characteristic_eqb info (m_writeCharacteristic d)); [|reflexivity].
  apply setCurrentMessage_may_transmit.
Qed.

Lemma link_progress_may_transmit (d d' : Private) : link_progress d d' -> may_transmit d d'.
Proof.
  unfold link_progress, may_transmit. intros (_ & _ & _ & _ & _ & _ & _ & [Hc|[H0 H1]]).
  - left. exact Hc.
  - right. rewrite H0, H1. reflexivity.
Qed.

Lemma link_progress_invariant (d d' : Private) :
  link_progress d d' -> invariant d -> invariant d'.
Proof.
  unfold link_progress, invariant.
  intros (Hm & _ & _ & _ & Hrc & _ & He & _) [Hi Hlen]. split.
  - intros He'. destruct (He He') as [He0|Hrc']; auto.
  - rewrite Hm. exact Hlen.
Qed.

Lemma same_link_invariant (d d' : Private) :
  same_link d d' -> invariant d -> invariant d'.
Proof.
  unfold same_link, invariant.
  intros (_ & _ & Hrc & _ & _ & He & Hlen) [Hi Hl]. rewrite Hrc, He, Hlen. auto.
Qed.

Lemma same_link_keeps_handles (d d' : Private) :
  same_link d d' ->
  (m_deviceInformation d <> None -> m_deviceInformation d' <> None)
  /\ (m_robotControl d <> None -> m_robotControl d' <> None)
  /\ (m_emitter d = true -> m_emitter d' = true).
Proof.
  unfold same_link. intros (_ & Hdi & Hrc & _ & _ & He & _). rewrite Hdi, Hrc, He. auto.
Qed.

Lemma link_progress_keeps_handles (d d' : Private) :
  link_progress d d' ->
  (m_deviceInformation d <> None -> m_deviceInformation d' <> None)
  /\ (m_robotControl d <> None -> m_robotControl d' <> None)
  /\ (m_emitter d = true -> m_emitter d' = true).
Proof. unfold link_progress. intros (_ & _ & _ & Hdi & Hrc & He & _). auto. Qed.

(** Every event is handled either by the command path or by the link. *)
Lemma step_cases (d d' : Private) (e : Event) (out : list Effect) :
  step d e = Some (d', out) -> same_link d d' \/ link_progress d d'.
Proof.
  destruct e as [central|service newState|info v|info v| |message|a i|a i|i|i];
    unfold step, forget.
  - destruct (attach central d) as [[[ok d1] o1]|] eqn:Ha; [|discriminate].
    autorewrite with tuple. intros [= <- _]. right. eapply attach_progress. exact Ha.
  - intros [= <- _]. right. apply onServiceStateChanged_progress.
  - intros [= <- _]. left. apply onCharacteristicChanged_same_link.
  - intros [= <- _]. left. apply onCharacteristicWritten_same_link.
  - destruct (m_emitter d); [|discriminate].
    intros [= <- _]. left. apply onEmitterTimeout_same_link.
  - intros [= <- _]. left. apply setCurrentMessage_bytes_same_link.
  - intros [= <- _]. left. apply startAction_same_link.
  - intros [= <- _]. left. apply stopAction_same_link.
  - intros [= <- _]. left. apply startAction_same_link.
  - intros [= <- _]. left. apply startAction_same_link.
Qed.

Lemma step_invariant (d d' : Private) (e : Event) (out : list Effect) :
  step d e = Some (d', out) -> invariant d -> invariant d'.
Proof.
  intros Hs. destruct (step_cases d d' e out Hs).
  - apply same_link_invariant. assumption.
  - apply link_progress_invariant. assumption.
Qed.

Lemma run_invariant (events : list Event) (d d' : Private) (out : list Effect) :
  run d events = Some (d', out) -> invariant d -> invariant d'.
Proof.
  revert d out. induction events as [|e rest IH]; intros d out; simpl.
  - intros [= <- _]. auto.
  - destruct (step d e) as [[d1 o1]|] eqn:Hs; [|discriminate].
    destruct (run d1 rest) as [[d2 o2]|] eqn:Hr; [|discriminate].
    intros [= <- _] Hinv. eapply IH; [exact Hr|]. eapply step_invariant; eassumption.
Qed.

Lemma reachable_invariant (d : Private) : reachable d -> invariant d.
Proof.
  intros (events & out & Hrun). eapply run_invariant; [exact Hrun|].
  split; [discriminate|reflexivity].
Qed.

(** In every state the session can reach the command buffer has six
    bytes. *)
Lemma reachable_well_formed (d : Private) : reachable d -> well_formed d.
Proof. intros Hr. exact (proj2 (reachable_invariant d Hr)). Qed.

(** The counter after one event: an acknowledgment on the write
    characteristic first takes one from it. *)
Lemma step_count (d d' : Private) (e : Event) (out : list Effect) :
  step d e = Some (d', out) ->
  if is_write_ack d e
  then may_transmit (with_pendingMessageCount (to_int (m_pendingMessageCount d - 1)) d) d'
  else may_transmit d d'.
Proof.
  destruct e as [central|service newState|info v|info v| |message|a i|a i|i|i];
    unfold step, forget, is_write_ack.
  - destruct (attach central d) as [[[ok d1] o1]|] eqn:Ha; [|discriminate].
    autorewrite with tuple. intros [= <- _].
    apply link_progress_may_transmit. eapply attach_progress. exact Ha.
  - intros [= <- _]. apply link_progress_may_transmit. apply onServiceStateChanged_progress.
  - intros [= <- _]. apply onCharacteristicChanged_may_transmit.
  - intros [= <- _]. pose proof (onCharacteristicWritten_count info v d) as Hc.
    destruct (Characteristic_eqb info (m_writeCharacteristic d)); [exact Hc|].
    rewrite Hc. left. reflexivity.
  - destruct (m_emitter d); [|discriminate].
    intros [= <- _]. apply onEmitterTimeout_may_transmit.
  - intros [= <- _]. apply setCurrentMessage_bytes_may_transmit.
  - intros [= <- _]. apply startAction_may_transmit.
  - intros [= <- _]. apply stopAction_may_transmit.
  - intros [= <- _]. apply startAction_may_transmit.
  - intros [= <- _]. apply startAction_may_transmit.
Qed.

Lemma run_counter_bounds (events : list Event) (d d' : Private) (out : list Effect) :
  run d events = Some (d', out) ->
  acks_answer_writes d events = true ->
  0 <= m_pendingMessageCount d ->
  m_pendingMessageCount d + Z.of_nat (List.length events) <= int_max ->
  0 <= m_pendingMessageCount d' <= m_pendingMessageCount d + Z.of_nat (List.length events).
Proof.
  revert d out. induction events as [|e rest IH]; intros d out.
  - simpl. intros [= <- _] _ H0 _. lia.
  - cbn [run acks_answer_writes List.length].
    destruct (step d e) as [[d1 o1]|] eqn:Hs; [|discriminate].
    destruct (run d1 rest) as [[d2 o2]|] eqn:Hr; [|discriminate].
    intros [= <- _] Hacks H0 Hmax.
    apply andb_true_iff in Hacks. destruct Hacks as [Hack Hrest].
    pose proof (step_count d d1 e o1 Hs) as Hc.
    assert (H1 : 0 <= m_pendingMessageCount d1 <= m_pendingMessageCount d + 1).
    { unfold int_max in Hmax. destruct (is_write_ack d e).
      - apply Z.ltb_lt in Hack. unfold may_transmit in Hc. simpl in Hc.
        rewrite (to_int_small (m_pendingMessageCount d - 1)) in Hc
          by (unfold int_min, int_max; lia).
        destruct Hc as [Hc|Hc]; rewrite Hc; [lia|].
        rewrite to_int_small by (unfold int_min, int_max; lia). lia.
      - destruct Hc as [Hc|Hc]; rewrite Hc; [lia|].
        rewrite to_int_small by (unfold int_min, int_max; lia). lia. }
    specialize (IH d1 o2 Hr Hrest ltac:(lia) ltac:(lia)). lia.
Qed.

End PendingWrites.

Section Retransmission.
Context {P : Platform}.

(** C1, amended: an acknowledgment takes one from the pending-write
    counter whatever the counter is (see [onCharacteristicWritten_count]);
    there is no floor at zero. In every sequence of events, of at most
    [int_max] events, in which no acknowledgment on the write
    characteristic arrives while the counter is zero, the counter is
    never negative, and never more than the number of events. *)
Theorem pending_counter_nonnegative_while_acks_answer_writes
    (events : list Event) (d : Private) (out : list Effect) :
  run initial events = Some (d, out) ->
  acks_answer_writes initial events = true ->
  Z.of_nat (List.length events) <= int_max ->
  0 <= m_pendingMessageCount d <= Z.of_nat (List.length events).
Proof.
  intros Hrun Hacks Hlen.
  pose proof (run_counter_bounds events initial d out Hrun Hacks) as Hb.
  simpl m_pendingMessageCount in Hb. apply Hb; lia.
Qed.

(** C2: when the timer fires, which it only does while it runs, in a
    state the session can reach: the current message, of six bytes, is
    written to the peripheral if and only if the pending-write counter is
    zero; with a counter that is not zero the tick does nothing at all. *)
Theorem tick_transmits_iff_nothing_pending (d : Private) :
  reachable d ->
  m_emitter d = true ->
  let r := onEmitterTimeout d in
  step d EvEmitterTimeout = Some (after r, emitted r)
  /\ List.length (m_message d) = 6%nat
  /\ (m_pendingMessageCount d = 0 <-> transmitted (emitted r) = [m_message d])
  /\ (m_pendingMessageCount d = 0 ->
      exists rc, m_robotControl d = Some rc
                 /\ emitted r = [writeCharacteristic (service_object rc)
                                   (m_writeCharacteristic d) (m_message d)]
                 /\ m_pendingMessageCount (after r) = 1)
  /\ (m_pendingMessageCount d <> 0 ->
      transmitted (emitted r) = [] /\ emitted r = [] /\ after r = d).
Proof.
  intros Hreach He. cbv zeta.
  destruct (reachable_invariant d Hreach) as [Hrc Hlen].
  destruct (m_robotControl d) as [rc|] eqn:Hrc'; [|exfalso; apply (Hrc He); reflexivity].
  split; [unfold step, forget; rewrite He; reflexivity|].
  split; [exact Hlen|].
  rewrite onEmitterTimeout_eq, transmitMessage_eq, Hrc'.
  destruct (Z.eqb_spec (m_pendingMessageCount d) 0) as [Hc|Hc]; autorewrite with tuple.
  - split; [split; [reflexivity|auto]|]. split; [|contradiction].
    intros _. exists rc. split; [reflexivity|]. split; [reflexivity|].
    simpl. rewrite Hc. reflexivity.
  - split; [split; [contradiction|discriminate]|]. split; [contradiction|].
    intros _. repeat split.
Qed.

Lemma fragment_offset_independent (d d0 : Private) (action : ascii) (index : Z) :
  offset (fragmentForAction d action index) = offset (fragmentForAction d0 action index).
Proof.
  unfold fragmentForAction.
  repeat match goal with
         | |- context [if ?c then _ else _] =>
             match c with
             | context [Ascii.eqb] => destruct c; [reflexivity|]
             end
         end.
  reflexivity.
Qed.

Lemma transmitMessage_unlinked (d : Private) :
  m_robotControl d = None -> transmitMessage d = (tt, d, []).
Proof. intros Hrc. rewrite transmitMessage_eq, Hrc. reflexivity. Qed.

Lemma setCurrentMessage_unlinked (o v : Z) (d : Private) :
  m_robotControl d = None ->
  transmitted (emitted (setCurrentMessage o v d)) = []
  /\ m_pendingMessageCount (after (setCurrentMessage o v d)) = m_pendingMessageCount d.
Proof.
  intros Hrc. rewrite setCurrentMessage_eq.
  destruct ((0 <=? o) && (o <? Z.of_nat (List.length (m_message d)))
            && negb (byte_at (m_message d) o =? v)); [|split; reflexivity].
  rewrite transmitMessage_unlinked by exact Hrc. split; reflexivity.
Qed.

Lemma setCurrentMessage_bytes_unlinked (message : list Z) (d : Private) :
  m_robotControl d = None ->
  transmitted (emitted (setCurrentMessage_bytes message d)) = []
  /\ m_pendingMessageCount (after (setCurrentMessage_bytes message d))
     = m_pendingMessageCount d.
Proof.
  intros Hrc. rewrite setCurrentMessage_bytes_eq.
  destruct (negb (bytes_eqb message (m_message d))
            && Nat.eqb (List.length message) (List.length (m_message d)));
    [|split; reflexivity].
  rewrite transmitMessage_unlinked by exact Hrc. split; reflexivity.
Qed.

(** C8, amended: the session has no detach and no error transition: no
    event clears a service handle or stops the timer once it is set.
    [startAction] does not look at the link: in every state it succeeds
    exactly on 'S' and on the symbols of the codec; on a session without
    its robot-control service (as when disconnected) it still updates the
    command buffer, but writes nothing to the peripheral and leaves the
    pending-write counter as it is. *)
Theorem session_has_no_detach_and_startAction_ignores_the_link :
  (forall d e d' out,
      step d e = Some (d', out) ->
      (m_deviceInformation d <> None -> m_deviceInformation d' <> None)
      /\ (m_robotControl d <> None -> m_robotControl d' <> None)
      /\ (m_emitter d = true -> m_emitter d' = true))
  /\ (forall d action index,
         result (startAction action index d)
         = Ascii.eqb action "S" || fragment_valid (fragmentForAction initial action index))
  /\ (forall d action index,
         m_robotControl d = None ->
         transmitted (emitted (startAction action index d)) = []
         /\ m_pendingMessageCount (after (startAction action index d))
            = m_pendingMessageCount d).
Proof.
  split; [|split].
  - intros d e d' out Hs. destruct (step_cases d d' e out Hs).
    + apply same_link_keeps_handles. assumption.
    + apply link_progress_keeps_handles. assumption.
  - intros d action index. rewrite startAction_result. f_equal.
    unfold fragment_valid. rewrite (fragment_offset_independent d initial). reflexivity.
  - intros d action index Hrc. rewrite startAction_eq.
    destruct (Ascii.eqb action "S"); autorewrite with tuple.
    + apply setCurrentMessage_bytes_unlinked. exact Hrc.
    + cbv zeta. destruct (fragment_valid (fragmentForAction d action index));
        autorewrite with tuple; [|split; reflexivity].
      destruct (offset (fragmentForAction d action index) =? 4).
      * apply (setCurrentMessage_unlinked _ _ (with_audioLoop (Ascii.eqb action "M") d)).
        exact Hrc.
      * apply setCurrentMessage_unlinked. exact Hrc.
Qed.

End Retransmission.

(** C1, as stated, fails: once the robot is connected and its first
    message acknowledged the counter is zero, and one more acknowledgment
    makes it -1. *)
Lemma extra_acknowledgment_makes_counter_negative :
  (exists out,
      @run signed_char initial (robot_connects ++ [robot_acknowledges])
      = Some (robot_idle, out))
  /\ m_pendingMessageCount robot_idle = 0
  /\ is_write_ack robot_idle robot_acknowledges = true
  /\ m_pendingMessageCount (after (onCharacteristicWritten robot_write "" robot_idle)) = -1
  /\ exists d out,
       @run signed_char initial
         (robot_connects ++ [robot_acknowledges; robot_acknowledges]) = Some (d, out)
       /\ m_pendingMessageCount d < 0.
Proof.
  split; [eexists; reflexivity|]. repeat split.
  eexists. eexists. split; reflexivity.
Qed.

(** The connection of the robot and the acknowledgment of its first message. *)
Lemma pending_counter_nonnegative_while_acks_answer_writes_witness :
  0 <= m_pendingMessageCount robot_idle <= 4.
Proof.
  eapply (@pending_counter_nonnegative_while_acks_answer_writes signed_char
            (robot_connects ++ [robot_acknowledges]) robot_idle).
  - reflexivity.
  - reflexivity.
  - vm_compute. discriminate.
Defined.

(** The tick on the connected robot with nothing pending. *)
Lemma tick_transmits_iff_nothing_pending_witness :
  m_pendingMessageCount robot_idle = 0
  <-> transmitted (emitted (onEmitterTimeout robot_idle))
      = [m_message robot_idle].
Proof.
  assert (Hreach : @reachable signed_char robot_idle).
  { exists (robot_connects ++ [robot_acknowledges]). eexists. reflexivity. }
  exact (proj1 (proj2 (proj2
           (@tick_transmits_iff_nothing_pending signed_char robot_idle Hreach eq_refl)))).
Defined.

(** C8, as stated, fails: on a session without handles and with the
    timer stopped (the state a detach would leave) [startAction('F', 2)]
    succeeds and changes the command buffer. *)
Lemma startAction_succeeds_on_a_disconnected_session :
  state initial = DisconnectedState
  /\ m_deviceInformation initial = None
  /\ m_robotControl initial = None
  /\ isValid (m_writeCharacteristic initial) = false
  /\ m_emitter initial = false
  /\ result (@startAction signed_char "F" 2 initial) = true
  /\ m_message (after (@startAction signed_char "F" 2 initial)) = [0x58; 3; 0x40; 0x40; 0; 0].
Proof. repeat split. Qed.

(** A tick on the connected robot, and a start on a session without link. *)
Lemma session_has_no_detach_and_startAction_ignores_the_link_witness :
  m_emitter (after (onEmitterTimeout robot_idle)) = true
  /\ transmitted (emitted (@startAction signed_char "F" 2 initial)) = [].
Proof.
  destruct (@session_has_no_detach_and_startAction_ignores_the_link signed_char)
    as (Hkeep & _ & Hunlinked).
  split.
  - assert (Hs : @step signed_char robot_idle EvEmitterTimeout
                 = Some (after (onEmitterTimeout robot_idle),
                         emitted (onEmitterTimeout robot_idle)))
      by reflexivity.
    destruct (Hkeep _ _ _ _ Hs) as (_ & _ & He). apply He. reflexivity.
  - apply (Hunlinked initial "F"%char 2). reflexivity.
Defined.

(** * Further properties of the robot session *)

(** ** The codec *)

Section CodecCoverage.
Context {P : Platform}.

Lemma fragmentForAction_firmware (d d' : Private) (action : ascii) (index : Z) :
  m_firmwareRevision d' = m_firmwareRevision d ->
  fragmentForAction d' action index = fragmentForAction d action index.
Proof. intros Hf. unfold fragmentForAction. rewrite Hf. reflexivity. Qed.

Lemma fragment_cases (d : Private) (action : ascii) (index : Z) :
  fragment_valid (fragmentForAction d action index) = codec_symbol action
  /\ (codec_symbol action = false -> fragmentForAction d action index = no_fragment)
  /\ (codec_symbol action = true ->
      1 <= offset (fragmentForAction d action index) <= 5
      /\ 0 <= value (fragmentForAction d action index) < 256).
Proof.
  unfold fragmentForAction, codec_symbol, existsb.
  destruct (Ascii.eqb action "F");
    [cbn; repeat split; try discriminate; try lia; apply to_char_range|].
  destruct (Ascii.eqb action "B");
    [cbn; repeat split; try discriminate; try lia; apply to_char_range|].
  destruct (Ascii.eqb action "L");
    [cbn; repeat split; try discriminate; try lia; apply to_char_range|].
  destruct (Ascii.eqb action "R");
    [cbn; repeat split; try discriminate; try lia; apply to_char_range|].
  destruct (Ascii.eqb action "O"); [cbn; repeat split; try discriminate; lia|].
  destruct (Ascii.eqb action "C"); [cbn; repeat split; try discriminate; lia|].
  destruct (Ascii.eqb action "U"); [cbn; repeat split; try discriminate; lia|].
  destruct (Ascii.eqb action "D"); [cbn; repeat split; try discriminate; lia|].
  destruct (Ascii.eqb action "M");
    [cbn; repeat split; try discriminate; try lia; apply to_char_range|].
  destruct (Ascii.eqb action "V");
    [cbn; repeat split; try discriminate; try lia; apply to_char_range|].
  destruct (Ascii.eqb action "E");
    [cbn; repeat split; try discriminate; try lia; apply to_char_range|].
  cbn. repeat split; discriminate.
Qed.

(** The codec has a fragment exactly for its eleven symbols; a fragment
    is never at offset 0, the framing byte, and its value is a byte. *)
Theorem codec_fragments (d : Private) (action : ascii) (index : Z) :
  fragment_valid (fragmentForAction d action index) = codec_symbol action
  /\ (codec_symbol action = false -> fragmentForAction d action index = no_fragment)
  /\ (codec_symbol action = true ->
      1 <= offset (fragmentForAction d action index) <= 5
      /\ 0 <= value (fragmentForAction d action index) < 256).
Proof.
  destruct (fragment_cases d action index) as (Hvalid & Hnone & Hsome).
  split; [exact Hvalid|]. split.
  - intros Hc. apply Hnone. exact Hc.
  - intros Hc. apply Hsome. exact Hc.
Qed.

(** Whatever the index, in or out of the range of [char], the value of a
    locomotion fragment stays in the band of four of its direction, so
    two directions never share a value. *)
Theorem locomotion_values_stay_in_band (d : Private) (action : ascii) (index base : Z) :
  locomotion_base action = Some base ->
  offset (fragmentForAction d action index) = 1
  /\ base <= value (fragmentForAction d action index) <= base + 3.
Proof.
  intros Hb. rewrite (locomotion_fragment d action index base Hb). simpl.
  split; [reflexivity|].
  rewrite char_value_qBound_char.
  rewrite (char_of_small_index 0), (char_of_small_index 3) by lia.
  rewrite qBound_clamp by lia.
  pose proof (clamp_range (char_value (to_char index)) 0 3 ltac:(lia)).
  pose proof (locomotion_base_range action base Hb).
  rewrite to_char_small by lia. lia.
Qed.

End CodecCoverage.

(** The forward action with an index far out of range. *)
Lemma codec_fragments_witness :
  1 <= offset (@fragmentForAction signed_char initial "E" 1000) <= 5
  /\ 0 <= value (@fragmentForAction signed_char initial "E" 1000) < 256.
Proof.
  apply (proj2 (proj2 (@codec_fragments signed_char initial "E" 1000))). reflexivity.
Defined.

(** Turning right with an index no [char] holds. *)
Lemma locomotion_values_stay_in_band_witness :
  offset (@fragmentForAction unsigned_char initial "R" 1000) = 1
  /\ 13 <= value (@fragmentForAction unsigned_char initial "R" 1000) <= 13 + 3.
Proof.
  apply (@locomotion_values_stay_in_band unsigned_char initial "R" 1000 13). reflexivity.
Defined.

(** ** Actions on the command buffer *)

Section Actions.
Context {P : Platform}.

Lemma with_audioLoop_same (d : Private) : with_audioLoop (m_audioLoop d) d = d.
Proof. destruct d. reflexivity. Qed.

Lemma setCurrentMessage_bytes_message (message : list Z) (d : Private) :
  m_message (after (setCurrentMessage_bytes message d))
  = if negb (bytes_eqb message (m_message d))
       && Nat.eqb (List.length message) (List.length (m_message d))
    then message
    else m_message d.
Proof.
  rewrite setCurrentMessage_bytes_eq.
  destruct (negb (bytes_eqb message (m_message d))
            && Nat.eqb (List.length message) (List.length (m_message d))); [|reflexivity].
  autorewrite with tuple. apply transmitMessage_message.
Qed.

(** Setting a byte to the value it has, or outside the buffer, does
    nothing at all. *)
Lemma setCurrentMessage_noop (o v : Z) (d : Private) :
  (0 <= o < Z.of_nat (List.length (m_message d)) -> byte_at (m_message d) o = v) ->
  setCurrentMessage o v d = (tt, d, []).
Proof.
  intros Hsame. rewrite setCurrentMessage_eq.
  destruct (Z.leb_spec 0 o); [|reflexivity].
  destruct (Z.ltb_spec o (Z.of_nat (List.length (m_message d)))); [|reflexivity].
  rewrite Hsame by lia. rewrite Z.eqb_refl. reflexivity.
Qed.

Lemma setCurrentMessage_twice (o v : Z) (d : Private) :
  setCurrentMessage o v (after (setCurrentMessage o v d))
  = (tt, after (setCurrentMessage o v d), []).
Proof.
  apply setCurrentMessage_noop. intros Hr.
  pose proof (setCurrentMessage_same_link o v d) as (_ & _ & _ & _ & _ & _ & Hlen).
  apply setCurrentMessage_byte. rewrite <- Hlen. exact Hr.
Qed.

Lemma setCurrentMessage_bytes_twice (message : list Z) (d : Private) :
  setCurrentMessage_bytes message (after (setCurrentMessage_bytes message d))
  = (tt, after (setCurrentMessage_bytes message d), []).
Proof.
  destruct (negb (bytes_eqb message (m_message d))
            && Nat.eqb (List.length message) (List.length (m_message d))) eqn:Hc.
  - rewrite (setCurrentMessage_bytes_eq message (after _)).
    rewrite setCurrentMessage_bytes_message, Hc, bytes_eqb_refl. reflexivity.
  - assert (Hd : after (setCurrentMessage_bytes message d) = d).
    { rewrite setCurrentMessage_bytes_eq, Hc. reflexivity. }
    rewrite Hd. rewrite setCurrentMessage_bytes_eq, Hc. reflexivity.
Qed.

(** An action other than 'S', started or stopped, changes no byte but
    the one at the offset of its fragment; the framing byte 0 and the
    size of the buffer are never changed. *)
Theorem actions_write_only_their_byte (d : Private) (action : ascii) (index : Z)
    (r : bool * Private * list Effect) :
  Ascii.eqb action "S" = false ->
  r = startAction action index d \/ r = stopAction action index d ->
  byte_at (m_message (after r)) 0 = byte_at (m_message d) 0
  /\ List.length (m_message (after r)) = List.length (m_message d)
  /\ forall j, 0 <= j -> j <> offset (fragmentForAction d action index) ->
       byte_at (m_message (after r)) j = byte_at (m_message d) j.
Proof.
  intros HS Hr.
  assert (Hother : forall j, 0 <= j -> j <> offset (fragmentForAction d action index) ->
                     byte_at (m_message (after r)) j = byte_at (m_message d) j).
  { intros j Hj Hne. destruct Hr as [-> | ->].
    - rewrite startAction_eq, HS. cbv zeta.
      destruct (fragment_valid (fragmentForAction d action index)); [|reflexivity].
      autorewrite with tuple. rewrite setCurrentMessage_other_bytes by assumption.
      destruct (offset (fragmentForAction d action index) =? 4); reflexivity.
    - apply stopAction_other_bytes; assumption. }
  split; [|split; [|exact Hother]].
  - destruct (fragment_cases d action index) as (Hv & Hnone & Hsome).
    destruct (codec_symbol action) eqn:Hc.
    + apply Hother; [lia|]. specialize (Hsome eq_refl). lia.
    + destruct Hr as [-> | ->].
      * rewrite startAction_eq, HS. cbv zeta. rewrite Hv. reflexivity.
      * rewrite stopAction_eq. cbv zeta. rewrite Hv. reflexivity.
  - destruct Hr as [-> | ->].
    + apply (startAction_same_link action index d).
    + apply (stopAction_same_link action index d).
Qed.

(** Starting again what was just started does nothing: the call
    succeeds as the first did, changes no member, emits no signal and
    writes nothing to the peripheral. *)
Theorem startAction_twice_is_silent (d : Private) (action : ascii) (index : Z) :
  let first := startAction action index d in
  startAction action index (after first) = (result first, after first, []).
Proof.
  cbv zeta. rewrite (startAction_eq action index (after _)).
  rewrite (startAction_result action index d).
  destruct (Ascii.eqb action "S") eqn:HS.
  - rewrite startAction_eq, HS. autorewrite with tuple.
    rewrite setCurrentMessage_bytes_twice. reflexivity.
  - cbv zeta.
    pose proof (startAction_same_link action index d) as (_ & _ & _ & _ & Hfw & _ & _).
    rewrite (fragmentForAction_firmware d (after (startAction action index d)))
      by exact Hfw.
    simpl orb.
    destruct (fragment_valid (fragmentForAction d action index)) eqn:Hf.
    + rewrite startAction_eq, HS. cbv zeta. rewrite Hf. autorewrite with tuple.
      set (d0 := if offset (fragmentForAction d action index) =? 4
                 then with_audioLoop (Ascii.eqb action "M") d else d).
      set (d1 := after (setCurrentMessage (offset (fragmentForAction d action index))
                          (value (fragmentForAction d action index)) d0)).
      assert (Hd1 : (if offset (fragmentForAction d action index) =? 4
                     then with_audioLoop (Ascii.eqb action "M") d1 else d1) = d1).
      { destruct (offset (fragmentForAction d action index) =? 4) eqn:H4; [|reflexivity].
        assert (Hl : m_audioLoop d1 = Ascii.eqb action "M").
        { subst d1. rewrite (proj2 (setCurrentMessage_keeps _ _ _)). subst d0. reflexivity. }
        rewrite <- Hl. apply with_audioLoop_same. }
      rewrite Hd1. subst d1. rewrite setCurrentMessage_twice. reflexivity.
    + rewrite startAction_eq, HS. cbv zeta. rewrite Hf. reflexivity.
Qed.

(** [startAction('S')] always succeeds and leaves the pause message in
    the buffer, whatever it held; it leaves loop mode as it is, and on a
    buffer that holds the pause message already it does nothing. *)
Theorem pause_resets_the_buffer (d : Private) (index : Z) :
  well_formed d ->
  let r := startAction "S" index d in
  result r = true
  /\ m_message (after r) = s_pauseMessage
  /\ m_audioLoop (after r) = m_audioLoop d
  /\ (m_message d = s_pauseMessage -> after r = d /\ emitted r = []).
Proof.
  intros Hwf. cbv zeta. rewrite startAction_eq. simpl Ascii.eqb. cbv iota.
  autorewrite with tuple. split; [reflexivity|]. split; [|split].
  - rewrite setCurrentMessage_bytes_message. unfold well_formed in Hwf. rewrite Hwf.
    simpl Nat.eqb. rewrite andb_true_r.
    destruct (bytes_eqb s_pauseMessage (m_message d)) eqn:He; simpl; [|reflexivity].
    symmetry. apply bytes_eqb_eq. exact He.
  - apply setCurrentMessage_bytes_keeps.
  - intros Hm. rewrite setCurrentMessage_bytes_eq, Hm, bytes_eqb_refl. split; reflexivity.
Qed.

Lemma transmitMessage_announced (d : Private) :
  message_events (emitted (transmitMessage d)) = []
  /\ transmitted (emitted (transmitMessage d))
     = match m_robotControl d with Some _ => [m_message d] | None => [] end.
Proof. rewrite transmitMessage_eq. destruct (m_robotControl d); split; reflexivity. Qed.

Lemma set_byte_at_changes (m : list Z) (o v : Z) :
  0 <= o < Z.of_nat (List.length m) -> byte_at m o <> v -> set_byte_at m o v <> m.
Proof.
  intros Ho Hne Heq. apply Hne. rewrite <- Heq at 1. apply byte_at_set_same. exact Ho.
Qed.

Lemma setCurrentMessage_announced (o v : Z) (d : Private) :
  change_announced d (forget (setCurrentMessage o v d)).
Proof.
  unfold change_announced, forget. rewrite setCurrentMessage_eq.
  destruct (Z.leb_spec 0 o); simpl andb;
    [|autorewrite with tuple; simpl; split; [left; split; reflexivity|];
      destruct (m_robotControl d); reflexivity].
  destruct (Z.ltb_spec o (Z.of_nat (List.length (m_message d)))); simpl andb;
    [|autorewrite with tuple; simpl; split; [left; split; reflexivity|];
      destruct (m_robotControl d); reflexivity].
  destruct (Z.eqb_spec (byte_at (m_message d) o) v); simpl negb; cbv iota;
    [autorewrite with tuple; simpl; split; [left; split; reflexivity|];
      destruct (m_robotControl d); reflexivity|].
  autorewrite with tuple. simpl fst. simpl snd.
  destruct (transmitMessage_announced (with_message (set_byte_at (m_message d) o v) d))
    as [Hm Ht].
  rewrite transmitMessage_message. simpl m_message. simpl message_events. simpl transmitted.
  rewrite Hm, Ht. simpl m_robotControl. simpl m_message. split.
  - right. split; [reflexivity|]. apply set_byte_at_changes; [lia|assumption].
  - destruct (m_robotControl d); reflexivity.
Qed.

Lemma setCurrentMessage_bytes_announced (message : list Z) (d : Private) :
  change_announced d (forget (setCurrentMessage_bytes message d)).
Proof.
  unfold change_announced, forget. rewrite setCurrentMessage_bytes_eq.
  destruct (bytes_eqb message (m_message d)) eqn:He; simpl negb; simpl andb;
    [autorewrite with tuple; simpl; split; [left; split; reflexivity|];
      destruct (m_robotControl d); reflexivity|].
  destruct (Nat.eqb (List.length message) (List.length (m_message d)));
    [|autorewrite with tuple; simpl; split; [left; split; reflexivity|];
      destruct (m_robotControl d); reflexivity].
  autorewrite with tuple. simpl fst. simpl snd.
  destruct (transmitMessage_announced (with_message message d)) as [Hm Ht].
  rewrite transmitMessage_message. simpl m_message. simpl message_events. simpl transmitted.
  rewrite Hm, Ht. simpl m_robotControl. simpl m_message. split.
  - right. split; [reflexivity|]. intros Heq. rewrite Heq, bytes_eqb_refl in He.
    discriminate.
  - destruct (m_robotControl d); reflexivity.
Qed.

(** Whatever starts or stops an action or sets the whole buffer: the
    buffer change is announced exactly when the buffer really changed,
    once and with the new contents, and it is written to the peripheral
    at once when the session has its robot-control service; nothing is
    written for a call that changes nothing. *)
Theorem buffer_changes_are_announced_and_written (d : Private) (action : ascii)
    (index : Z) (message : list Z) (p : Private * list Effect) :
  p = forget (startAction action index d)
  \/ p = forget (stopAction action index d)
  \/ p = forget (setCurrentMessage_list message d) ->
  change_announced d p.
Proof.
  intros [-> | [-> | ->]].
  - unfold forget. rewrite startAction_eq. destruct (Ascii.eqb action "S").
    + autorewrite with tuple. apply setCurrentMessage_bytes_announced.
    + cbv zeta. destruct (fragment_valid (fragmentForAction d action index)).
      * autorewrite with tuple.
        destruct (offset (fragmentForAction d action index) =? 4).
        -- exact (setCurrentMessage_announced _ _ (with_audioLoop (Ascii.eqb action "M") d)).
        -- apply setCurrentMessage_announced.
      * unfold change_announced. autorewrite with tuple. simpl.
        split; [left; split; reflexivity|]. destruct (m_robotControl d); reflexivity.
  - unfold forget. rewrite stopAction_eq. cbv zeta.
    destruct (fragment_valid (fragmentForAction d action index)
              && (value (fragmentForAction d action index)
                  =? byte_at (m_message d) (offset (fragmentForAction d action index)))).
    + autorewrite with tuple. apply setCurrentMessage_announced.
    + unfold change_announced. autorewrite with tuple. simpl.
      split; [left; split; reflexivity|]. destruct (m_robotControl d); reflexivity.
  - apply setCurrentMessage_bytes_announced.
Qed.

End Actions.

(** Starting and stopping the head-up action on a fresh session. *)
Lemma actions_write_only_their_byte_witness :
  byte_at (m_message (after (@startAction signed_char "U" 0 initial))) 0 = 0x58
  /\ byte_at (m_message (after (@stopAction signed_char "U" 0 initial))) 0 = 0x58.
Proof.
  split.
  - exact (proj1 (@actions_write_only_their_byte signed_char initial "U" 0 _ eq_refl
                    (or_introl eq_refl))).
  - exact (proj1 (@actions_write_only_their_byte signed_char initial "U" 0 _ eq_refl
                    (or_intror eq_refl))).
Defined.

(** Pausing the connected robot while it moves forward. *)
Lemma pause_resets_the_buffer_witness :
  m_message (after (@startAction signed_char "S" 0
                      (after (@startAction signed_char "F" 2 robot_idle))))
  = s_pauseMessage.
Proof.
  exact (proj1 (proj2 (@pause_resets_the_buffer signed_char
                         (after (@startAction signed_char "F" 2 robot_idle)) 0 eq_refl))).
Defined.

(** Moving the connected robot forward. *)
Lemma buffer_changes_are_announced_and_written_witness :
  change_announced robot_idle (forget (@startAction signed_char "F" 2 robot_idle)).
Proof.
  apply (@buffer_changes_are_announced_and_written signed_char robot_idle "F" 2 []).
  left. reflexivity.
Defined.

(** ** Acknowledgments, notifications and loop mode *)

Section Feedback.
Context {P : Platform}.

(** An acknowledgment on the write characteristic leaves 0 in byte 5 and
    every other byte as it was. When byte 5 was 0 already nothing is
    emitted and the counter is one less; when it was set, on a session
    with its robot-control service, the cleared buffer is written once
    more, which makes up for the acknowledgment in the counter. *)
Theorem acknowledgment_clears_byte_5 (d : Private) (info : Characteristic) (v : string) :
  well_formed d ->
  Characteristic_eqb info (m_writeCharacteristic d) = true ->
  let r := onCharacteristicWritten info v d in
  byte_at (m_message (after r)) 5 = 0
  /\ (forall j, 0 <= j -> j <> 5 ->
        byte_at (m_message (after r)) j = byte_at (m_message d) j)
  /\ (byte_at (m_message d) 5 = 0 ->
      emitted r = []
      /\ m_pendingMessageCount (after r) = to_int (m_pendingMessageCount d - 1))
  /\ (byte_at (m_message d) 5 <> 0 ->
      m_robotControl d <> None ->
      message_events (emitted r) = [m_message (after r)]
      /\ transmitted (emitted r) = [m_message (after r)]
      /\ m_pendingMessageCount (after r)
         = to_int (to_int (m_pendingMessageCount d - 1) + 1)).
Proof.
  intros Hwf Hack. cbv zeta. rewrite onCharacteristicWritten_eq, Hack.
  set (d1 := with_pendingMessageCount (to_int (m_pendingMessageCount d - 1)) d).
  assert (Hwf1 : List.length (m_message d1) = 6%nat) by exact Hwf.
  split; [|split; [|split]].
  - apply setCurrentMessage_byte. rewrite Hwf1. lia.
  - intros j Hj Hne. rewrite setCurrentMessage_other_bytes by assumption. reflexivity.
  - intros H5. rewrite setCurrentMessage_noop; [split; reflexivity|].
    intros _. exact H5.
  - intros H5 Hrc. rewrite setCurrentMessage_eq. rewrite Hwf1.
    simpl (0 <=? 5). simpl (5 <? Z.of_nat 6). simpl andb.
    change (m_message d1) with (m_message d).
    destruct (Z.eqb_spec (byte_at (m_message d) 5) 0) as [H0|_]; [contradiction|].
    simpl negb. cbv iota. autorewrite with tuple.
    rewrite transmitMessage_eq. simpl m_robotControl.
    destruct (m_robotControl d) as [rc|]; [|contradiction].
    autorewrite with tuple. repeat split.
Qed.

(** A changed characteristic other than the notify characteristic, and
    a notification whose text matches neither pattern, are ignored: no
    member changes and nothing is emitted. *)
Theorem other_notifications_are_ignored (d : Private) (info : Characteristic)
    (payload : string) :
  uuid_of info <> s_notifyUuid
  \/ (regex_match "Play" (fromLatin1 payload) = None
      /\ regex_match "End" (fromLatin1 payload) = None) ->
  onCharacteristicChanged info payload d = (tt, d, []).
Proof.
  intros Hi. rewrite onCharacteristicChanged_eq.
  destruct (Z.eqb_spec (uuid_of info) s_notifyUuid) as [Hu|Hu]; [|reflexivity].
  destruct Hi as [Hi|[Hp He]]; [contradiction|].
  rewrite Hp, He. reflexivity.
Qed.

Lemma sound_fragments_agree (d d' : Private) (n : Z) :
  fragmentForAction d "M" n = fragmentForAction d' "V" n
  /\ offset (fragmentForAction d "M" n) = 4.
Proof. split; reflexivity. Qed.

(** 'M' and 'V' share one encoding, so [stopAction('V', n)] stops the
    loop [playLoop(n)] started: it succeeds and byte 4 is idle again.
    Stopping does not end loop mode, which [playLoop] turned on. *)
Theorem stopping_a_sound_stops_a_loop (d : Private) (n : Z) :
  well_formed d ->
  let looped := after (playLoop n d) in
  let r := stopAction "V" n looped in
  result (playLoop n d) = true
  /\ m_audioLoop looped = true
  /\ result r = true
  /\ byte_at (m_message (after r)) 4 = 0
  /\ m_audioLoop (after r) = true.
Proof.
  intros Hwf. cbv zeta. unfold playLoop.
  assert (Hwf1 : well_formed (after (startAction "M" n d))).
  { eapply well_formed_same_link; [apply startAction_same_link|exact Hwf]. }
  assert (Hloop : m_audioLoop (after (startAction "M" n d)) = true).
  { rewrite startAction_eq. simpl Ascii.eqb. cbv iota zeta.
    change (fragment_valid (fragmentForAction d "M" n)) with true.
    change (offset (fragmentForAction d "M" n) =? 4) with true.
    cbv iota. autorewrite with tuple.
    rewrite (proj2 (setCurrentMessage_keeps _ _ _)). reflexivity. }
  assert (Hb : byte_at (m_message (after (startAction "M" n d))) 4
               = value (fragmentForAction (after (startAction "M" n d)) "V" n)).
  { rewrite <- (proj1 (sound_fragments_agree d (after (startAction "M" n d)) n)).
    apply (startAction_byte "M" n d Hwf); reflexivity. }
  assert (Hok : result (stopAction "V" n (after (startAction "M" n d))) = true).
  { rewrite stopAction_result.
    change (fragment_valid (fragmentForAction (after (startAction "M" n d)) "V" n))
      with true.
    change (offset (fragmentForAction (after (startAction "M" n d)) "V" n)) with 4.
    rewrite Hb. simpl andb. apply Z.eqb_refl. }
  split; [rewrite startAction_result; reflexivity|].
  split; [exact Hloop|]. split; [exact Hok|]. split.
  - exact (stopAction_byte "V" n _ Hwf1 Hok).
  - rewrite (proj2 (stopAction_keeps _ _ _)). exact Hloop.
Qed.

Lemma only_sounds_at_offset_4 (d : Private) (action : ascii) (index : Z) :
  Ascii.eqb action "M" = false -> Ascii.eqb action "V" = false ->
  (offset (fragmentForAction d action index) =? 4) = false.
Proof.
  intros HM HV. unfold fragmentForAction. rewrite HM, HV.
  repeat match goal with
         | |- context [if ?c then _ else _] =>
             match c with
             | context [Ascii.eqb] => destruct c; [reflexivity|]
             end
         end.
  reflexivity.
Qed.

Lemma startAction_audioLoop (action : ascii) (index : Z) (d : Private) :
  m_audioLoop (after (startAction action index d))
  = if Ascii.eqb action "M" then true
    else if Ascii.eqb action "V" then false
    else m_audioLoop d.
Proof.
  rewrite startAction_eq.
  destruct (Ascii.eqb action "M") eqn:HM.
  - apply Ascii.eqb_eq in HM. subst action. simpl Ascii.eqb. cbv iota zeta.
    change (fragment_valid (fragmentForAction d "M" index)) with true.
    change (offset (fragmentForAction d "M" index) =? 4) with true.
    cbv iota. autorewrite with tuple.
    rewrite (proj2 (setCurrentMessage_keeps _ _ _)). reflexivity.
  - destruct (Ascii.eqb action "V") eqn:HV.
    + apply Ascii.eqb_eq in HV. subst action. simpl Ascii.eqb. cbv iota zeta.
      change (fragment_valid (fragmentForAction d "V" index)) with true.
      change (offset (fragmentForAction d "V" index) =? 4) with true.
      cbv iota. autorewrite with tuple.
      rewrite (proj2 (setCurrentMessage_keeps _ _ _)). reflexivity.
    + destruct (Ascii.eqb action "S").
      * autorewrite with tuple. apply setCurrentMessage_bytes_keeps.
      * cbv zeta. rewrite (only_sounds_at_offset_4 d action index HM HV).
        destruct (fragment_valid (fragmentForAction d action index)); [|reflexivity].
        autorewrite with tuple. apply setCurrentMessage_keeps.
Qed.

(** Loop mode is decided by the last sound that was started from
    outside and by nothing else: [playLoop] and 'M' turn it on,
    [playSound] and 'V' turn it off, and no other event, no stop, no
    pause, no acknowledgment, no notification and no change of the link,
    changes it. *)
Theorem loop_mode_follows_the_last_sound_started (d d' : Private) (e : Event)
    (out : list Effect) :
  step d e = Some (d', out) ->
  m_audioLoop d' = match sound_start e with
                   | Some loop => loop
                   | None => m_audioLoop d
                   end.
Proof.
  destruct e as [central|service newState|info v|info v| |message|a i|a i|i|i];
    unfold step, forget, sound_start.
  - destruct (attach central d) as [[[ok d1] o1]|] eqn:Ha; [|discriminate].
    autorewrite with tuple. intros [= <- _].
    apply (attach_progress central d d1 ok o1 Ha).
  - intros [= <- _]. apply (onServiceStateChanged_progress service newState d).
  - intros [= <- _]. rewrite onCharacteristicChanged_eq.
    destruct (uuid_of info =? s_notifyUuid); [|reflexivity].
    destruct (regex_match "Play" (fromLatin1 v)) as [digits|].
    + cbv zeta. destruct (m_audioLoop d) eqn:Hl; simpl negb; cbv iota;
        autorewrite with tuple; [exact Hl|].
      rewrite (proj2 (stopAction_keeps _ _ _)). exact Hl.
    + destruct (regex_match "End" (fromLatin1 v)) as [digits|]; [|reflexivity].
      cbv zeta. destruct (m_audioLoop d) eqn:Hl; autorewrite with tuple.
      * rewrite startAction_audioLoop. reflexivity.
      * rewrite (proj2 (stopAction_keeps _ _ _)). exact Hl.
  - intros [= <- _]. rewrite onCharacteristicWritten_eq.
    destruct (Characteristic_eqb info (m_writeCharacteristic d)); [|reflexivity].
    rewrite (proj2 (setCurrentMessage_keeps _ _ _)). reflexivity.
  - destruct (m_emitter d); [|discriminate]. intros [= <- _].
    rewrite onEmitterTimeout_eq. destruct (m_pendingMessageCount d =? 0); [|reflexivity].
    apply transmitMessage_keeps.
  - intros [= <- _]. apply setCurrentMessage_bytes_keeps.
  - intros [= <- _]. rewrite startAction_audioLoop.
    destruct (Ascii.eqb a "M"); [reflexivity|]. destruct (Ascii.eqb a "V"); reflexivity.
  - intros [= <- _]. apply stopAction_keeps.
  - intros [= <- _]. unfold playSound. rewrite startAction_audioLoop. reflexivity.
  - intros [= <- _]. unfold playLoop. rewrite startAction_audioLoop. reflexivity.
Qed.

End Feedback.

(** The extension action on the connected robot, then its acknowledgment. *)
Lemma acknowledgment_clears_byte_5_witness :
  byte_at (m_message
             (after (onCharacteristicWritten robot_write ""
                       (after (@startAction signed_char "E" 10 robot_idle))))) 5 = 0.
Proof.
  exact (proj1 (@acknowledgment_clears_byte_5
                  (after (@startAction signed_char "E" 10 robot_idle)) robot_write ""
                  eq_refl eq_refl)).
Defined.

(** A notification the robot does not send. *)
Lemma other_notifications_are_ignored_witness :
  @onCharacteristicChanged signed_char robot_notify "Battery low" robot_idle
  = (tt, robot_idle, []).
Proof.
  apply (@other_notifications_are_ignored signed_char). right. split; reflexivity.
Defined.

(** A loop of sound 3 on a fresh session. *)
Lemma stopping_a_sound_stops_a_loop_witness :
  m_audioLoop (after (@stopAction signed_char "V" 3
                        (after (@playLoop signed_char 3 initial)))) = true.
Proof.
  exact (proj2 (proj2 (proj2 (proj2
           (@stopping_a_sound_stops_a_loop signed_char initial 3 eq_refl))))).
Defined.

(** Stopping the loop does not turn loop mode off. *)
Lemma loop_mode_follows_the_last_sound_started_witness :
  m_audioLoop (after (@stopAction signed_char "M" 3
                        (after (@playLoop signed_char 3 initial)))) = true.
Proof.
  apply (@loop_mode_follows_the_last_sound_started signed_char
           (after (@playLoop signed_char 3 initial)) _ (EvStopAction "M" 3)
           (emitted (@stopAction signed_char "M" 3 (after (@playLoop signed_char 3 initial))))).
  reflexivity.
Defined.

(** ** Reading the buffer back *)

Section ReadBack.
Context {P : Platform}.

Lemma to_char_char_value (b : Z) : 0 <= b < 256 -> to_char (char_value b) = b.
Proof.
  intros Hb. unfold char_value.
  destruct (char_is_signed && (128 <=? b)) eqn:Hs.
  - apply andb_true_iff in Hs. destruct Hs as [_ Hs]. apply Z.leb_le in Hs.
    unfold to_char. symmetry. apply (Z.mod_unique_pos (b - 256) 256 (-1) b); lia.
  - apply to_char_small. exact Hb.
Qed.

Lemma bytes_ok_update_nth (n : nat) (v : Z) (m : list Z) :
  0 <= v < 256 -> bytes_ok m -> bytes_ok (update_nth n v m).
Proof.
  intros Hv. revert n. unfold bytes_ok.
  induction m as [|x r IH]; intros [|k] Hm; simpl; auto.
  - inversion Hm; subst. constructor; assumption.
  - inversion Hm; subst. constructor; [assumption|]. apply IH. assumption.
Qed.

Lemma bytes_ok_nth (m : list Z) (n : nat) : bytes_ok m -> 0 <= nth n m 0 < 256.
Proof.
  unfold bytes_ok. revert n. induction m as [|x r IH]; intros [|k] Hm; simpl; try lia.
  - inversion Hm; subst. assumption.
  - inversion Hm; subst. apply IH. assumption.
Qed.

Lemma bytes_ok_map_to_char (l : list Z) : bytes_ok (map to_char l).
Proof.
  unfold bytes_ok. induction l as [|x r IH]; simpl; constructor;
    [apply to_char_range|exact IH].
Qed.

Lemma bytes_ok_pause : bytes_ok s_pauseMessage.
Proof. unfold bytes_ok, s_pauseMessage. repeat constructor; lia. Qed.

Lemma fragment_value_byte (d : Private) (action : ascii) (index : Z) :
  0 <= value (fragmentForAction d action index) < 256.
Proof.
  destruct (fragment_cases d action index) as (_ & Hnone & Hsome).
  destruct (codec_symbol action).
  - apply Hsome. reflexivity.
  - rewrite Hnone by reflexivity. simpl. lia.
Qed.

Lemma setCurrentMessage_bytes_ok (o v : Z) (d : Private) :
  0 <= v < 256 -> bytes_ok (m_message d) ->
  bytes_ok (m_message (after (setCurrentMessage o v d))).
Proof.
  intros Hv Hm. rewrite setCurrentMessage_message.
  destruct ((0 <=? o) && (o <? Z.of_nat (List.length (m_message d)))
            && negb (byte_at (m_message d) o =? v)); [|exact Hm].
  apply bytes_ok_update_nth; assumption.
Qed.

Lemma setCurrentMessage_bytes_bytes_ok (message : list Z) (d : Private) :
  bytes_ok message -> bytes_ok (m_message d) ->
  bytes_ok (m_message (after (setCurrentMessage_bytes message d))).
Proof.
  intros Hv Hm. rewrite setCurrentMessage_bytes_message.
  destruct (negb (bytes_eqb message (m_message d))
            && Nat.eqb (List.length message) (List.length (m_message d))); assumption.
Qed.

Lemma startAction_bytes_ok (action : ascii) (index : Z) (d : Private) :
  bytes_ok (m_message d) -> bytes_ok (m_message (after (startAction action index d))).
Proof.
  intros Hm. rewrite startAction_eq. destruct (Ascii.eqb action "S").
  - autorewrite with tuple.
    apply setCurrentMessage_bytes_bytes_ok; [apply bytes_ok_pause|exact Hm].
  - cbv zeta. destruct (fragment_valid (fragmentForAction d action index)); [|exact Hm].
    autorewrite with tuple. apply setCurrentMessage_bytes_ok.
    + apply fragment_value_byte.
    + destruct (offset (fragmentForAction d action index) =? 4); exact Hm.
Qed.

Lemma stopAction_bytes_ok (action : ascii) (index : Z) (d : Private) :
  bytes_ok (m_message d) -> bytes_ok (m_message (after (stopAction action index d))).
Proof.
  intros Hm. rewrite stopAction_eq. cbv zeta.
  destruct (fragment_valid (fragmentForAction d action index)
            && (value (fragmentForAction d action index)
                =? byte_at (m_message d) (offset (fragmentForAction d action index))));
    [|exact Hm].
  autorewrite with tuple. apply setCurrentMessage_bytes_ok; [|exact Hm].
  apply bytes_ok_nth. apply bytes_ok_pause.
Qed.

Lemma step_bytes_ok (d d' : Private) (e : Event) (out : list Effect) :
  step d e = Some (d', out) -> bytes_ok (m_message d) -> bytes_ok (m_message d').
Proof.
  destruct e as [central|service newState|info v|info v| |message|a i|a i|i|i];
    unfold step, forget.
  - destruct (attach central d) as [[[ok d1] o1]|] eqn:Ha; [|discriminate].
    autorewrite with tuple. intros [= <- _] Hm.
    rewrite (proj1 (attach_progress central d d1 ok o1 Ha)). exact Hm.
  - intros [= <- _] Hm.
    rewrite (proj1 (onServiceStateChanged_progress service newState d)). exact Hm.
  - intros [= <- _] Hm. rewrite onCharacteristicChanged_eq.
    destruct (uuid_of info =? s_notifyUuid); [|exact Hm].
    destruct (regex_match "Play" (fromLatin1 v)) as [digits|].
    + cbv zeta. destruct (negb (m_audioLoop d)); autorewrite with tuple; [|exact Hm].
      apply stopAction_bytes_ok. exact Hm.
    + destruct (regex_match "End" (fromLatin1 v)) as [digits|]; [|exact Hm].
      cbv zeta. destruct (m_audioLoop d); autorewrite with tuple.
      * apply startAction_bytes_ok. exact Hm.
      * apply stopAction_bytes_ok. exact Hm.
  - intros [= <- _] Hm. rewrite onCharacteristicWritten_eq.
    destruct (Characteristic_eqb info (m_writeCharacteristic d)); [|exact Hm].
    apply setCurrentMessage_bytes_ok; [lia|exact Hm].
  - destruct (m_emitter d); [|discriminate]. intros [= <- _] Hm.
    rewrite onEmitterTimeout_eq. destruct (m_pendingMessageCount d =? 0); [|exact Hm].
    rewrite transmitMessage_message. exact Hm.
  - intros [= <- _] Hm.
    apply setCurrentMessage_bytes_bytes_ok; [apply bytes_ok_map_to_char|exact Hm].
  - intros [= <- _]. apply startAction_bytes_ok.
  - intros [= <- _]. apply stopAction_bytes_ok.
  - intros [= <- _]. apply startAction_bytes_ok.
  - intros [= <- _]. apply startAction_bytes_ok.
Qed.

Lemma run_bytes_ok (events : list Event) (d d' : Private) (out : list Effect) :
  run d events = Some (d', out) -> bytes_ok (m_message d) -> bytes_ok (m_message d').
Proof.
  revert d out. induction events as [|e rest IH]; intros d out; simpl.
  - intros [= <- _]. auto.
  - destruct (step d e) as [[d1 o1]|] eqn:Hs; [|discriminate].
    destruct (run d1 rest) as [[d2 o2]|] eqn:Hr; [|discriminate].
    intros [= <- _] Hm. eapply IH; [exact Hr|]. eapply step_bytes_ok; eassumption.
Qed.

Lemma map_to_char_char_value (m : list Z) :
  bytes_ok m -> map to_char (map char_value m) = m.
Proof.
  unfold bytes_ok. induction m as [|x r IH]; intros Hm; simpl; [reflexivity|].
  inversion Hm; subst. rewrite to_char_char_value by assumption. f_equal. auto.
Qed.

(** In every state the session can reach, the buffer has six bytes and
    what [currentMessage()] returns is accepted back unchanged:
    [setCurrentMessage(currentMessage())] changes nothing and emits
    nothing. What [currentMessage()] returns after
    [setCurrentMessage(message)] with six numbers is each number
    converted to [char] and back, so a number of [0 .. 127] is read back
    as it was written. *)
Theorem currentMessage_round_trip (d : Private) (message : list Z) :
  reachable d ->
  List.length message = 6%nat ->
  List.length (currentMessage d) = 6%nat
  /\ map to_char (currentMessage d) = m_message d
  /\ setCurrentMessage_list (currentMessage d) d = (tt, d, [])
  /\ currentMessage (after (setCurrentMessage_list message d))
     = map (fun z => char_value (to_char z)) message
  /\ (Forall (fun z => 0 <= z <= 127) message ->
      currentMessage (after (setCurrentMessage_list message d)) = message).
Proof.
  intros Hreach Hlen.
  pose proof (reachable_well_formed d Hreach) as Hwf.
  assert (Hok : bytes_ok (m_message d)).
  { destruct Hreach as (events & out & Hrun).
    eapply run_bytes_ok; [exact Hrun|apply bytes_ok_pause]. }
  assert (Hback : map to_char (currentMessage d) = m_message d).
  { unfold currentMessage. apply map_to_char_char_value. exact Hok. }
  assert (Hread : currentMessage (after (setCurrentMessage_list message d))
                  = map (fun z => char_value (to_char z)) message).
  { unfold currentMessage, setCurrentMessage_list.
    rewrite setCurrentMessage_bytes_message, length_map, Hlen. rewrite Hwf.
    simpl Nat.eqb. rewrite andb_true_r.
    destruct (bytes_eqb (map to_char message) (m_message d)) eqn:He; simpl negb; cbv iota.
    - apply bytes_eqb_eq in He. rewrite <- He. apply map_map.
    - apply map_map. }
  split; [unfold currentMessage; rewrite length_map; exact Hwf|].
  split; [exact Hback|]. split; [|split; [exact Hread|]].
  - unfold setCurrentMessage_list. rewrite Hback.
    rewrite setCurrentMessage_bytes_eq, bytes_eqb_refl. reflexivity.
  - intros Hsmall. rewrite Hread. clear Hread Hlen.
    induction Hsmall as [|z r Hz Hr IH]; simpl; [reflexivity|].
    rewrite char_of_small_index by exact Hz. f_equal. exact IH.
Qed.

End ReadBack.

(** Six small numbers written to the connected robot and read back. *)
Lemma currentMessage_round_trip_witness :
  @currentMessage signed_char
    (after (@setCurrentMessage_list [88; 1; 60; 62; 24; 0] robot_idle))
  = [88; 1; 60; 62; 24; 0].
Proof.
  assert (Hreach : @reachable signed_char robot_idle).
  { exists (robot_connects ++ [robot_acknowledges]). eexists. reflexivity. }
  apply (proj2 (proj2 (proj2 (proj2
           (@currentMessage_round_trip signed_char robot_idle [88; 1; 60; 62; 24; 0]
              Hreach eq_refl))))).
  repeat constructor; lia.
Defined.

(** ** State announcements *)

Create HintDb chains.

Section Announcements.
Context {P : Platform}.

Lemma state_events_app (a b : list Effect) :
  state_events (a ++ b) = state_events a ++ state_events b.
Proof.
  induction a as [|e a IH]; simpl; [reflexivity|].
  destruct e; simpl; rewrite IH; reflexivity.
Qed.

Lemma announces_app (a b c : State) (l1 l2 : list (State * State)) :
  announces a l1 b -> announces b l2 c -> announces a (l1 ++ l2) c.
Proof.
  revert a. induction l1 as [|[n o] l1 IH]; intros a; simpl.
  - intros ->. auto.
  - intros (Ho & Hne & Hr) H2. repeat split; auto.
Qed.

Lemma chains_bind {A B} (m : M A) (k : A -> M B) (d : Private) :
  chains d (m d) -> (forall a d1, chains d1 (k a d1)) -> chains d (bind m k d).
Proof.
  unfold chains. intros Hm Hk. rewrite bind_eq. autorewrite with tuple.
  rewrite state_events_app. eapply announces_app; [exact Hm|apply Hk].
Qed.

Lemma State_eqb_eq (a b : State) : State_eqb a b = true <-> a = b.
Proof. destruct a, b; simpl; split; intros; try reflexivity; discriminate. Qed.

Lemma chains_checkState (d : Private) : chains d (checkState d).
Proof.
  unfold chains. rewrite checkState_eq.
  destruct (State_eqb (state d) (m_oldState d)) eqn:He; simpl negb; cbv iota;
    autorewrite with tuple; simpl; [reflexivity|].
  repeat split. intros Heq. apply State_eqb_eq in Heq. congruence.
Qed.

Ltac chains_leaf :=
  solve [ unfold chains, ret, get, modify, emit; cbn; reflexivity
        | auto with chains ].

Ltac chains_walk :=
  repeat first
    [ chains_leaf
    | match goal with
      | |- chains ?d (bind _ _ ?d) => apply chains_bind; [|intros ? ?]
      | |- chains _ ((if ?c then _ else _) _) => destruct c
      | |- chains _ (match ?x with _ => _ end _) => destruct x
      end ].

Lemma chains_transmitMessage (d : Private) : chains d (transmitMessage d).
Proof. unfold transmitMessage. chains_walk. Qed.
Hint Resolve chains_transmitMessage chains_checkState : chains.

Lemma chains_setCurrentMessage (o v : Z) (d : Private) : chains d (setCurrentMessage o v d).
Proof. unfold setCurrentMessage. chains_walk. Qed.
Hint Resolve chains_setCurrentMessage : chains.

Lemma chains_setCurrentMessage_bytes (message : list Z) (d : Private) :
  chains d (setCurrentMessage_bytes message d).
Proof. unfold setCurrentMessage_bytes. chains_walk. Qed.
Hint Resolve chains_setCurrentMessage_bytes : chains.

Lemma chains_startAction (action : ascii) (index : Z) (d : Private) :
  chains d (startAction action index d).
Proof. unfold startAction. chains_walk. Qed.
Hint Resolve chains_startAction : chains.

Lemma chains_stopAction (action : ascii) (index : Z) (d : Private) :
  chains d (stopAction action index d).
Proof. unfold stopAction. chains_walk. Qed.
Hint Resolve chains_stopAction : chains.

Lemma chains_onEmitterTimeout (d : Private) : chains d (onEmitterTimeout d).
Proof. unfold onEmitterTimeout. chains_walk. Qed.
Hint Resolve chains_onEmitterTimeout : chains.

Lemma chains_onCharacteristicWritten (info : Characteristic) (v : string) (d : Private) :
  chains d (onCharacteristicWritten info v d).
Proof. unfold onCharacteristicWritten. chains_walk. Qed.

Lemma chains_onCharacteristicChanged (info : Characteristic) (v : string) (d : Private) :
  chains d (onCharacteristicChanged info v d).
Proof. unfold onCharacteristicChanged. chains_walk. Qed.

Lemma chains_readFirmwareVersion (d : Private) : chains d (readFirmwareVersion d).
Proof. unfold readFirmwareVersion. chains_walk. Qed.
Hint Resolve chains_readFirmwareVersion : chains.

Lemma chains_startNotification (d : Private) : chains d (startNotification d).
Proof. unfold startNotification. chains_walk. Qed.
Hint Resolve chains_startNotification : chains.

Lemma chains_startTransmission (d : Private) : chains d (startTransmission d).
Proof. unfold startTransmission. chains_walk. Qed.
Hint Resolve chains_startTransmission : chains.

Lemma chains_onServiceStateChanged (service : Service) (newState : ServiceState)
    (d : Private) :
  chains d (onServiceStateChanged service newState d).
Proof. unfold onServiceStateChanged. chains_walk. Qed.

Lemma chains_attach (central : Central) (d d' : Private) (ok : bool) (out : list Effect) :
  attach central d = Some (ok, d', out) ->
  announces (m_oldState d) (state_events out) (m_oldState d').
Proof.
  unfold attach.
  destruct (State_eqb (state d) ConnectedState).
  { intros [= _ <- <-]. reflexivity. }
  unfold createService.
  destruct (createServiceObject central DeviceInformation) as [di|]; [|discriminate].
  pose proof (chains_onServiceStateChanged di (service_state di) d) as H1.
  destruct (onServiceStateChanged di (service_state di) d) as [[[] d1] o1].
  destruct (createServiceObject central s_serviceUuid) as [rc|]; [|discriminate].
  pose proof (chains_onServiceStateChanged rc (service_state rc) d1) as H2.
  destruct (onServiceStateChanged rc (service_state rc) d1) as [[[] d2] o2].
  rewrite modify_bind.
  pose proof (chains_checkState (with_services (Some di) (Some rc) d2)) as H3.
  destruct (checkState (with_services (Some di) (Some rc) d2)) as [[[] d3] o3].
  unfold chains in H1, H2, H3. autorewrite with tuple in H1, H2, H3.
  intros [= _ <- <-]. rewrite !state_events_app.
  eapply announces_app; [exact H1|]. eapply announces_app; [exact H2|exact H3].
Qed.

Lemma step_announces (d d' : Private) (e : Event) (out : list Effect) :
  step d e = Some (d', out) ->
  announces (m_oldState d) (state_events out) (m_oldState d').
Proof.
  destruct e as [central|service newState|info v|info v| |message|a i|a i|i|i];
    unfold step, forget.
  - destruct (attach central d) as [[[ok d1] o1]|] eqn:Ha; [|discriminate].
    autorewrite with tuple. intros [= <- <-]. eapply chains_attach. exact Ha.
  - intros [= <- <-]. apply chains_onServiceStateChanged.
  - intros [= <- <-]. apply chains_onCharacteristicChanged.
  - intros [= <- <-]. apply chains_onCharacteristicWritten.
  - destruct (m_emitter d); [|discriminate].
    intros [= <- <-]. apply chains_onEmitterTimeout.
  - intros [= <- <-]. apply chains_setCurrentMessage_bytes.
  - intros [= <- <-]. apply chains_startAction.
  - intros [= <- <-]. apply chains_stopAction.
  - intros [= <- <-]. apply chains_startAction.
  - intros [= <- <-]. apply chains_startAction.
Qed.

Lemma run_announces (events : list Event) (d d' : Private) (out : list Effect) :
  run d events = Some (d', out) ->
  announces (m_oldState d) (state_events out) (m_oldState d').
Proof.
  revert d out. induction events as [|e rest IH]; intros d out; simpl.
  - intros [= <- <-]. reflexivity.
  - destruct (step d e) as [[d1 o1]|] eqn:Hs; [|discriminate].
    destruct (run d1 rest) as [[d2 o2]|] eqn:Hr; [|discriminate].
    intros [= <- <-]. rewrite state_events_app.
    eapply announces_app; [eapply step_announces; exact Hs|]. apply IH. exact Hr.
Qed.

(** Over any sequence of events from the construction of the session,
    the [stateChanged] signals form a chain that starts at Disconnected:
    each carries as old state the new state of the one before, none
    announces a state as changed into itself, and the last one carries
    the state the session remembers as announced. *)
Theorem state_announcements_chain (events : list Event) (d : Private)
    (out : list Effect) :
  run initial events = Some (d, out) ->
  announces DisconnectedState (state_events out) (m_oldState d).
Proof. intros Hrun. exact (run_announces events initial d out Hrun). Qed.

End Announcements.

(** The connection of the robot announces Connecting, then Connected. *)
Lemma state_announcements_chain_witness :
  announces DisconnectedState
    [(ConnectingState, DisconnectedState); (ConnectedState, ConnectingState)]
    ConnectedState.
Proof.
  exact (@state_announcements_chain signed_char (robot_connects ++ [robot_acknowledges])
           robot_idle _ eq_refl).
Defined.

(** ** Arming the link *)

Section Arming.
Context {P : Platform}.

Lemma startNotification_eq (d : Private) :
  startNotification d
  = match m_robotControl d with
    | Some rc =>
        if isValid (characteristic rc s_notifyUuid)
           && descriptor_isValid (characteristic rc s_notifyUuid)
                ClientCharacteristicConfiguration
        then (true, d,
              [writeDescriptor (service_object rc) (characteristic rc s_notifyUuid)
                 ClientCharacteristicConfiguration "0100"])
        else (false, d, [])
    | None => (false, d, [])
    end.
Proof.
  unfold startNotification. rewrite get_bind.
  destruct (m_robotControl d) as [rc|]; [|reflexivity].
  destruct (isValid (characteristic rc s_notifyUuid)
            && descriptor_isValid (characteristic rc s_notifyUuid)
                 ClientCharacteristicConfiguration); [|reflexivity].
  rewrite emit_bind. reflexivity.
Qed.

Lemma startTransmission_eq (d : Private) :
  startTransmission d
  = match m_robotControl d with
    | Some rc =>
        let d1 := with_writeCharacteristic (characteristic rc s_writeUuid) d in
        if isValid (characteristic rc s_writeUuid) then
          let d2 := with_emitter true (after (checkState d1)) in
          (true, after (onEmitterTimeout d2),
           emitted (checkState d1)
           ++ emitterStart s_transmitterInterval :: emitted (onEmitterTimeout d2))
        else (false, d1, [])
    | None => (false, d, [])
    end.
Proof.
  unfold startTransmission. rewrite get_bind.
  destruct (m_robotControl d) as [rc|]; [|reflexivity].
  rewrite modify_bind. cbv zeta.
  destruct (isValid (characteristic rc s_writeUuid)); [|reflexivity].
  rewrite bind_eq. autorewrite with tuple.
  rewrite modify_bind, emit_bind. autorewrite with tuple.
  rewrite bind_ret. autorewrite with tuple. reflexivity.
Qed.

Lemma checkState_oldState (d : Private) : m_oldState (after (checkState d)) = state d.
Proof.
  rewrite checkState_eq.
  destruct (State_eqb (state d) (m_oldState d)) eqn:He; simpl negb; cbv iota;
    autorewrite with tuple; [|reflexivity].
  symmetry. apply State_eqb_eq. exact He.
Qed.

Lemma checkState_state (d : Private) : state (after (checkState d)) = state d.
Proof.
  rewrite checkState_eq.
  destruct (negb (State_eqb (state d) (m_oldState d))); reflexivity.
Qed.

Lemma same_link_state (d d' : Private) : same_link d d' -> state d' = state d.
Proof.
  unfold same_link, state. intros (_ & Hdi & Hrc & Hwc & _). rewrite Hdi, Hrc, Hwc.
  reflexivity.
Qed.

Lemma transmitted_app (a b : list Effect) :
  transmitted (a ++ b) = transmitted a ++ transmitted b.
Proof.
  induction a as [|e a IH]; simpl; [reflexivity|].
  destruct e; simpl; rewrite IH; reflexivity.
Qed.

Lemma checkState_transmits_nothing (d : Private) :
  transmitted (emitted (checkState d)) = [] /\ m_message (after (checkState d)) = m_message d
  /\ m_pendingMessageCount (after (checkState d)) = m_pendingMessageCount d
  /\ m_robotControl (after (checkState d)) = m_robotControl d
  /\ m_writeCharacteristic (after (checkState d)) = m_writeCharacteristic d
  /\ m_emitter (after (checkState d)) = m_emitter d.
Proof.
  rewrite checkState_eq.
  destruct (negb (State_eqb (state d) (m_oldState d))); repeat split.
Qed.

Lemma onServiceStateChanged_robotControl (d : Private) (service rc : Service) :
  m_robotControl d = Some rc ->
  same_service service (m_deviceInformation d) = false ->
  same_service service (Some rc) = true ->
  onServiceStateChanged service ServiceDiscovered d
  = if isValid (characteristic rc s_notifyUuid)
       && descriptor_isValid (characteristic rc s_notifyUuid)
            ClientCharacteristicConfiguration
    then (tt, after (startTransmission d),
          writeDescriptor (service_object rc) (characteristic rc s_notifyUuid)
            ClientCharacteristicConfiguration "0100"
          :: emitted (startTransmission d))
    else (tt, d, []).
Proof.
  intros Hrc Hdi Hsame.
  unfold onServiceStateChanged. rewrite get_bind, Hdi, Hrc, Hsame.
  rewrite bind_eq. rewrite startNotification_eq, Hrc.
  destruct (isValid (characteristic rc s_notifyUuid)
            && descriptor_isValid (characteristic rc s_notifyUuid)
                 ClientCharacteristicConfiguration);
    cbv iota; autorewrite with tuple; cbv iota.
  - rewrite bind_ret. autorewrite with tuple. reflexivity.
  - reflexivity.
Qed.

(** When the robot-control service of the session is discovered and has
    its notify characteristic with the configuration descriptor and its
    write characteristic: notifications are enabled, the session is
    Connected and has announced it, the timer runs, the buffer is
    untouched, and the buffer is written once if no write is pending and
    not at all otherwise. *)
Theorem discovered_robot_control_connects (d : Private) (service rc : Service) :
  m_robotControl d = Some rc ->
  same_service service (m_deviceInformation d) = false ->
  same_service service (Some rc) = true ->
  isValid (characteristic rc s_notifyUuid) = true ->
  descriptor_isValid (characteristic rc s_notifyUuid) ClientCharacteristicConfiguration
  = true ->
  isValid (characteristic rc s_writeUuid) = true ->
  let r := onServiceStateChanged service ServiceDiscovered d in
  state (after r) = ConnectedState
  /\ m_oldState (after r) = ConnectedState
  /\ m_emitter (after r) = true
  /\ m_writeCharacteristic (after r) = characteristic rc s_writeUuid
  /\ m_message (after r) = m_message d
  /\ transmitted (emitted r)
     = (if m_pendingMessageCount d =? 0 then [m_message d] else [])
  /\ In (writeDescriptor (service_object rc) (characteristic rc s_notifyUuid)
           ClientCharacteristicConfiguration "0100") (emitted r)
  /\ In (emitterStart s_transmitterInterval) (emitted r).
Proof.
  intros Hrc Hdi Hsame Hn Hd Hw. cbv zeta.
  rewrite (onServiceStateChanged_robotControl d service rc Hrc Hdi Hsame), Hn, Hd.
  simpl andb. cbv iota.
  rewrite startTransmission_eq, Hrc. cbv zeta. rewrite Hw. autorewrite with tuple.
  set (d1 := with_writeCharacteristic (characteristic rc s_writeUuid) d).
  set (d2 := with_emitter true (after (checkState d1))).
  assert (Hs1 : state d1 = ConnectedState).
  { unfold state, d1. simpl. rewrite Hw. reflexivity. }
  destruct (checkState_transmits_nothing d1) as (Ht1 & Hm1 & Hc1 & Hrc1 & Hwc1 & He1).
  pose proof (onEmitterTimeout_same_link d2) as Hlink.
  assert (Hs2 : state d2 = ConnectedState).
  { unfold state, d2. simpl. rewrite Hwc1. simpl. rewrite Hw. reflexivity. }
  split; [rewrite (same_link_state _ _ Hlink); exact Hs2|].
  destruct Hlink as (Hold & _ & _ & Hwc & _ & Hem & _).
  split; [rewrite Hold; unfold d2; simpl; rewrite checkState_oldState; exact Hs1|].
  split; [rewrite Hem; reflexivity|].
  split; [rewrite Hwc; unfold d2; simpl; rewrite Hwc1; reflexivity|].
  split.
  { rewrite onEmitterTimeout_eq. destruct (m_pendingMessageCount d2 =? 0).
    - rewrite transmitMessage_message. unfold d2. simpl. rewrite Hm1. reflexivity.
    - unfold d2. simpl. rewrite Hm1. reflexivity. }
  split.
  { simpl transmitted. rewrite transmitted_app, Ht1. simpl.
    rewrite onEmitterTimeout_eq.
    assert (Hc2 : m_pendingMessageCount d2 = m_pendingMessageCount d).
    { unfold d2. simpl. rewrite Hc1. reflexivity. }
    rewrite Hc2. destruct (m_pendingMessageCount d =? 0); [|reflexivity].
    rewrite (proj2 (transmitMessage_announced d2)).
    unfold d2 at 1. simpl m_robotControl. rewrite Hrc1. simpl m_robotControl. rewrite Hrc.
    unfold d2. simpl. rewrite Hm1. reflexivity. }
  split; [left; reflexivity|].
  right. apply in_or_app. right. left. reflexivity.
Qed.

(** When the notify characteristic or its configuration descriptor is
    missing, the write characteristic is not looked at: nothing changes
    and nothing is emitted. When they are there but the write
    characteristic is missing, notifications are enabled, the session is
    not Connected, the timer is not started and nothing is written. *)
Theorem incomplete_robot_control_does_not_connect (d : Private) (service rc : Service) :
  m_robotControl d = Some rc ->
  same_service service (m_deviceInformation d) = false ->
  same_service service (Some rc) = true ->
  let r := onServiceStateChanged service ServiceDiscovered d in
  (isValid (characteristic rc s_notifyUuid)
   && descriptor_isValid (characteristic rc s_notifyUuid) ClientCharacteristicConfiguration
   = false ->
   r = (tt, d, []))
  /\ (isValid (characteristic rc s_notifyUuid)
      && descriptor_isValid (characteristic rc s_notifyUuid)
           ClientCharacteristicConfiguration = true ->
      isValid (characteristic rc s_writeUuid) = false ->
      state (after r) <> ConnectedState
      /\ m_emitter (after r) = m_emitter d
      /\ emitted r = [writeDescriptor (service_object rc) (characteristic rc s_notifyUuid)
                        ClientCharacteristicConfiguration "0100"]).
Proof.
  intros Hrc Hdi Hsame. cbv zeta.
  rewrite (onServiceStateChanged_robotControl d service rc Hrc Hdi Hsame). split.
  - intros Hn. rewrite Hn. reflexivity.
  - intros Hn Hw. rewrite Hn.
    rewrite startTransmission_eq, Hrc. cbv zeta. rewrite Hw. autorewrite with tuple.
    split; [|split; reflexivity].
    unfold state. simpl. rewrite Hw. rewrite Hrc.
    destruct (m_deviceInformation d); discriminate.
Qed.

Lemma attach_cases (central : Central) (d : Private) :
  (state d = ConnectedState -> attach central d = Some (false, d, []))
  /\ (state d <> ConnectedState ->
      (attach central d = None
       <-> createServiceObject central DeviceInformation = None
           \/ createServiceObject central s_serviceUuid = None)
      /\ forall ok d' out,
           attach central d = Some (ok, d', out) ->
           ok = true
           /\ m_deviceInformation d' = createServiceObject central DeviceInformation
           /\ m_robotControl d' = createServiceObject central s_serviceUuid
           /\ state d' <> DisconnectedState
           /\ m_oldState d' = state d').
Proof.
  unfold attach. split.
  - intros ->. reflexivity.
  - intros Hs.
    assert (He : State_eqb (state d) ConnectedState = false).
    { destruct (State_eqb (state d) ConnectedState) eqn:He; [|reflexivity].
      apply State_eqb_eq in He. contradiction. }
    rewrite He. unfold createService.
    destruct (createServiceObject central DeviceInformation) as [di|].
    + destruct (onServiceStateChanged di (service_state di) d) as [[[] d1] o1].
      destruct (createServiceObject central s_serviceUuid) as [rc|].
      * destruct (onServiceStateChanged rc (service_state rc) d1) as [[[] d2] o2].
        rewrite modify_bind.
        pose proof (checkState_oldState (with_services (Some di) (Some rc) d2)) as Hold.
        pose proof (checkState_state (with_services (Some di) (Some rc) d2)) as Hst.
        assert (Hh : m_deviceInformation (after (checkState
                                           (with_services (Some di) (Some rc) d2)))
                     = Some di
                     /\ m_robotControl (after (checkState
                                          (with_services (Some di) (Some rc) d2)))
                        = Some rc).
        { rewrite checkState_eq. destruct (negb (State_eqb _ _)); split; reflexivity. }
        destruct (checkState (with_services (Some di) (Some rc) d2)) as [[[] d3] o3].
        autorewrite with tuple in Hold, Hst, Hh. destruct Hh as [Hdi3 Hrc3].
        split.
        -- split; [discriminate|]. intros [H|H]; discriminate.
        -- intros ok d' out [= <- <- _]. repeat split; auto.
           ++ rewrite Hst. unfold state. simpl.
              destruct (isValid (m_writeCharacteristic d2)); discriminate.
           ++ congruence.
      * split.
        -- split; auto.
        -- intros ok d' out. discriminate.
    + split.
      * split; auto.
      * intros ok d' out. discriminate.
Qed.

(** [attach] on a Connected session returns false and changes nothing.
    On any other session it ends in a dereference of [nullptr] exactly
    when the central lacks one of the two services; otherwise it returns
    true, holds the two service objects the central created, is no longer
    Disconnected, and has announced the state it is in. So the result
    false is only ever returned for a Connected session. *)
Theorem attach_outcomes (central : Central) (d : Private) :
  (state d = ConnectedState -> attach central d = Some (false, d, []))
  /\ (state d <> ConnectedState ->
      (attach central d = None
       <-> createServiceObject central DeviceInformation = None
           \/ createServiceObject central s_serviceUuid = None)
      /\ forall ok d' out,
           attach central d = Some (ok, d', out) ->
           ok = true
           /\ m_deviceInformation d' = createServiceObject central DeviceInformation
           /\ m_robotControl d' = createServiceObject central s_serviceUuid
           /\ state d' <> DisconnectedState
           /\ m_oldState d' = state d').
Proof.
  destruct (attach_cases central d) as [Hconnected Hother]. split.
  - intros Hs. apply Hconnected. exact Hs.
  - intros Hs. destruct (Hother Hs) as [Hnull Hok]. split; [exact Hnull|].
    intros ok d' out Ha. apply (Hok ok d' out Ha).
Qed.

End Arming.

(** The robot-control service of the robot, discovered after [attach]. *)
Lemma discovered_robot_control_connects_witness :
  state (after (onServiceStateChanged robot_robotControl ServiceDiscovered robot_attached))
  = ConnectedState.
Proof.
  exact (proj1 (discovered_robot_control_connects robot_attached robot_robotControl
                  robot_robotControl eq_refl eq_refl eq_refl eq_refl eq_refl eq_refl)).
Defined.

(** A robot-control service that lacks the write characteristic. *)
Lemma incomplete_robot_control_does_not_connect_witness :
  state (after (onServiceStateChanged control_without_write ServiceDiscovered
                  attached_without_write))
  <> ConnectedState.
Proof.
  exact (proj1 (proj2 (incomplete_robot_control_does_not_connect attached_without_write
                         control_without_write control_without_write
                         eq_refl eq_refl eq_refl)
                  eq_refl eq_refl)).
Defined.

(** Attaching the robot a second time, once it is connected. *)
Lemma attach_outcomes_witness :
  @attach robot_central robot_idle = Some (false, robot_idle, []).
Proof.
  apply (proj1 (attach_outcomes robot_central robot_idle)). reflexivity.
Defined.

(** * Properties of the controller *)

Section ControllerMonad.

Lemma C_bind_eq {A B} (m : Controller.C A) (k : A -> Controller.C B)
    (o : Controller.Members) :
  Controller.bind m k o
  = (fst (fst (k (fst (fst (m o))) (Controller.members_after (m o)))),
     Controller.members_after (k (fst (fst (m o))) (Controller.members_after (m o))),
     Controller.effects_of (m o)
     ++ Controller.effects_of (k (fst (fst (m o))) (Controller.members_after (m o)))).
Proof.
  unfold Controller.bind, Controller.members_after, Controller.effects_of.
  destruct (m o) as [[a o1] e1]. simpl.
  destruct (k a o1) as [[b o2] e2]. reflexivity.
Qed.

Lemma C_get_bind {B} (k : Controller.Members -> Controller.C B) (o : Controller.Members) :
  Controller.bind Controller.get k o = k o o.
Proof.
  unfold Controller.bind, Controller.get. destruct (k o o) as [[b o2] e2]. reflexivity.
Qed.

Lemma C_modify_bind {B} (f : Controller.Members -> Controller.Members)
    (k : unit -> Controller.C B) (o : Controller.Members) :
  Controller.bind (Controller.modify f) k o = k tt (f o).
Proof.
  unfold Controller.bind, Controller.modify. destruct (k tt (f o)) as [[b o2] e2].
  reflexivity.
Qed.

Lemma C_emit_bind {B} (e : Controller.Effect) (k : unit -> Controller.C B)
    (o : Controller.Members) :
  Controller.bind (Controller.emit e) k o
  = (fst (fst (k tt o)), Controller.members_after (k tt o),
     e :: Controller.effects_of (k tt o)).
Proof.
  unfold Controller.bind, Controller.emit, Controller.members_after, Controller.effects_of.
  destruct (k tt o) as [[b o2] e2]. reflexivity.
Qed.


Lemma C_members_after_tuple {A} (a : A) (o : Controller.Members)
    (e : list Controller.Effect) :
  Controller.members_after (a, o, e) = o.
Proof. reflexivity. Qed.

Lemma C_effects_of_tuple {A} (a : A) (o : Controller.Members)
    (e : list Controller.Effect) :
  Controller.effects_of (a, o, e) = e.
Proof. reflexivity. Qed.

Lemma C_State_eqb_eq (a b : Controller.State) : Controller.State_eqb a b = true <-> a = b.
Proof. destruct a, b; simpl; split; intros; try reflexivity; discriminate. Qed.

Lemma C_state_when (d : Controller.Private) :
  Controller.state d = Controller.state_when (state (Controller.m_robotService d)) d.
Proof. reflexivity. Qed.

Lemma C_state_when_error (rs : State) (d : Controller.Private) :
  Controller.m_error d <> Controller.NoError ->
  Controller.state_when rs d = Controller.ErrorState.
Proof.
  intros He. unfold Controller.state_when.
  destruct (Controller.m_error d); [contradiction| | |]; reflexivity.
Qed.

Lemma C_state_when_not_Connecting (rs : State) (d : Controller.Private) :
  Controller.state_when rs d <> Controller.ConnectingState.
Proof.
  unfold Controller.state_when.
  destruct (negb _); [discriminate|]. destruct (State_eqb _ _); [discriminate|].
  destruct (Controller.m_central d); [discriminate|].
  destruct (Controller.m_deviceDiscovery_isActive d); discriminate.
Qed.

Lemma checkState_when_eq (rs : State) (o : Controller.Members) :
  Controller.checkState_when rs o
  = if negb (Controller.State_eqb (Controller.m_oldState o)
               (Controller.state_when rs (Controller.read_by_state o)))
    then (tt, Controller.with_oldState
                (Controller.state_when rs (Controller.read_by_state o)) o,
          [Controller.stateChanged
             (Controller.state_when rs (Controller.read_by_state o))
             (Controller.m_oldState o)])
    else (tt, o, []).
Proof.
  unfold Controller.checkState_when. rewrite C_get_bind. cbv zeta.
  destruct (negb _); [|reflexivity].
  rewrite C_emit_bind. reflexivity.
Qed.

Lemma C_checkState_eq (o : Controller.Members) :
  Controller.checkState o
  = Controller.checkState_when (state (Controller.m_robotService (Controller.read_by_state o)))
      o.
Proof. reflexivity. Qed.

End ControllerMonad.

Create Rewrite HintDb ctuple.
#[global] Hint Rewrite @C_members_after_tuple @C_effects_of_tuple : ctuple.

(** ** What every handler keeps *)

Section ControllerKeeps.
Context {P : Platform}.
Variable I : Controller.Members -> Prop.
Variable Q : Controller.Effect -> Prop.

Hypothesis I_checkState : forall rs, Controller.keeps I Q (Controller.checkState_when rs).
Hypothesis I_error :
  forall e o, e <> Controller.NoError ->
              I o -> I (Controller.update_read (Controller.with_error e) o).
Hypothesis I_errorString : forall v o, I o -> I (Controller.with_errorString v o).
Hypothesis I_central :
  forall c o, I o -> I (Controller.update_read (Controller.with_central c) o).
Hypothesis I_isActive :
  forall b o, I o -> I (Controller.update_read (Controller.with_isActive b) o).
Hypothesis I_robotService :
  forall r o, I o -> I (Controller.update_read (Controller.with_robotService r) o).
Hypothesis I_knownDevices :
  forall a o, existsb (Z.eqb a) (Controller.m_knownDevices o) = false ->
              I o -> I (Controller.with_knownDevices (Controller.m_knownDevices o ++ [a]) o).
Hypothesis Q_other : forall e, Controller.not_stateChanged e -> Q e.

Lemma keeps_bind {A B} (m : Controller.C A) (k : A -> Controller.C B) :
  Controller.keeps I Q m -> (forall a, Controller.keeps I Q (k a)) ->
  Controller.keeps I Q (Controller.bind m k).
Proof.
  unfold Controller.keeps. intros Hm Hk o Ho. rewrite C_bind_eq.
  autorewrite with ctuple. destruct (Hm o Ho) as [H1 H2].
  destruct (Hk (fst (fst (m o))) _ H1) as [H3 H4].
  split; [exact H3|]. apply Forall_app. split; assumption.
Qed.

Lemma keeps_ret {A} (a : A) : Controller.keeps I Q (Controller.ret a).
Proof. intros o Ho. split; [exact Ho|constructor]. Qed.

Lemma keeps_get : Controller.keeps I Q Controller.get.
Proof. intros o Ho. split; [exact Ho|constructor]. Qed.

Lemma keeps_emit (e : Controller.Effect) :
  Controller.not_stateChanged e -> Controller.keeps I Q (Controller.emit e).
Proof. intros He o Ho. split; [exact Ho|]. repeat constructor. apply Q_other. exact He. Qed.

Lemma keeps_modify (f : Controller.Members -> Controller.Members) :
  (forall o, I o -> I (f o)) -> Controller.keeps I Q (Controller.modify f).
Proof. intros Hf o Ho. split; [apply Hf; exact Ho|constructor]. Qed.

Lemma keeps_checkState : Controller.keeps I Q Controller.checkState.
Proof. intros o Ho. rewrite C_checkState_eq. apply I_checkState. exact Ho. Qed.

Lemma keeps_guarded {A} (body : Controller.C A) :
  Controller.keeps I Q body -> Controller.keeps I Q (Controller.guarded body).
Proof.
  intros Hb. unfold Controller.guarded. apply keeps_bind; [exact Hb|]. intros a.
  apply keeps_bind; [apply keeps_checkState|]. intros _. apply keeps_ret.
Qed.

Lemma keeps_raiseError (e : Controller.Error) (text : string) :
  e <> Controller.NoError -> Controller.keeps I Q (Controller.raiseError e text).
Proof.
  intros He. unfold Controller.raiseError. apply keeps_guarded.
  apply keeps_bind; [apply keeps_modify; intros o; apply I_error; exact He|]. intros _.
  apply keeps_bind; [apply keeps_modify; intros o; apply I_errorString|]. intros _.
  apply keeps_emit. exact Logic.I.
Qed.

Lemma keeps_resetCentral : Controller.keeps I Q Controller.resetCentral.
Proof.
  unfold Controller.resetCentral. apply keeps_guarded.
  apply keeps_bind; [apply keeps_get|]. intros o.
  destruct (Controller.m_central (Controller.read_by_state o)); [|apply keeps_ret].
  apply keeps_bind; [apply keeps_modify; intros o'; apply I_central|]. intros _.
  apply keeps_bind; apply keeps_emit || (intros _; apply keeps_emit); exact Logic.I.
Qed.

Lemma keeps_onDeviceDiscovered (address : Z) (name : string) (central : Central) :
  Controller.keeps I Q (Controller.onDeviceDiscovered address name central).
Proof.
  intros o Ho. unfold Controller.onDeviceDiscovered. rewrite C_get_bind.
  destruct (existsb (Z.eqb address) (Controller.m_knownDevices o)) eqn:Hk;
    [apply keeps_ret; exact Ho|].
  revert o Ho Hk.
  assert (Hrest : forall o0 : Controller.Members,
             Controller.keeps I Q
               (if String.eqb name "Evolution-Robot"
                   && match Controller.m_central (Controller.read_by_state o0) with
                      | Some _ => false
                      | None => true
                      end
                then Controller.guarded
                       (Controller.bind (Controller.emit Controller.discoveryStop)
                          (fun _ =>
                             Controller.bind
                               (Controller.modify
                                  (Controller.update_read (Controller.with_isActive false)))
                               (fun _ =>
                                  Controller.bind
                                    (Controller.modify
                                       (Controller.update_read
                                          (Controller.with_central (Some central))))
                                    (fun _ => Controller.emit Controller.connectToDevice))))
                else Controller.ret tt)).
  { intros o0. destruct (_ && _); [|apply keeps_ret].
    apply keeps_guarded.
    apply keeps_bind; [apply keeps_emit; exact Logic.I|]. intros _.
    apply keeps_bind; [apply keeps_modify; intros o'; apply I_isActive|]. intros _.
    apply keeps_bind; [apply keeps_modify; intros o'; apply I_central|]. intros _.
    apply keeps_emit. exact Logic.I. }
  intros o Ho Hk. rewrite C_modify_bind. apply Hrest.
  apply I_knownDevices; assumption.
Qed.

Lemma keeps_onHostStateChanged (mode : Controller.HostMode) :
  Controller.keeps I Q (Controller.onHostStateChanged mode).
Proof.
  unfold Controller.onHostStateChanged. apply keeps_guarded.
  destruct mode; try (apply keeps_emit; exact Logic.I);
    (apply keeps_bind; [apply keeps_emit; exact Logic.I|]; intros _;
     apply keeps_modify; intros o; apply I_isActive).
Qed.

Lemma keeps_relay (out : list RobotService.Effect) :
  Controller.keeps I Q (Controller.relay out).
Proof.
  induction out as [|e rest IH]; simpl; [apply keeps_ret|].
  apply keeps_bind; [apply keeps_emit; exact Logic.I|]. intros _.
  apply keeps_bind; [|intros _; exact IH].
  destruct e; try apply keeps_ret. apply I_checkState.
Qed.

(** Every event keeps what the primitive changes keep. *)
Lemma step_keeps (o o' : Controller.Members) (e : Controller.Event)
    (out : list Controller.Effect) :
  Controller.step o e = Some (o', out) -> I o -> I o' /\ Forall Q out.
Proof.
  destruct e as [address name central|mode|text| | |text| |e']; unfold Controller.step.
  - unfold Controller.done. intros [= <- <-] Ho.
    apply keeps_onDeviceDiscovered. exact Ho.
  - unfold Controller.done. intros [= <- <-] Ho. apply keeps_onHostStateChanged. exact Ho.
  - unfold Controller.done, Controller.onDeviceDiscoveryError. intros [= <- <-] Ho.
    apply keeps_raiseError; [discriminate|exact Ho].
  - unfold Controller.done, Controller.onDeviceDiscoveryFinished. intros [= <- <-] Ho.
    apply (keeps_guarded (Controller.ret tt) (keeps_ret tt)). apply I_isActive. exact Ho.
  - unfold Controller.onDeviceConnected.
    destruct (Controller.m_central (Controller.read_by_state o)); [|discriminate].
    cbv zeta. intros [= <- <-] Ho.
    apply (keeps_guarded _ (keeps_emit Controller.discoverServices Logic.I)). exact Ho.
  - unfold Controller.onDeviceError.
    destruct (Controller.m_central (Controller.read_by_state o)); [|discriminate].
    cbv zeta. intros [= <- <-] Ho.
    apply (keeps_bind (Controller.raiseError Controller.DeviceError text)
             (fun _ => Controller.resetCentral)); [| |exact Ho].
    + apply keeps_raiseError. discriminate.
    + intros _. apply keeps_resetCentral.
  - unfold Controller.onServiceDiscoveryFinished.
    destruct (Controller.m_central (Controller.read_by_state o)) as [central|];
      [|discriminate].
    destruct (attach central _) as [[[attached session] rout]|]; [|discriminate].
    cbv zeta. intros [= <- <-] Ho.
    refine (keeps_guarded _ _ o Ho).
    apply keeps_bind; [apply keeps_modify; intros o0; apply I_robotService|]. intros _.
    apply keeps_bind; [apply keeps_relay|]. intros _.
    destruct (negb attached); [apply keeps_resetCentral|apply keeps_ret].
  - destruct (RobotService.step _ e') as [[session rout]|]; [|discriminate].
    unfold Controller.done. intros [= <- <-] Ho.
    refine (keeps_bind _ _ _ _ o Ho).
    + apply keeps_modify. intros o0. apply I_robotService.
    + intros _. apply keeps_relay.
Qed.

Lemma run_keeps (events : list Controller.Event) (o o' : Controller.Members)
    (out : list Controller.Effect) :
  Controller.run o events = Some (o', out) -> I o -> I o' /\ Forall Q out.
Proof.
  revert o out. induction events as [|e rest IH]; intros o out; simpl.
  - intros [= <- <-] Ho. split; [exact Ho|constructor].
  - destruct (Controller.step o e) as [[o1 e1]|] eqn:Hs; [|discriminate].
    destruct (Controller.run o1 rest) as [[o2 e2]|] eqn:Hr; [|discriminate].
    intros [= <- <-] Ho. destruct (step_keeps o o1 e e1 Hs Ho) as [H1 H2].
    destruct (IH o1 e2 Hr H1) as [H3 H4].
    split; [exact H3|]. apply Forall_app. split; assumption.
Qed.

End ControllerKeeps.

(** ** Errors and known devices *)

Section ControllerErrors.
Context {P : Platform}.

Lemma C_state_events_none (out : list Controller.Effect) :
  Forall Controller.not_stateChanged out -> Controller.state_events out = [].
Proof.
  induction 1 as [|e out He _ IH]; simpl; [reflexivity|].
  destruct e; simpl in He; try contradiction; exact IH.
Qed.

Lemma in_error_checkState_when (rs : State) :
  Controller.keeps Controller.in_error Controller.not_stateChanged
    (Controller.checkState_when rs).
Proof.
  intros o [He Hold]. rewrite checkState_when_eq.
  rewrite (C_state_when_error rs _ He), Hold. simpl.
  split; [split; assumption|constructor].
Qed.

Lemma run_in_error (events : list Controller.Event) (o o' : Controller.Members)
    (out : list Controller.Effect) :
  Controller.run o events = Some (o', out) ->
  Controller.in_error o ->
  Controller.in_error o' /\ Forall Controller.not_stateChanged out.
Proof.
  apply (run_keeps Controller.in_error Controller.not_stateChanged).
  - apply in_error_checkState_when.
  - intros e o0 He [_ Hold]. split; [destruct e; [contradiction| | |]; discriminate|].
    exact Hold.
  - intros v o0 Ho. exact Ho.
  - intros c o0 Ho. exact Ho.
  - intros b o0 Ho. exact Ho.
  - intros r o0 Ho. exact Ho.
  - intros a o0 _ Ho. exact Ho.
  - intros e He. exact He.
Qed.

Lemma checkState_when_oldState (rs : State) (o : Controller.Members) :
  Controller.m_oldState (Controller.members_after (Controller.checkState_when rs o))
  = Controller.state_when rs (Controller.read_by_state o)
  /\ Controller.read_by_state (Controller.members_after (Controller.checkState_when rs o))
     = Controller.read_by_state o
  /\ Controller.m_knownDevices (Controller.members_after (Controller.checkState_when rs o))
     = Controller.m_knownDevices o
  /\ Controller.m_errorString (Controller.members_after (Controller.checkState_when rs o))
     = Controller.m_errorString o.
Proof.
  rewrite checkState_when_eq.
  destruct (Controller.State_eqb (Controller.m_oldState o)
              (Controller.state_when rs (Controller.read_by_state o))) eqn:He;
    simpl negb; cbv iota; autorewrite with ctuple; repeat split.
  apply C_State_eqb_eq. exact He.
Qed.

(** After a guarded body the state last announced is the state derived
    from the members, which the final [checkState()] does not change. *)
Lemma guarded_eq {A} (body : Controller.C A) (o : Controller.Members) :
  Controller.guarded body o
  = (fst (fst (body o)),
     Controller.members_after (Controller.checkState (Controller.members_after (body o))),
     Controller.effects_of (body o)
     ++ Controller.effects_of (Controller.checkState (Controller.members_after (body o)))).
Proof.
  unfold Controller.guarded. rewrite C_bind_eq.
  set (o1 := Controller.members_after (body o)).
  rewrite C_bind_eq. unfold Controller.ret. autorewrite with ctuple.
  rewrite app_nil_r. reflexivity.
Qed.

Lemma guarded_announced {A} (body : Controller.C A) (o : Controller.Members) :
  let o' := Controller.members_after (Controller.guarded body o) in
  Controller.m_oldState o' = Controller.state (Controller.read_by_state o')
  /\ Controller.read_by_state o'
     = Controller.read_by_state (Controller.members_after (body o))
  /\ Controller.m_knownDevices o'
     = Controller.m_knownDevices (Controller.members_after (body o))
  /\ Controller.m_errorString o'
     = Controller.m_errorString (Controller.members_after (body o)).
Proof.
  cbv zeta. rewrite guarded_eq. autorewrite with ctuple. rewrite C_checkState_eq.
  destruct (checkState_when_oldState
              (state (Controller.m_robotService
                        (Controller.read_by_state (Controller.members_after (body o)))))
              (Controller.members_after (body o))) as (H1 & H2 & H3 & H4).
  rewrite H1, H2, H3, H4. repeat split.
Qed.

Lemma raiseError_members (e : Controller.Error) (text : string) (o : Controller.Members) :
  let o' := Controller.members_after (Controller.raiseError e text o) in
  Controller.read_by_state o' = Controller.with_error e (Controller.read_by_state o)
  /\ Controller.m_errorString o' = text
  /\ Controller.m_knownDevices o' = Controller.m_knownDevices o
  /\ Controller.m_oldState o' = Controller.state (Controller.read_by_state o').
Proof.
  cbv zeta. unfold Controller.raiseError.
  match goal with
  | |- context [Controller.guarded ?b o] =>
      destruct (guarded_announced b o) as (H1 & H2 & H3 & H4);
      assert (Hb : Controller.members_after (b o)
                   = Controller.with_errorString text
                       (Controller.update_read (Controller.with_error e) o))
  end.
  { rewrite C_modify_bind, C_modify_bind. reflexivity. }
  cbv zeta in H1. rewrite Hb in H2, H3, H4. rewrite H2, H3, H4.
  repeat split. rewrite H1, H2. reflexivity.
Qed.

Lemma raiseError_in_error (e : Controller.Error) (text : string) (o : Controller.Members) :
  e <> Controller.NoError ->
  Controller.in_error (Controller.members_after (Controller.raiseError e text o)).
Proof.
  intros He. destruct (raiseError_members e text o) as (H1 & _ & _ & H4).
  cbv zeta in H1, H4. unfold Controller.in_error. rewrite H4, H1. split.
  - simpl. exact He.
  - rewrite C_state_when. apply C_state_when_error. simpl. exact He.
Qed.

Lemma resetCentral_keeps_in_error :
  Controller.keeps Controller.in_error Controller.not_stateChanged Controller.resetCentral.
Proof.
  apply (keeps_resetCentral Controller.in_error Controller.not_stateChanged).
  - apply in_error_checkState_when.
  - intros c o Ho. exact Ho.
  - intros e He. exact He.
Qed.

(** An error is terminal. After a discovery error or a device error,
    whatever events follow (signals of the adapter, of the discovery, of
    the central, or events of the robot session), an error stays
    recorded, the derived state is Error, and no state change is ever
    announced again. *)
Theorem controller_error_is_terminal (o o1 o' : Controller.Members)
    (e : Controller.Event) (text : string) (events : list Controller.Event)
    (out1 out : list Controller.Effect) :
  e = Controller.EvDeviceDiscoveryError text \/ e = Controller.EvDeviceError text ->
  Controller.step o e = Some (o1, out1) ->
  Controller.run o1 events = Some (o', out) ->
  Controller.error_events out1 <> []
  /\ Controller.m_error (Controller.read_by_state o') <> Controller.NoError
  /\ Controller.state (Controller.read_by_state o') = Controller.ErrorState
  /\ Controller.m_oldState o' = Controller.ErrorState
  /\ Controller.state_events out = [].
Proof.
  intros He Hs Hrun.
  assert (H1 : Controller.in_error o1 /\ Controller.error_events out1 <> []).
  { destruct He as [-> | ->]; unfold Controller.step in Hs.
    - unfold Controller.done, Controller.onDeviceDiscoveryError in Hs.
      injection Hs as <- <-. split; [apply raiseError_in_error; discriminate|].
      unfold Controller.raiseError. rewrite guarded_eq. autorewrite with ctuple.
      rewrite C_modify_bind, C_modify_bind. simpl. discriminate.
    - unfold Controller.onDeviceError in Hs.
      destruct (Controller.m_central (Controller.read_by_state o)); [|discriminate].
      cbv zeta in Hs. injection Hs as <- <-. rewrite C_bind_eq. autorewrite with ctuple.
      split.
      + apply resetCentral_keeps_in_error. apply raiseError_in_error. discriminate.
      + unfold Controller.raiseError. rewrite guarded_eq. autorewrite with ctuple.
        rewrite C_modify_bind, C_modify_bind. simpl. discriminate. }
  destruct H1 as [Hin Hev].
  destruct (run_in_error events o1 o' out Hrun Hin) as [[Herr Hold] Hq].
  split; [exact Hev|]. split; [exact Herr|]. split.
  - rewrite C_state_when. apply C_state_when_error. exact Herr.
  - split; [exact Hold|]. apply C_state_events_none. exact Hq.
Qed.

Lemma NoDup_snoc (l : list Z) (a : Z) :
  existsb (Z.eqb a) l = false -> NoDup l -> NoDup (l ++ [a]).
Proof.
  intros Ha Hl. induction Hl as [|x l Hx Hl IH]; simpl.
  - constructor; [intros []|constructor].
  - simpl in Ha. apply orb_false_iff in Ha. destruct Ha as [Hax Hal].
    apply Z.eqb_neq in Hax. constructor.
    + intros Hin. apply in_app_or in Hin. destruct Hin as [Hin|[Hin|[]]]; [auto|congruence].
    + apply IH. exact Hal.
Qed.

Lemma keeps_trivial_checkState (I : Controller.Members -> Prop) (rs : State) :
  (forall v o, I o -> I (Controller.with_oldState v o)) ->
  Controller.keeps I (fun _ => True) (Controller.checkState_when rs).
Proof.
  intros HI o Ho. rewrite checkState_when_eq.
  destruct (negb _); autorewrite with ctuple.
  - split; [apply HI; exact Ho|]. repeat constructor.
  - split; [exact Ho|constructor].
Qed.

(** The known devices never hold an address twice, and a device once
    known is ignored for ever: whatever happened since, its discovery
    changes no member and has no effect, be it the robot or not. *)
Theorem known_devices_are_ignored (o o' : Controller.Members)
    (events : list Controller.Event) (out : list Controller.Effect)
    (address : Z) (name : string) (central : Central) :
  Controller.run o events = Some (o', out) ->
  (NoDup (Controller.m_knownDevices o) -> NoDup (Controller.m_knownDevices o'))
  /\ (In address (Controller.m_knownDevices o) ->
      In address (Controller.m_knownDevices o')
      /\ Controller.step o' (Controller.EvDeviceDiscovered address name central)
         = Some (o', [])).
Proof.
  intros Hrun. split.
  - intros Hnd.
    apply (run_keeps (fun o => NoDup (Controller.m_knownDevices o)) (fun _ => True)
             (fun rs => keeps_trivial_checkState
                          (fun o => NoDup (Controller.m_knownDevices o)) rs
                          (fun _ _ H => H))
             (fun _ _ _ H => H) (fun _ _ H => H) (fun _ _ H => H) (fun _ _ H => H)
             (fun _ _ H => H)
             (fun a o0 Ha H => NoDup_snoc _ a Ha H)
             (fun _ _ => Logic.I) events o o' out Hrun Hnd).
  - intros Hin.
    assert (Hin' : In address (Controller.m_knownDevices o')).
    { apply (run_keeps (fun o => In address (Controller.m_knownDevices o)) (fun _ => True)
               (fun rs => keeps_trivial_checkState
                            (fun o => In address (Controller.m_knownDevices o)) rs
                            (fun _ _ H => H))
               (fun _ _ _ H => H) (fun _ _ H => H) (fun _ _ H => H) (fun _ _ H => H)
               (fun _ _ H => H)
               (fun a o0 _ H => in_or_app _ _ _ (or_introl H))
               (fun _ _ => Logic.I) events o o' out Hrun Hin). }
    split; [exact Hin'|].
    unfold Controller.step, Controller.done, Controller.onDeviceDiscovered.
    rewrite C_get_bind.
    assert (Hex : existsb (Z.eqb address) (Controller.m_knownDevices o') = true).
    { apply existsb_exists. exists address. split; [exact Hin'|apply Z.eqb_refl]. }
    rewrite Hex. reflexivity.
Qed.

End ControllerErrors.

(** ** Finding the robot, and losing it *)

Section ControllerLink.
Context {P : Platform}.

Lemma onDeviceDiscovered_eq (address : Z) (name : string) (central : Central)
    (o : Controller.Members) :
  Controller.onDeviceDiscovered address name central o
  = if existsb (Z.eqb address) (Controller.m_knownDevices o) then (tt, o, [])
    else
      let o1 := Controller.with_knownDevices (Controller.m_knownDevices o ++ [address]) o in
      if String.eqb name "Evolution-Robot"
         && match Controller.m_central (Controller.read_by_state o) with
            | Some _ => false
            | None => true
            end
      then
        let o2 := Controller.update_read (Controller.with_central (Some central))
                    (Controller.update_read (Controller.with_isActive false) o1) in
        (tt, Controller.members_after (Controller.checkState o2),
         Controller.discoveryStop :: Controller.connectToDevice
         :: Controller.effects_of (Controller.checkState o2))
      else (tt, o1, []).
Proof.
  unfold Controller.onDeviceDiscovered. rewrite C_get_bind.
  destruct (existsb (Z.eqb address) (Controller.m_knownDevices o)); [reflexivity|].
  rewrite C_modify_bind. cbv zeta.
  destruct (String.eqb name "Evolution-Robot"
            && match Controller.m_central (Controller.read_by_state o) with
               | Some _ => false
               | None => true
               end); [|reflexivity].
  rewrite guarded_eq. rewrite C_emit_bind, C_modify_bind, C_modify_bind.
  autorewrite with ctuple. unfold Controller.emit. autorewrite with ctuple. reflexivity.
Qed.

Lemma checkState_frame (o : Controller.Members) :
  Controller.m_oldState (Controller.members_after (Controller.checkState o))
  = Controller.state (Controller.read_by_state o)
  /\ Controller.read_by_state (Controller.members_after (Controller.checkState o))
     = Controller.read_by_state o
  /\ Controller.m_knownDevices (Controller.members_after (Controller.checkState o))
     = Controller.m_knownDevices o
  /\ Controller.m_errorString (Controller.members_after (Controller.checkState o))
     = Controller.m_errorString o.
Proof. rewrite C_checkState_eq. apply checkState_when_oldState. Qed.

(** The discovery of a device not known yet: its address is remembered.
    If it is named "Evolution-Robot" and the controller has no central,
    the discovery is stopped, the central made for the device is kept
    and asked to connect, and the state announced is the state derived,
    which is ServiceDiscovery unless an error is recorded or the session
    is Connected. Otherwise (another name, or a central is there: the
    first robot wins) nothing else changes and nothing is requested. *)
Theorem first_robot_found_is_connected (o o' : Controller.Members) (address : Z)
    (name : string) (central : Central) (out : list Controller.Effect) :
  existsb (Z.eqb address) (Controller.m_knownDevices o) = false ->
  Controller.step o (Controller.EvDeviceDiscovered address name central) = Some (o', out) ->
  Controller.m_knownDevices o' = Controller.m_knownDevices o ++ [address]
  /\ (name = "Evolution-Robot" ->
      Controller.m_central (Controller.read_by_state o) = None ->
      Controller.m_central (Controller.read_by_state o') = Some central
      /\ In Controller.discoveryStop out
      /\ In Controller.connectToDevice out
      /\ Controller.m_oldState o' = Controller.state (Controller.read_by_state o')
      /\ (Controller.m_error (Controller.read_by_state o) = Controller.NoError ->
          state (Controller.m_robotService (Controller.read_by_state o)) <> ConnectedState ->
          Controller.state (Controller.read_by_state o')
          = Controller.ServiceDiscoveryState))
  /\ (name <> "Evolution-Robot"
      \/ Controller.m_central (Controller.read_by_state o) <> None ->
      Controller.read_by_state o' = Controller.read_by_state o
      /\ Controller.m_oldState o' = Controller.m_oldState o
      /\ out = []).
Proof.
  intros Hnew. unfold Controller.step, Controller.done.
  rewrite onDeviceDiscovered_eq, Hnew. cbv zeta.
  destruct (String.eqb_spec name "Evolution-Robot") as [Hname|Hname].
  - destruct (Controller.m_central (Controller.read_by_state o)) as [c0|] eqn:Hc;
      simpl andb; cbv iota; autorewrite with ctuple; intros [= <- <-].
    + split; [reflexivity|]. split; [discriminate|]. intros _. repeat split.
    + match goal with
      | |- context [Controller.checkState ?x] =>
          destruct (checkState_frame x) as (H1 & H2 & H3 & H4)
      end.
      rewrite H1, H2, H3. simpl. split; [reflexivity|]. split.
      * intros _ _. split; [reflexivity|].
        split; [left; reflexivity|]. split; [right; left; reflexivity|].
        split; [reflexivity|]. intros He Hr. unfold Controller.state. simpl.
        rewrite He. simpl.
        destruct (State_eqb (state (Controller.m_robotService (Controller.read_by_state o)))
                    ConnectedState) eqn:Hs; [|reflexivity].
        apply State_eqb_eq in Hs. contradiction.
      * intros [H|H]; [contradiction|]. contradiction.
  - simpl andb. cbv iota. autorewrite with ctuple. intros [= <- <-].
    split; [reflexivity|]. split; [intros Hn; contradiction|]. intros _. repeat split.
Qed.

Lemma resetCentral_eq (o : Controller.Members) :
  Controller.resetCentral o
  = match Controller.m_central (Controller.read_by_state o) with
    | Some _ =>
        let o1 := Controller.update_read (Controller.with_central None) o in
        (tt, Controller.members_after (Controller.checkState o1),
         Controller.centralDisconnect :: Controller.centralDeleteLater
         :: Controller.effects_of (Controller.checkState o1))
    | None =>
        (tt, Controller.members_after (Controller.checkState o),
         Controller.effects_of (Controller.checkState o))
    end.
Proof.
  unfold Controller.resetCentral. rewrite guarded_eq. rewrite C_get_bind.
  destruct (Controller.m_central (Controller.read_by_state o)).
  - rewrite C_modify_bind, C_emit_bind. unfold Controller.emit.
    autorewrite with ctuple. reflexivity.
  - unfold Controller.ret. autorewrite with ctuple. reflexivity.
Qed.

Lemma resetCentral_members (o : Controller.Members) :
  let o' := Controller.members_after (Controller.resetCentral o) in
  Controller.read_by_state o'
  = Controller.with_central None (Controller.read_by_state o)
  /\ Controller.m_oldState o' = Controller.state (Controller.read_by_state o')
  /\ Controller.m_knownDevices o' = Controller.m_knownDevices o
  /\ Controller.m_errorString o' = Controller.m_errorString o.
Proof.
  cbv zeta. rewrite resetCentral_eq.
  destruct (Controller.m_central (Controller.read_by_state o)) eqn:Hc;
    cbv zeta; autorewrite with ctuple;
    match goal with
    | |- context [Controller.checkState ?x] =>
        destruct (checkState_frame x) as (H1 & H2 & H3 & H4)
    end;
    rewrite H1, H2, H3, H4; repeat split.
  destruct o as [[e a c r] s old known]. simpl in *. subst c. reflexivity.
Qed.

Lemma C_error_events_app (a b : list Controller.Effect) :
  Controller.error_events (a ++ b)
  = Controller.error_events a ++ Controller.error_events b.
Proof.
  induction a as [|e a IH]; simpl; [reflexivity|].
  destruct e; simpl; rewrite IH; reflexivity.
Qed.

Lemma checkState_no_error_events (o : Controller.Members) :
  Controller.error_events (Controller.effects_of (Controller.checkState o)) = [].
Proof.
  rewrite C_checkState_eq, checkState_when_eq. destruct (negb _); reflexivity.
Qed.

(** An error of the central: without a central the handler dereferences
    [nullptr]. With one, the error and its text are recorded and
    announced once, the central is released and forgotten, the derived
    and the announced state are Error, and the robot session, the known
    devices and the discovery are left as they are. *)
Theorem device_error_releases_the_central (o : Controller.Members) (text : string) :
  (Controller.m_central (Controller.read_by_state o) = None ->
   Controller.step o (Controller.EvDeviceError text) = None)
  /\ (Controller.m_central (Controller.read_by_state o) <> None ->
      exists o' out,
        Controller.step o (Controller.EvDeviceError text) = Some (o', out)
        /\ Controller.read_by_state o'
           = Controller.with_central None
               (Controller.with_error Controller.DeviceError (Controller.read_by_state o))
        /\ Controller.m_errorString o' = text
        /\ Controller.m_knownDevices o' = Controller.m_knownDevices o
        /\ Controller.state (Controller.read_by_state o') = Controller.ErrorState
        /\ Controller.m_oldState o' = Controller.ErrorState
        /\ Controller.error_events out = [Controller.DeviceError]
        /\ In Controller.centralDisconnect out
        /\ In Controller.centralDeleteLater out).
Proof.
  unfold Controller.step, Controller.onDeviceError. split.
  - intros ->. reflexivity.
  - intros Hc.
    destruct (Controller.m_central (Controller.read_by_state o)) as [c|] eqn:Hc';
      [|contradiction].
    cbv zeta. eexists. eexists. split; [reflexivity|].
    rewrite C_bind_eq. autorewrite with ctuple.
    destruct (raiseError_members Controller.DeviceError text o) as (R1 & R2 & R3 & R4).
    cbv zeta in R1, R2, R3, R4.
    set (o1 := Controller.members_after (Controller.raiseError Controller.DeviceError text o))
      in *.
    destruct (resetCentral_members o1) as (S1 & S2 & S3 & S4). cbv zeta in S1, S2, S3, S4.
    assert (Hc1 : Controller.m_central (Controller.read_by_state o1) = Some c).
    { rewrite R1. simpl. exact Hc'. }
    rewrite S1, S2, S3, S4, S1, R1, R2, R3.
    split; [reflexivity|]. split; [reflexivity|]. split; [reflexivity|].
    split; [reflexivity|]. split; [reflexivity|].
    rewrite resetCentral_eq, Hc1. cbv zeta. autorewrite with ctuple.
    split.
    + rewrite C_error_events_app. simpl. rewrite checkState_no_error_events.
      unfold o1, Controller.raiseError. rewrite guarded_eq. autorewrite with ctuple.
      rewrite C_modify_bind, C_modify_bind. unfold Controller.emit. autorewrite with ctuple.
      simpl. rewrite checkState_no_error_events. reflexivity.
    + split; apply in_or_app; right; simpl; auto.
Qed.




(** The controller's own handlers keep the announced state in step with
    the derived state: if they agree before a signal of the adapter, the
    discovery or the central is handled, they agree after it; and after
    every such handler but the discovery of a device they agree in any
    case. *)
Theorem announced_state_is_the_derived_state (o o' : Controller.Members)
    (e : Controller.Event) (out : list Controller.Effect) :
  Controller.step o e = Some (o', out) ->
  (forall e', e <> Controller.EvRobot e') ->
  Controller.m_oldState o = Controller.state (Controller.read_by_state o)
  \/ (forall address name central, e <> Controller.EvDeviceDiscovered address name central) ->
  Controller.m_oldState o' = Controller.state (Controller.read_by_state o').
Proof.
  destruct e as [address name central|mode|text| | |text| |e']; unfold Controller.step;
    intros Hs Hnot Hpre.
  - unfold Controller.done in Hs. rewrite onDeviceDiscovered_eq in Hs.
    destruct Hpre as [Hpre|Hpre]; [|exfalso; apply (Hpre address name central); reflexivity].
    destruct (existsb (Z.eqb address) (Controller.m_knownDevices o)).
    + injection Hs as <- <-. exact Hpre.
    + cbv zeta in Hs. destruct (_ && _).
      * autorewrite with ctuple in Hs. injection Hs as <- <-.
        match goal with
        | |- context [Controller.checkState ?x] =>
            destruct (checkState_frame x) as (H1 & H2 & _)
        end.
        rewrite H1, H2. reflexivity.
      * injection Hs as <- <-. exact Hpre.
  - unfold Controller.done in Hs. injection Hs as <- <-.
    apply (guarded_announced _ o).
  - unfold Controller.done, Controller.onDeviceDiscoveryError in Hs. injection Hs as <- <-.
    apply (raiseError_members Controller.DeviceDiscoveryError text o).
  - unfold Controller.done, Controller.onDeviceDiscoveryFinished in Hs.
    injection Hs as <- <-. apply (guarded_announced (Controller.ret tt)).
  - unfold Controller.onDeviceConnected in Hs.
    destruct (Controller.m_central (Controller.read_by_state o)); [|discriminate].
    cbv zeta in Hs. injection Hs as <- <-. apply (guarded_announced _ o).
  - unfold Controller.onDeviceError in Hs.
    destruct (Controller.m_central (Controller.read_by_state o)); [|discriminate].
    cbv zeta in Hs. injection Hs as <- <-. rewrite C_bind_eq. autorewrite with ctuple.
    apply (resetCentral_members _).
  - unfold Controller.onServiceDiscoveryFinished in Hs.
    destruct (Controller.m_central (Controller.read_by_state o)); [|discriminate].
    destruct (attach _ _) as [[[attached session] rout]|]; [|discriminate].
    cbv zeta in Hs. injection Hs as <- <-. apply (guarded_announced _ o).
  - exfalso. apply (Hnot e'). reflexivity.
Qed.

End ControllerLink.

(** ** The state announcements of the controller *)

Section ControllerAnnouncements.
Context {P : Platform}.

Lemma C_state_events_app (a b : list Controller.Effect) :
  Controller.state_events (a ++ b)
  = Controller.state_events a ++ Controller.state_events b.
Proof.
  induction a as [|e a IH]; simpl; [reflexivity|].
  destruct e; simpl; rewrite IH; reflexivity.
Qed.

Lemma C_announces_app (a b c : Controller.State)
    (l1 l2 : list (Controller.State * Controller.State)) :
  Controller.announces a l1 b -> Controller.announces b l2 c ->
  Controller.announces a (l1 ++ l2) c.
Proof.
  revert a. induction l1 as [|[n o] l1 IH]; intros a; simpl.
  - intros ->. auto.
  - intros (Ho & Hne & Hr) H2. repeat split; auto.
Qed.

Lemma cchains_bind {A B} (m : Controller.C A) (k : A -> Controller.C B)
    (o : Controller.Members) :
  Controller.chains o (m o) -> (forall a o1, Controller.chains o1 (k a o1)) ->
  Controller.chains o (Controller.bind m k o).
Proof.
  unfold Controller.chains. intros Hm Hk. rewrite C_bind_eq. autorewrite with ctuple.
  rewrite C_state_events_app. eapply C_announces_app; [exact Hm|apply Hk].
Qed.

Lemma cchains_checkState_when (rs : State) (o : Controller.Members) :
  Controller.chains o (Controller.checkState_when rs o).
Proof.
  unfold Controller.chains. rewrite checkState_when_eq.
  destruct (Controller.State_eqb (Controller.m_oldState o)
              (Controller.state_when rs (Controller.read_by_state o))) eqn:He;
    simpl negb; cbv iota; autorewrite with ctuple; simpl; [reflexivity|].
  repeat split. intros Heq. symmetry in Heq. apply C_State_eqb_eq in Heq. congruence.
Qed.

Lemma cchains_checkState (o : Controller.Members) :
  Controller.chains o (Controller.checkState o).
Proof. rewrite C_checkState_eq. apply cchains_checkState_when. Qed.

Ltac cchains_leaf :=
  solve [ unfold Controller.chains, Controller.ret, Controller.get, Controller.modify,
            Controller.emit; cbn; reflexivity
        | apply cchains_checkState
        | apply cchains_checkState_when ].

Ltac cchains_walk :=
  repeat first
    [ cchains_leaf
    | match goal with
      | |- Controller.chains ?o (Controller.bind _ _ ?o) =>
          apply cchains_bind; [|intros ? ?]
      | |- Controller.chains _ ((if ?c then _ else _) _) => destruct c
      | |- Controller.chains _ (match ?x with _ => _ end _) => destruct x
      end ].

Lemma cchains_raiseError (e : Controller.Error) (text : string) (o : Controller.Members) :
  Controller.chains o (Controller.raiseError e text o).
Proof. unfold Controller.raiseError, Controller.guarded. cchains_walk. Qed.

Lemma cchains_resetCentral (o : Controller.Members) :
  Controller.chains o (Controller.resetCentral o).
Proof. unfold Controller.resetCentral, Controller.guarded. cchains_walk. Qed.

Lemma cchains_onDeviceDiscovered (address : Z) (name : string) (central : Central)
    (o : Controller.Members) :
  Controller.chains o (Controller.onDeviceDiscovered address name central o).
Proof. unfold Controller.onDeviceDiscovered, Controller.guarded. cchains_walk. Qed.

Lemma cchains_onHostStateChanged (mode : Controller.HostMode) (o : Controller.Members) :
  Controller.chains o (Controller.onHostStateChanged mode o).
Proof. unfold Controller.onHostStateChanged, Controller.guarded. cchains_walk. Qed.

Lemma cchains_relay (out : list RobotService.Effect) (o : Controller.Members) :
  Controller.chains o (Controller.relay out o).
Proof.
  revert o. induction out as [|e rest IH]; intros o; simpl; [cchains_leaf|].
  apply cchains_bind; [cchains_leaf|]. intros _ o1.
  apply cchains_bind; [|intros _ o2; apply IH].
  destruct e; cchains_leaf.
Qed.

Lemma step_cchains (o o' : Controller.Members) (e : Controller.Event)
    (out : list Controller.Effect) :
  Controller.step o e = Some (o', out) ->
  Controller.announces (Controller.m_oldState o) (Controller.state_events out)
    (Controller.m_oldState o').
Proof.
  destruct e as [address name central|mode|text| | |text| |e']; unfold Controller.step.
  - unfold Controller.done. intros [= <- <-]. apply cchains_onDeviceDiscovered.
  - unfold Controller.done. intros [= <- <-]. apply cchains_onHostStateChanged.
  - unfold Controller.done, Controller.onDeviceDiscoveryError. intros [= <- <-].
    apply cchains_raiseError.
  - unfold Controller.done, Controller.onDeviceDiscoveryFinished. intros [= <- <-].
    apply (cchains_bind (Controller.ret tt)
             (fun a => Controller.bind Controller.checkState (fun _ => Controller.ret a))
             (Controller.update_read (Controller.with_isActive false) o)).
    + cchains_leaf.
    + intros a o1. cchains_walk.
  - unfold Controller.onDeviceConnected.
    destruct (Controller.m_central (Controller.read_by_state o)); [|discriminate].
    cbv zeta. intros [= <- <-]. unfold Controller.guarded.
    change (Controller.chains o
              (Controller.bind (Controller.emit Controller.discoverServices)
                 (fun a => Controller.bind Controller.checkState
                             (fun _ => Controller.ret a)) o)).
    cchains_walk.
  - unfold Controller.onDeviceError.
    destruct (Controller.m_central (Controller.read_by_state o)); [|discriminate].
    cbv zeta. intros [= <- <-].
    apply (cchains_bind (Controller.raiseError Controller.DeviceError text)
             (fun _ => Controller.resetCentral)).
    + apply cchains_raiseError.
    + intros _ o1. apply cchains_resetCentral.
  - unfold Controller.onServiceDiscoveryFinished.
    destruct (Controller.m_central (Controller.read_by_state o)) as [central|];
      [|discriminate].
    destruct (attach central _) as [[[attached session] rout]|]; [|discriminate].
    cbv zeta. intros [= <- <-]. unfold Controller.guarded.
    match goal with
    | |- Controller.announces _ (Controller.state_events (Controller.effects_of ?r)) _ =>
        change (Controller.chains o r)
    end.
    apply cchains_bind; [|intros a o1; cchains_walk].
    apply cchains_bind; [cchains_leaf|]. intros _ o1.
    apply cchains_bind; [apply cchains_relay|]. intros _ o2.
    destruct (negb attached); [apply cchains_resetCentral|cchains_leaf].
  - destruct (RobotService.step _ e') as [[session rout]|]; [|discriminate].
    unfold Controller.done. intros [= <- <-].
    match goal with
    | |- Controller.announces _ (Controller.state_events (Controller.effects_of ?r)) _ =>
        change (Controller.chains o r)
    end.
    apply cchains_bind; [cchains_leaf|]. intros _ o1. apply cchains_relay.
Qed.

Lemma run_cchains (events : list Controller.Event) (o o' : Controller.Members)
    (out : list Controller.Effect) :
  Controller.run o events = Some (o', out) ->
  Controller.announces (Controller.m_oldState o) (Controller.state_events out)
    (Controller.m_oldState o').
Proof.
  revert o out. induction events as [|e rest IH]; intros o out; simpl.
  - intros [= <- <-]. reflexivity.
  - destruct (Controller.step o e) as [[o1 e1]|] eqn:Hs; [|discriminate].
    destruct (Controller.run o1 rest) as [[o2 e2]|] eqn:Hr; [|discriminate].
    intros [= <- <-]. rewrite C_state_events_app.
    eapply C_announces_app; [eapply step_cchains; exact Hs|]. apply IH. exact Hr.
Qed.

Lemma not_to_Connecting_checkState_when (rs : State) :
  Controller.keeps (fun _ => True) Controller.not_to_Connecting
    (Controller.checkState_when rs).
Proof.
  intros o _. split; [exact Logic.I|]. rewrite checkState_when_eq.
  destruct (negb _); autorewrite with ctuple; [|constructor].
  repeat constructor. simpl. apply C_state_when_not_Connecting.
Qed.

Lemma not_stateChanged_not_to_Connecting (e : Controller.Effect) :
  Controller.not_stateChanged e -> Controller.not_to_Connecting e.
Proof. destruct e; simpl; auto; intros []. Qed.

(** From its construction on and over any sequence of events, the
    [stateChanged] signals of the controller form a chain that starts at
    Uninitialized: each carries as old state the new state of the one
    before, none announces a state as changed into itself, the last
    carries the state the controller remembers as announced, and none
    ever announces Connecting. *)
Theorem controller_announcements_chain (adapter : bool) (mode : Controller.HostMode)
    (events : list Controller.Event) (o' : Controller.Members)
    (out : list Controller.Effect) :
  Controller.run (fst (Controller.construct adapter mode)) events = Some (o', out) ->
  Controller.announces Controller.UninitializedState
    (Controller.state_events (snd (Controller.construct adapter mode) ++ out))
    (Controller.m_oldState o')
  /\ Forall Controller.not_to_Connecting (snd (Controller.construct adapter mode) ++ out).
Proof.
  intros Hrun. split.
  - rewrite C_state_events_app.
    eapply C_announces_app; [|exact (run_cchains events _ o' out Hrun)].
    unfold Controller.construct. cbv zeta. simpl fst. simpl snd.
    destruct (negb adapter).
    + apply (cchains_raiseError _ _ Controller.members_initial).
    + apply (cchains_onHostStateChanged mode Controller.members_initial).
  - apply Forall_app. split.
    + unfold Controller.construct. cbv zeta. simpl snd. destruct (negb adapter).
      * apply (keeps_raiseError (fun _ => True) Controller.not_to_Connecting
                 not_to_Connecting_checkState_when (fun _ _ _ H => H) (fun _ _ H => H)
                 not_stateChanged_not_to_Connecting
                 Controller.BluetoothMissingError _ ltac:(discriminate)
                 Controller.members_initial Logic.I).
      * apply (keeps_onHostStateChanged (fun _ => True) Controller.not_to_Connecting
                 not_to_Connecting_checkState_when (fun _ _ H => H)
                 not_stateChanged_not_to_Connecting mode
                 Controller.members_initial Logic.I).
    + apply (run_keeps (fun _ => True) Controller.not_to_Connecting
               not_to_Connecting_checkState_when
               (fun _ _ _ H => H) (fun _ _ H => H) (fun _ _ H => H) (fun _ _ H => H)
               (fun _ _ H => H) (fun _ _ _ H => H)
               not_stateChanged_not_to_Connecting events _ o' out Hrun Logic.I).
Qed.

End ControllerAnnouncements.

(** The robot is found, its central fails, the adapter and a headset
    are heard of afterwards. *)
Lemma controller_error_is_terminal_witness :
  exists o',
    (exists out,
        @Controller.run signed_char
          (Controller.with_errorString "lost"
             (Controller.update_read
                (fun d => Controller.with_central None
                            (Controller.with_error Controller.DeviceError d))
                (Controller.with_oldState Controller.ErrorState Controller.found)))
          [Controller.EvHostStateChanged Controller.HostConnectable; Controller.headset]
        = Some (o', out))
    /\ Controller.state (Controller.read_by_state o') = Controller.ErrorState.
Proof.
  eexists. split; [eexists; reflexivity|].
  exact (proj1 (proj2 (proj2
           (@controller_error_is_terminal signed_char Controller.found _ _
              (Controller.EvDeviceError "lost") "lost"
              [Controller.EvHostStateChanged Controller.HostConnectable; Controller.headset]
              _ _ (or_intror eq_refl) eq_refl eq_refl)))).
Defined.

(** A headset discovered twice. *)
Lemma known_devices_are_ignored_witness :
  exists o',
    (exists out, @Controller.run signed_char Controller.scanning [Controller.headset]
                 = Some (o', out))
    /\ @Controller.step signed_char o' Controller.headset = Some (o', []).
Proof.
  eexists. split; [eexists; reflexivity|].
  refine (proj2 (proj2 (@known_devices_are_ignored signed_char
                          (Controller.with_knownDevices [2] Controller.scanning) _
                          [] _ 2 "Headset" robot_central eq_refl) _)).
  left. reflexivity.
Defined.

(** The robot discovered while scanning. *)
Lemma first_robot_found_is_connected_witness :
  Controller.m_central (Controller.read_by_state Controller.found) = Some robot_central
  /\ Controller.state (Controller.read_by_state Controller.found)
     = Controller.ServiceDiscoveryState.
Proof.
  destruct (@first_robot_found_is_connected signed_char Controller.scanning Controller.found
              1 "Evolution-Robot" robot_central _ eq_refl eq_refl) as (_ & Hrobot & _).
  destruct (Hrobot eq_refl eq_refl) as (Hc & _ & _ & _ & Hs).
  split; [exact Hc|]. apply Hs; [reflexivity|discriminate].
Defined.

(** The adapter is switched on while the controller scans. *)
Lemma announced_state_is_the_derived_state_witness :
  exists o',
    (exists out,
        @Controller.step signed_char Controller.scanning
          (Controller.EvHostStateChanged Controller.HostConnectable) = Some (o', out))
    /\ Controller.m_oldState o' = Controller.state (Controller.read_by_state o').
Proof.
  eexists. split; [eexists; reflexivity|].
  refine (@announced_state_is_the_derived_state signed_char Controller.scanning _
            (Controller.EvHostStateChanged Controller.HostConnectable) _ eq_refl _ _).
  - intros e'. discriminate.
  - left. reflexivity.
Defined.

(** The central of the robot fails. *)
Lemma device_error_releases_the_central_witness :
  exists o' out,
    @Controller.step signed_char Controller.found (Controller.EvDeviceError "lost")
    = Some (o', out)
    /\ Controller.m_central (Controller.read_by_state o') = None
    /\ Controller.error_events out = [Controller.DeviceError].
Proof.
  destruct (proj2 (@device_error_releases_the_central signed_char Controller.found "lost")
              ltac:(discriminate))
    as (o' & out & Hs & Hr & _ & _ & _ & _ & He & _).
  exists o', out. split; [exact Hs|]. split; [rewrite Hr; reflexivity|exact He].
Defined.


(** A clean run: scanning, the robot found, its services discovered. *)
Lemma controller_announcements_chain_witness :
  Controller.announces Controller.UninitializedState
    [(Controller.DeviceDiscoveryState, Controller.UninitializedState);
     (Controller.ServiceDiscoveryState, Controller.DeviceDiscoveryState);
     (Controller.ConnectedState, Controller.ServiceDiscoveryState)]
    Controller.ConnectedState.
Proof.
  exact (proj1 (@controller_announcements_chain signed_char true Controller.HostConnectable
                  Controller.clean_run _ _ eq_refl)).
Defined.

(** ** The firmware revision, and a controller without adapter *)

Section Firmware.
Context {P : Platform}.

Lemma extension_value (d : Private) (index : Z) :
  index <> 0 ->
  value (fragmentForAction d "E" index)
  = clamp index 1 63 + (if m_firmwareRevision d =? 1 then 0x35 else 0x47).
Proof.
  intros Hi.
  change (value (fragmentForAction d "E" index))
    with (to_char (if index =? 0 then 0x3b
                   else qBound 1 index 63
                        + (if m_firmwareRevision d =? 1 then 0x35 else 0x47))).
  destruct (Z.eqb_spec index 0); [contradiction|].
  rewrite qBound_clamp by lia. apply to_char_small.
  apply extension_value_fits. destruct (m_firmwareRevision d =? 1); auto.
Qed.

Lemma readFirmwareVersion_eq (d : Private) :
  readFirmwareVersion d
  = match m_deviceInformation d with
    | Some di =>
        if isValid (characteristic di FirmwareRevisionString) then
          if String.eqb (value_of (characteristic di FirmwareRevisionString)) "Ver2.0"
          then (true, with_firmwareRevision 2 d, [])
          else if String.eqb (value_of (characteristic di FirmwareRevisionString)) "Ver1.0"
               then (true, with_firmwareRevision 1 d, [])
               else (false, d, [])
        else (false, d, [])
    | None => (false, d, [])
    end.
Proof.
  unfold readFirmwareVersion. rewrite get_bind.
  destruct (m_deviceInformation d) as [di|]; [|reflexivity].
  destruct (isValid (characteristic di FirmwareRevisionString)); [|reflexivity].
  destruct (String.eqb (value_of (characteristic di FirmwareRevisionString)) "Ver2.0");
    [rewrite modify_bind; reflexivity|].
  destruct (String.eqb (value_of (characteristic di FirmwareRevisionString)) "Ver1.0");
    [rewrite modify_bind; reflexivity|].
  reflexivity.
Qed.

(** When the device-information service of the session is discovered,
    nothing is emitted and nothing but the firmware revision changes:
    it becomes 1 for "Ver1.0" and 2 for "Ver2.0", and the extension
    action is encoded with the base of that revision from then on; with
    no revision characteristic or any other text the session, and so a
    revision read before, is left as it was. *)
Theorem firmware_revision_is_read_on_discovery (d : Private) (service di : Service)
    (index : Z) :
  m_deviceInformation d = Some di ->
  same_service service (Some di) = true ->
  let r := onServiceStateChanged service ServiceDiscovered d in
  let c := characteristic di FirmwareRevisionString in
  emitted r = []
  /\ (isValid c = true -> value_of c = "Ver1.0" ->
      after r = with_firmwareRevision 1 d
      /\ (index <> 0 ->
          value (fragmentForAction (after r) "E" index) = clamp index 1 63 + 0x35))
  /\ (isValid c = true -> value_of c = "Ver2.0" ->
      after r = with_firmwareRevision 2 d
      /\ (index <> 0 ->
          value (fragmentForAction (after r) "E" index) = clamp index 1 63 + 0x47))
  /\ (isValid c = false \/ (value_of c <> "Ver1.0" /\ value_of c <> "Ver2.0") ->
      after r = d).
Proof.
  intros Hdi Hsame. cbv zeta.
  assert (Hr : onServiceStateChanged service ServiceDiscovered d
               = (tt, after (readFirmwareVersion d), emitted (readFirmwareVersion d))).
  { unfold onServiceStateChanged. rewrite get_bind, Hdi, Hsame. apply bind_ret. }
  rewrite Hr, readFirmwareVersion_eq, Hdi. autorewrite with tuple.
  destruct (isValid (characteristic di FirmwareRevisionString)) eqn:Hv.
  - destruct (String.eqb_spec (value_of (characteristic di FirmwareRevisionString)) "Ver2.0")
      as [H2|H2].
    + autorewrite with tuple. split; [reflexivity|]. split; [|split].
      * intros _ H1. rewrite H2 in H1. discriminate.
      * intros _ _. split; [reflexivity|]. intros Hi.
        rewrite (extension_value _ index Hi). reflexivity.
      * intros [H|[_ H]]; [discriminate|contradiction].
    + destruct (String.eqb_spec (value_of (characteristic di FirmwareRevisionString))
                  "Ver1.0") as [H1|H1].
      * autorewrite with tuple. split; [reflexivity|]. split; [|split].
        -- intros _ _. split; [reflexivity|]. intros Hi.
           rewrite (extension_value _ index Hi). reflexivity.
        -- intros _ H. contradiction.
        -- intros [H|[H _]]; [discriminate|contradiction].
      * autorewrite with tuple. split; [reflexivity|]. split; [|split].
        -- intros _ H. contradiction.
        -- intros _ H. contradiction.
        -- intros _. reflexivity.
  - autorewrite with tuple. split; [reflexivity|]. split; [|split].
    + intros H. discriminate.
    + intros H. discriminate.
    + intros _. reflexivity.
Qed.

Lemma raiseError_effects (e : Controller.Error) (text : string) (o : Controller.Members) :
  Controller.effects_of (Controller.raiseError e text o)
  = Controller.errorOccured e text
    :: Controller.effects_of
         (Controller.checkState
            (Controller.with_errorString text
               (Controller.update_read (Controller.with_error e) o))).
Proof.
  unfold Controller.raiseError. rewrite guarded_eq.
  rewrite C_modify_bind, C_modify_bind. unfold Controller.emit.
  autorewrite with ctuple. reflexivity.
Qed.

(** Without a usable adapter the controller is in Error from its
    construction: the error BluetoothMissingError is recorded and
    announced, neither the adapter nor the discovery is asked for
    anything, and whatever events follow the derived state stays Error
    and no state change is announced. *)
Theorem controller_without_adapter_stays_in_error (mode : Controller.HostMode)
    (events : list Controller.Event) (o' : Controller.Members)
    (out : list Controller.Effect) :
  Controller.run (fst (Controller.construct false mode)) events = Some (o', out) ->
  snd (Controller.construct false mode)
  = [Controller.errorOccured Controller.BluetoothMissingError
       "No Bluetooth controller available";
     Controller.stateChanged Controller.ErrorState Controller.UninitializedState]
  /\ Controller.m_error (Controller.read_by_state o') <> Controller.NoError
  /\ Controller.state (Controller.read_by_state o') = Controller.ErrorState
  /\ Controller.m_oldState o' = Controller.ErrorState
  /\ Controller.state_events out = [].
Proof.
  intros Hrun. split; [reflexivity|].
  assert (Hin : Controller.in_error (fst (Controller.construct false mode))).
  { unfold Controller.construct. simpl negb. cbv iota zeta. simpl fst.
    apply raiseError_in_error. discriminate. }
  destruct (run_in_error events _ o' out Hrun Hin) as [[Herr Hold] Hq].
  split; [exact Herr|]. split.
  - rewrite C_state_when. apply C_state_when_error. exact Herr.
  - split; [exact Hold|]. apply C_state_events_none. exact Hq.
Qed.

End Firmware.

(** The device-information service of the robot, which reports "Ver1.0". *)
Lemma firmware_revision_is_read_on_discovery_witness :
  m_firmwareRevision
    (after (onServiceStateChanged robot_deviceInformation ServiceDiscovered robot_attached))
  = 1
  /\ value (@fragmentForAction signed_char
              (after (onServiceStateChanged robot_deviceInformation ServiceDiscovered
                        robot_attached)) "E" 10)
     = 10 + 0x35.
Proof.
  destruct (@firmware_revision_is_read_on_discovery signed_char robot_attached
              robot_deviceInformation robot_deviceInformation 10 eq_refl eq_refl)
    as (_ & H1 & _).
  destruct (H1 eq_refl eq_refl) as [Ha Hv]. split.
  - rewrite Ha. reflexivity.
  - apply Hv. discriminate.
Defined.

(** No adapter, and the host mode reported all the same. *)
Lemma controller_without_adapter_stays_in_error_witness :
  exists o',
    (exists out,
        @Controller.run signed_char (fst (Controller.construct false Controller.HostPoweredOff))
          [Controller.EvHostStateChanged Controller.HostConnectable] = Some (o', out))
    /\ Controller.state (Controller.read_by_state o') = Controller.ErrorState.
Proof.
  eexists. split; [eexists; reflexivity|].
  exact (proj1 (proj2 (proj2
           (@controller_without_adapter_stays_in_error signed_char Controller.HostPoweredOff
              [Controller.EvHostStateChanged Controller.HostConnectable] _ _ eq_refl)))).
Defined.

(** ** The buffer in every reachable state *)

Section BufferShape.
Context {P : Platform}.

(** Whatever events the session has handled since its construction,
    the command buffer has exactly six bytes, each in [0 .. 255]: no
    action, notification, acknowledgment or [setCurrentMessage] with a
    list of any size and any numbers changes its size or stores a value
    that is not a byte. *)
Theorem buffer_always_has_six_bytes (events : list Event) (d : Private)
    (out : list Effect) :
  run initial events = Some (d, out) ->
  List.length (m_message d) = 6%nat /\ bytes_ok (m_message d).
Proof.
  intros Hrun. split.
  - assert (Hinv : invariant initial) by (split; [discriminate|reflexivity]).
    exact (proj2 (run_invariant events initial d out Hrun Hinv)).
  - eapply run_bytes_ok; [exact Hrun|]. apply bytes_ok_pause.
Qed.

End BufferShape.

(** A list of the wrong size, then one with numbers that are no bytes. *)
Lemma buffer_always_has_six_bytes_witness :
  exists d,
    (exists out,
        @run signed_char initial
          [EvSetCurrentMessage [1; 2; 3]; EvSetCurrentMessage [300; -1; 0; 0; 0; 1000]]
        = Some (d, out))
    /\ List.length (m_message d) = 6%nat.
Proof.
  eexists. split; [eexists; reflexivity|].
  exact (proj1 (@buffer_always_has_six_bytes signed_char
                  [EvSetCurrentMessage [1; 2; 3];
                   EvSetCurrentMessage [300; -1; 0; 0; 0; 1000]] _ _ eq_refl)).
Defined.
